(** * stegano/png: the LSB steganography codec of [png/png.go]

    A shallow embedding of [CalculateCapacity], [initHCoder], [headerBytes],
    [Conceal] and [Reveal], and the properties of the specification that are
    settled against them.

    Conventions.
    - Go's [int] is the 64-bit signed integer; it is carried as [Z].  The one
      product that is computed from arbitrary arguments ([CalculateCapacity])
      has its wrap-around written out; cell indices are bounded by the number
      of cells of the image, which the image decoders keep below [2^63].
    - [uint8] values are [Z] in [[0,256)], conversions to [uint8] are [uint8].
    - Go's [/] and [%] on [int] truncate towards zero: [Z.quot] and [Z.rem].
      An integer division by zero is a run-time panic.
    - [float64] is IEEE-754 binary64, taken from the standard library's
      executable specification [SpecFloat] with [prec = 53], [emax = 1024].
    - The decoded carrier is the grid of the values that
      [sourceImg.At(x, y).RGBA()] returns, in raster order. *)

From Stdlib Require Import ZArith List Bool Lia.
From Stdlib Require Import SpecFloat.
From stdpp Require Import base option list gmap.

Local Open Scope Z_scope.

(** ** Errors and results *)

Inductive panic : Type :=
| DivideByZero      (* runtime error: integer divide by zero *)
| IndexOutOfRange.  (* runtime error: index out of range *)

Inductive error : Type :=
| ErrCapacityMax        (* stegano.ErrCapacityMax *)
| ErrCapacityOverflow   (* stegano.ErrCapacityOverflow *)
| RuntimePanic (p : panic).

Inductive result (A : Type) : Type :=
| Ok (a : A)
| Err (e : error).
Arguments Ok {A} a.
Arguments Err {A} e.

Global Instance result_bind : MBind result :=
  fun A B (k : A -> result B) (m : result A) =>
    match m with
    | Ok a => k a
    | Err e => Err e
    end.

(** A [for] loop whose body may fail: the first failure ends the loop. *)
Fixpoint forM {A S : Type} (body : S -> A -> result S) (l : list A) (s : S)
  : result S :=
  match l with
  | [] => Ok s
  | a :: l' => s' ← body s a; forM body l' s'
  end.

(** ** Machine integers *)

Definition uint8 (x : Z) : Z := x mod 256.

(** Wrap-around of a 64-bit signed [int]. *)
Definition int64 (x : Z) : Z := (x + 2 ^ 63) mod 2 ^ 64 - 2 ^ 63.

Definition len {A : Type} (l : list A) : Z := Z.of_nat (length l).

(** [l[i]] on a slice: a panic when [i] is out of range. *)
Definition index (l : list Z) (i : Z) : result Z :=
  if i <? 0 then Err (RuntimePanic IndexOutOfRange)
  else match l !! Z.to_nat i with
       | Some x => Ok x
       | None => Err (RuntimePanic IndexOutOfRange)
       end.

(** [l[i] = v] on a slice. *)
Definition store (l : list Z) (i : Z) (v : Z) : result (list Z) :=
  if (0 <=? i) && (i <? len l) then Ok (<[Z.to_nat i := v]> l)
  else Err (RuntimePanic IndexOutOfRange).

(** ** float64 *)

Definition prec64 : Z := 53.
Definition emax64 : Z := 1024.

Definition float64 : Type := spec_float.

(** [float64(n)] for an [int] [n]: the nearest binary64 value. *)
Definition float64_of_int (n : Z) : float64 :=
  binary_normalize prec64 emax64 n 0 false.

Definition f64div : float64 -> float64 -> float64 := SFdiv prec64 emax64.
Definition f64mul : float64 -> float64 -> float64 := SFmul prec64 emax64.

(** The result of converting to [int] a [float64] that is a NaN, an infinity
    or out of the range of [int]: the language leaves it to the
    implementation; on amd64 (CVTTSD2SQ) it is the "integer indefinite"
    value [0x8000000000000000]. *)
Definition int_indefinite : Z := - 2 ^ 63.

(** [int(f)] for a [float64] [f], on amd64: the fraction is discarded.
    [int_of_float64_on] below takes the conversion of the values that [int]
    cannot represent as a parameter. *)
Definition int_of_float64 (f : float64) : Z :=
  match f with
  | S754_zero _ => 0
  | S754_finite s m e =>
      let v := if 0 <=? e then Z.pos m * 2 ^ e else Z.pos m / 2 ^ (- e) in
      let t := cond_Zopp s v in
      if (- 2 ^ 63 <=? t) && (t <? 2 ^ 63) then t else int_indefinite
  | _ => int_indefinite
  end.

(** ** CalculateCapacity *)

Definition CalculateCapacity (width height channels bitsPerByte : Z) : Z :=
  Z.quot (int64 (int64 (int64 (width * height) * channels) * bitsPerByte)) 8.

(** The stride of [Conceal] and of [Reveal]:
    [int(float64(cap-len(hdata)) / float64(n) * 4)], as a function of
    [avail = cap-len(hdata)] and of the content length [n]. *)
Definition stride (avail n : Z) : Z :=
  int_of_float64
    (f64mul (f64div (float64_of_int avail) (float64_of_int n))
            (float64_of_int 4)).

(** ** The header coder *)

Record SteganoPNG : Type := {
  hcoder : list (list Z);
  hmap : gmap Z Z
}.

(** [s.hcoder[k] = append(s.hcoder[k], v); s.hmap[v] = k] *)
Definition classify (k : nat) (v : Z) (s : SteganoPNG) : SteganoPNG :=
  {| hcoder := alter (fun c => c ++ [v]) k (hcoder s);
     hmap := <[v := Z.of_nat k]> (hmap s) |}.

(** The body of the loop of [initHCoder]: the [switch] takes the first case
    that holds, and none for [i = 0]. *)
Definition initHCoder_body (s : SteganoPNG) (i : Z) : SteganoPNG :=
  if (Z.rem i 4 =? 0) && (0 <? Z.quot i 4) then classify 3 (uint8 i) s
  else if (Z.rem i 3 =? 0) && (0 <? Z.quot i 3) then classify 2 (uint8 i) s
  else if (Z.rem i 2 =? 0) && (0 <? Z.quot i 2) then classify 1 (uint8 i) s
  else if (Z.rem i 1 =? 0) && (0 <? Z.quot i 1) then classify 0 (uint8 i) s
  else s.

Definition initHCoder : SteganoPNG :=
  foldl initHCoder_body
        {| hcoder := replicate 4 []; hmap := ∅ |}
        (seqZ 0 256).

Definition New : SteganoPNG := initHCoder.

(** [s.hmap[b]]: a key that is not in a Go map reads as the zero value. *)
Definition hmap_get (s : SteganoPNG) (b : Z) : Z := default 0 (hmap s !! b).

(** ** headerBytes *)

(** [len(fmt.Sprintf("%08b", dlen))] for [dlen >= 0]: the binary digits of
    [dlen], padded with zeros to eight characters. *)
Definition binary_digits (n : Z) : Z := if n =? 0 then 1 else Z.log2 n + 1.
Definition bitcount (dlen : Z) : Z := Z.max 8 (binary_digits dlen).

Definition bytecount (dlen : Z) : Z :=
  let bc := bitcount dlen in
  if 0 <? Z.rem bc 8 then Z.quot bc 8 + 1 else Z.quot bc 8.

(** The loop [b[bi] |= uint8(l & 255); l = l >> 8] over [n] bytes. *)
Fixpoint lengthBytes (n : nat) (l : Z) : list Z :=
  match n with
  | O => []
  | S n' => uint8 (Z.land l 255) :: lengthBytes n' (Z.shiftr l 8)
  end.

(** [s.hcoder[k][r.Intn(len(s.hcoder[k]))]], where [rnd n] is the value that
    [r.Intn(n)] returns. *)
Definition pickIndex (s : SteganoPNG) (rnd : Z -> Z) (k : nat) : result Z :=
  match hcoder s !! k with
  | Some c => index c (rnd (len c))
  | None => Err (RuntimePanic IndexOutOfRange)
  end.

Definition headerBytes (s : SteganoPNG) (rnd : Z -> Z) (dlen : Z)
  : result (list Z) :=
  let max := 2 ^ 32 in
  if max <? dlen then Err ErrCapacityMax
  else
    let b := lengthBytes (Z.to_nat (bytecount dlen)) dlen in
    if dlen <? 2 ^ 8 then ib ← pickIndex s rnd 0; Ok (ib :: b)
    else if dlen <? 2 ^ 16 then ib ← pickIndex s rnd 1; Ok (ib :: b)
    else if dlen <? 2 ^ 24 then ib ← pickIndex s rnd 2; Ok (ib :: b)
    else if dlen <? 2 ^ 32 then ib ← pickIndex s rnd 3; Ok (ib :: b)
    else Ok b.

(** ** Images *)

(** The four values of [Color.RGBA()]: alpha-premultiplied, each a [uint32]
    in [[0, 0xffff]]. *)
Record RGBA64 : Type := { cR : Z; cG : Z; cB : Z; cA : Z }.

(** The decoded source image: [Bounds()] is [(0,0)-(width,height)] and
    [At(x, y).RGBA()] is the entry [x + y*width] of [pix]. *)
Record Image : Type := { width : Z; height : Z; pix : list RGBA64 }.

Definition At (img : Image) (x y : Z) : RGBA64 :=
  default {| cR := 0; cG := 0; cB := 0; cA := 0 |}
          (pix img !! Z.to_nat (x + y * width img)).

(** [color.NRGBA]: 8-bit channels, not premultiplied. *)
Record NRGBA : Type := { nR : Z; nG : Z; nB : Z; nA : Z }.

(** [*image.NRGBA] with the rectangle [(0,0)-(nwidth,nheight)]. *)
Record NRGBAImage : Type := { nwidth : Z; nheight : Z; npix : list NRGBA }.

(** [image.NewNRGBA(image.Rect(0, 0, width, height))] *)
Definition NewNRGBA (w h : Z) : NRGBAImage :=
  {| nwidth := w; nheight := h;
     npix := replicate (Z.to_nat (w * h))
                       {| nR := 0; nG := 0; nB := 0; nA := 0 |} |}.

(** [img.Set(x, y, c)]: nothing happens outside the rectangle. *)
Definition SetNRGBA (img : NRGBAImage) (x y : Z) (c : NRGBA) : NRGBAImage :=
  if (0 <=? x) && (x <? nwidth img) && (0 <=? y) && (y <? nheight img)
  then {| nwidth := nwidth img; nheight := nheight img;
          npix := <[Z.to_nat (x + y * nwidth img) := c]> (npix img) |}
  else img.

(** ** The walk over the available encoding bytes *)

(** The data byte index [dbi] and the start bit index [sbi] of the available
    encoding byte [abi]: in the header region when [inHeader], else in the
    content region, where the division by [step] panics for [step = 0]. *)
Definition indices (inHeader : bool) (hlen step abi : Z) : result (Z * Z) :=
  if inHeader then Ok (Z.quot abi 4, Z.rem abi 4 * 2)
  else if step =? 0 then Err (RuntimePanic DivideByZero)
  else Ok (Z.quot (abi - hlen * 4) step, Z.rem (abi - hlen * 4) step * 2).

(** ** Conceal *)

(** One turn of the loop over [ebi]: bit [sbi + ebi] of the header or content
    byte [dbi] is written to bit [ebi] of the channel value [v]. *)
Definition concealBit (hdata data : list Z) (abi dbi sbi : Z) (v ebi : Z)
  : result Z :=
  let bi := sbi + ebi in
  src ← (if abi <? len hdata * 4 then index hdata dbi else index data dbi);
  let bit := Z.land src (uint8 (Z.shiftl 1 bi)) in
  Ok (if bit =? 0 then Z.ldiff v (uint8 (ebi + 1))
      else Z.lor v (uint8 (ebi + 1))).

(** The body of the loop over the channels [ci], on the channel value [v]. *)
Definition concealCell (hdata data : list Z) (step abi v : Z) : result Z :=
  '(dbi, sbi) ← indices (abi <? len hdata * 4) (len hdata) step abi;
  if (sbi <? 8) && (dbi <? len data)
  then forM (concealBit hdata data abi dbi sbi) [0; 1] v
  else Ok v.

(** The body of the loop over [x]: one pixel of the output. *)
Definition concealPixel (hdata data : list Z) (step : Z) (img : Image)
    (x y : Z) : result NRGBA :=
  let c := At img x y in
  let pxi := x + y * width img in
  r ← concealCell hdata data step (pxi * 3 + 0) (uint8 (cR c / 256));
  g ← concealCell hdata data step (pxi * 3 + 1) (uint8 (cG c / 256));
  b ← concealCell hdata data step (pxi * 3 + 2) (uint8 (cB c / 256));
  Ok {| nR := r; nG := g; nB := b; nA := uint8 (cA c / 256) |}.

Definition concealLoop (hdata data : list Z) (step : Z) (img : Image)
  : result NRGBAImage :=
  forM (fun out y =>
          forM (fun out x =>
                  c ← concealPixel hdata data step img x y;
                  Ok (SetNRGBA out x y c))
               (seqZ 0 (width img)) out)
       (seqZ 0 (height img))
       (NewNRGBA (width img) (height img)).

(** [Conceal(data, r, w)] after the image has been decoded: the image that
    is handed to [png.Encode], or the error that is returned before. *)
Definition Conceal (s : SteganoPNG) (rnd : Z -> Z) (data : list Z)
    (img : Image) : result NRGBAImage :=
  hdata ← headerBytes s rnd (len data);
  let cap := CalculateCapacity (width img) (height img) 3 2 in
  if cap - len hdata <? len data then Err ErrCapacityOverflow
  else
    let step := stride (cap - len hdata) (len data) in
    concealLoop hdata data step img.

(** ** The conversion to [int] on other builds *)

(** [int(f)] on a build that converts a [float64] that is a NaN, an infinity
    or out of the range of [int] to [conv f]; [int_of_float64] is
    [int_of_float64_on int_amd64]. *)
Definition int_of_float64_on (conv : float64 -> Z) (f : float64) : Z :=
  match f with
  | S754_zero _ => 0
  | S754_finite s m e =>
      let v := if 0 <=? e then Z.pos m * 2 ^ e else Z.pos m / 2 ^ (- e) in
      let t := cond_Zopp s v in
      if (- 2 ^ 63 <=? t) && (t <? 2 ^ 63) then t else conv f
  | _ => conv f
  end.

(** amd64 (CVTTSD2SQ): the "integer indefinite" value, whatever the
    operand. *)
Definition int_amd64 (f : float64) : Z := int_indefinite.

(** arm64 (FCVTZS): a NaN gives 0, the other values saturate. *)
Definition int_arm64 (f : float64) : Z :=
  match f with
  | S754_nan | S754_zero _ => 0
  | S754_infinity s | S754_finite s _ _ =>
      if s then - 2 ^ 63 else 2 ^ 63 - 1
  end.

(** The stride on such a build. *)
Definition strideOn (conv : float64 -> Z) (avail n : Z) : Z :=
  int_of_float64_on conv
    (f64mul (f64div (float64_of_int avail) (float64_of_int n))
            (float64_of_int 4)).

(** [Conceal] on such a build: the same code, with the conversion of the
    build in the stride.  [Conceal] is [ConcealOn int_amd64]. *)
Definition ConcealOn (conv : float64 -> Z) (s : SteganoPNG) (rnd : Z -> Z)
    (data : list Z) (img : Image) : result NRGBAImage :=
  hdata ← headerBytes s rnd (len data);
  let cap := CalculateCapacity (width img) (height img) 3 2 in
  if cap - len hdata <? len data then Err ErrCapacityOverflow
  else
    let step := strideOn conv (cap - len hdata) (len data) in
    concealLoop hdata data step img.

(** ** Reveal *)

(** The variables of [Reveal] that live across the loops; [None] is the
    [nil] slice. *)
Record rstate : Type := {
  dbyte : Z;
  hdataR : option (list Z);
  dataR : option (list Z);
  stepR : Z;
  clenR : Z
}.

Definition rstate0 : rstate :=
  {| dbyte := 0; hdataR := None; dataR := None; stepR := 4; clenR := 0 |}.

Definition slice (o : option (list Z)) : list Z := default [] o.

(** [hdata == nil || abi < len(hdata)*4] *)
Definition inHeaderR (st : rstate) (abi : Z) : bool :=
  match hdataR st with
  | None => true
  | Some h => abi <? len h * 4
  end.

(** The loops over [i] and [ii] that assemble the content length from the
    content length data [cld = hdata[1:]]: the body of the inner loop, the
    inner loop, and the outer loop. *)
Definition lengthBit (cld : list Z) (i : Z) (clen ii : Z) : Z :=
  let tbit := Z.land (default 0 (cld !! Z.to_nat i)) (uint8 (Z.shiftl 1 ii)) in
  let bit := Z.shiftl tbit (i * 8) in
  Z.lor clen bit.

Definition lengthByte (cld : list Z) (clen i : Z) : Z :=
  foldl (lengthBit cld i) clen (seqZ 0 8).

Definition contentLength (clen : Z) (cld : list Z) : Z :=
  foldl (lengthByte cld) clen (seqZ 0 (len cld)).

(** The length of the header that the index byte [ib] announces:
    [s.hmap[dbyte]+1+1], computed on [uint8]. *)
Definition headerSize (s : SteganoPNG) (ib : Z) : Z :=
  uint8 (hmap_get s ib + 1 + 1).

(** The block under [if bi == 7], with [dbyte] complete. *)
Definition completeByte (s : SteganoPNG) (cap abi dbi : Z) (st : rstate)
  : result rstate :=
  if inHeaderR st abi then
    let hdata0 :=
      if dbi =? 0
      then Some (replicate (Z.to_nat (headerSize s (dbyte st))) 0)
      else hdataR st in
    hdata ← store (slice hdata0) dbi (dbyte st);
    if dbi =? len hdata - 1 then
      let clen := contentLength (clenR st) (drop 1 hdata) in
      Ok {| dbyte := 0;
            hdataR := Some hdata;
            dataR := Some (replicate (Z.to_nat clen) 0);
            stepR := stride (cap - len hdata) clen;
            clenR := clen |}
    else
      Ok {| dbyte := 0; hdataR := Some hdata; dataR := dataR st;
            stepR := stepR st; clenR := clenR st |}
  else
    data ← store (slice (dataR st)) dbi (dbyte st);
    Ok {| dbyte := 0; hdataR := hdataR st; dataR := Some data;
          stepR := stepR st; clenR := clenR st |}.

(** One turn of the loop over [ebi], on the channel value [v]. *)
Definition revealBit (s : SteganoPNG) (cap abi dbi sbi v : Z) (st : rstate)
    (ebi : Z) : result rstate :=
  let bi := sbi + ebi in
  let ebit := Z.land v (uint8 (Z.shiftl 1 ebi)) in
  let bit := uint8 (Z.shiftl ebit (Z.quot bi 2 * 2)) in
  let st' := {| dbyte := Z.lor (dbyte st) bit; hdataR := hdataR st;
                dataR := dataR st; stepR := stepR st; clenR := clenR st |} in
  if bi =? 7 then completeByte s cap abi dbi st' else Ok st'.

(** The body of the loop over the channels [ci]. *)
Definition revealCell (s : SteganoPNG) (cap : Z) (st : rstate) (abi v : Z)
  : result rstate :=
  '(dbi, sbi) ← indices (inHeaderR st abi) (len (slice (hdataR st)))
                         (stepR st) abi;
  if (sbi <? 8) &&
     match dataR st with None => true | Some d => dbi <? len d end
  then forM (revealBit s cap abi dbi sbi v) [0; 1] st
  else Ok st.

(** The body of the loop over [x]. *)
Definition revealPixel (s : SteganoPNG) (cap : Z) (img : Image) (x y : Z)
    (st : rstate) : result rstate :=
  let c := At img x y in
  let pxi := x + y * width img in
  st ← revealCell s cap st (pxi * 3 + 0) (uint8 (cR c / 256));
  st ← revealCell s cap st (pxi * 3 + 1) (uint8 (cG c / 256));
  revealCell s cap st (pxi * 3 + 2) (uint8 (cB c / 256)).

Definition revealLoop (s : SteganoPNG) (img : Image) : result rstate :=
  let cap := CalculateCapacity (width img) (height img) 3 2 in
  forM (fun st y =>
          forM (fun st x => revealPixel s cap img x y st)
               (seqZ 0 (width img)) st)
       (seqZ 0 (height img))
       rstate0.

(** [Reveal(r, w)] after the image has been decoded: the bytes that are
    written to [w]. *)
Definition Reveal (s : SteganoPNG) (img : Image) : result (list Z) :=
  st ← revealLoop s img;
  Ok (slice (dataR st)).

(** ** From the steganogram back to [Reveal] *)

(** [color.NRGBA.RGBA()] of the Go library, which [At(x, y).RGBA()] is on the
    image that [png.Decode] gives for the encoded [*image.NRGBA] (for an
    opaque image it gives an [*image.RGBA], whose values are the same). *)
Definition NRGBA_RGBA (c : NRGBA) : RGBA64 :=
  {| cR := nR c * 257 * nA c / 255;
     cG := nG c * 257 * nA c / 255;
     cB := nB c * 257 * nA c / 255;
     cA := nA c * 257 |}.

(** The steganogram as [Reveal] decodes it; PNG is lossless on the pixels. *)
Definition decodeSteganogram (out : NRGBAImage) : Image :=
  {| width := nwidth out; height := nheight out;
     pix := NRGBA_RGBA <$> npix out |}.

(** [Reveal] on the output of [Conceal]. *)
Definition roundTrip (s : SteganoPNG) (rnd : Z -> Z) (data : list Z)
    (img : Image) : result (list Z) :=
  out ← Conceal s rnd data img;
  Reveal s (decodeSteganogram out).

(** A uniform opaque-or-not test carrier. *)
Definition uniform (w h : Z) (c : RGBA64) : Image :=
  {| width := w; height := h; pix := replicate (Z.to_nat (w * h)) c |}.

(** ** Auxiliary notions for the statements *)

(** The contract of [r.Intn]: a value in [[0, n)]. *)
Definition Intn_spec (rnd : Z -> Z) : Prop :=
  forall n, 0 < n -> 0 <= rnd n < n.

(** [s.hcoder[k]] *)
Definition class (s : SteganoPNG) (k : nat) : list Z :=
  default [] (hcoder s !! k).

(** The class of a value by the first-match priority of the specification:
    class 3 if divisible by 4, else class 2 if divisible by 3, else class 1
    if divisible by 2, else class 0. *)
Definition spec_class (v : Z) : nat :=
  if v mod 4 =? 0 then 3%nat
  else if v mod 3 =? 0 then 2%nat
  else if v mod 2 =? 0 then 1%nat
  else 0%nat.

(** ** Facts about the coder that [New] builds *)

Lemma hcoder_New_length : length (hcoder New) = 4%nat.
Proof. vm_compute. reflexivity. Qed.

Lemma class_New_ge (k : nat) : (4 <= k)%nat -> class New k = [].
Proof.
  intros Hk. unfold class.
  rewrite (lookup_ge_None_2 (hcoder New) k); [reflexivity|].
  rewrite hcoder_New_length. exact Hk.
Qed.

(** Every entry of the reverse map has a key in [1..255] and sends it to its
    class by priority, which is the list that holds it. *)
Lemma hmap_New_entries :
  map_Forall (fun v k => 1 <= v <= 255 /\ k = Z.of_nat (spec_class v)
                         /\ v ∈ class New (spec_class v)) (hmap New).
Proof. refine (bool_decide_unpack _ _). vm_compute. reflexivity. Qed.

(** The members of the four lists, each with its entry of the reverse map. *)
Lemma class_New_members :
  Forall (fun c => Forall (fun v => 1 <= v <= 255) c) (hcoder New) /\
  forall k : nat, (k < 4)%nat ->
    Forall (fun v => hmap New !! v = Some (Z.of_nat k)) (class New k).
Proof.
  split.
  - refine (bool_decide_unpack _ _). vm_compute. reflexivity.
  - intros k Hk.
    destruct k as [|[|[|[|k]]]]; try lia;
      refine (bool_decide_unpack _ _); vm_compute; reflexivity.
Qed.

Lemma range_forallb (f : Z -> bool) (lo n : Z) :
  forallb f (seqZ lo n) = true -> forall v, lo <= v < lo + n -> f v = true.
Proof.
  intros Hall v Hv.
  rewrite forallb_forall in Hall. apply Hall.
  apply list_elem_of_In, elem_of_seqZ. lia.
Qed.

(** Every value of [1..255] has its entry and sits in the list of its class
    and in no other. *)
Lemma hmap_New_lookup (v : Z) :
  1 <= v <= 255 -> hmap New !! v = Some (Z.of_nat (spec_class v)).
Proof.
  intros Hv.
  pose (f := fun v => bool_decide (hmap New !! v = Some (Z.of_nat (spec_class v)))).
  assert (Hall : forallb f (seqZ 1 255) = true) by (vm_compute; reflexivity).
  assert (Hr : 1 <= v < 1 + 255) by lia.
  pose proof (range_forallb f 1 255 Hall v Hr) as Hf.
  unfold f in Hf. apply bool_decide_eq_true in Hf. exact Hf.
Qed.

Lemma class_New_elem (v : Z) (k : nat) :
  v ∈ class New k <-> 1 <= v <= 255 /\ k = spec_class v.
Proof.
  split.
  - intros Hin.
    destruct (le_lt_dec 4 k) as [Hge|Hlt].
    { rewrite class_New_ge in Hin by exact Hge. inversion Hin. }
    destruct class_New_members as [Hrange Hmap].
    specialize (Hmap k Hlt). rewrite Forall_forall in Hmap.
    specialize (Hmap v Hin).
    pose proof (hmap_New_entries v _ Hmap) as (Hv & Hk & _).
    split; [exact Hv | lia].
  - intros [Hv ->].
    pose proof (hmap_New_entries v _ (hmap_New_lookup v Hv)) as (_ & _ & Hin).
    exact Hin.
Qed.

Lemma hmap_New_None (v : Z) : ~ 1 <= v <= 255 -> hmap New !! v = None.
Proof.
  intros Hv. destruct (hmap New !! v) as [k|] eqn:E; [|reflexivity].
  pose proof (hmap_New_entries v k E) as (Hr & _). contradiction.
Qed.

Lemma hmap_get_New (v : Z) :
  hmap_get New v = if (1 <=? v) && (v <=? 255) then Z.of_nat (spec_class v) else 0.
Proof.
  unfold hmap_get.
  destruct ((1 <=? v) && (v <=? 255)) eqn:E.
  - rewrite hmap_New_lookup by lia. reflexivity.
  - rewrite hmap_New_None by lia. reflexivity.
Qed.

Lemma spec_class_lt (v : Z) : (spec_class v < 4)%nat.
Proof. unfold spec_class. repeat case_match; lia. Qed.

Lemma hmap_get_New_range (v : Z) : 0 <= hmap_get New v <= 3.
Proof.
  rewrite hmap_get_New. pose proof (spec_class_lt v).
  destruct ((1 <=? v) && (v <=? 255)); lia.
Qed.

Lemma class_New_length (k : nat) : (k < 4)%nat -> 0 < len (class New k).
Proof.
  intros Hk. destruct k as [|[|[|[|k]]]]; try lia; vm_compute; reflexivity.
Qed.

(** ** C9 *)

(** C9: the coder that [initHCoder] builds partitions [1..255]: there are
    four lists, none of them empty; a value of [1..255] is in the list [k]
    exactly when [k] is its class by the priority 4, 3, 2, else; the value 0
    is in no list and has no entry in the reverse map; and the reverse map
    sends every member of a list to the index of that list.  ([Conceal] and
    [Reveal] read the coder and have no coder in their results.) *)
Theorem C9_partition :
  length (hcoder New) = 4%nat /\
  (forall k : nat, (k < 4)%nat -> class New k <> []) /\
  (forall (v : Z) (k : nat), 1 <= v <= 255 ->
     (v ∈ class New k <-> k = spec_class v)) /\
  (forall k : nat, 0 ∉ class New k) /\
  hmap New !! 0 = None /\
  (forall (v : Z) (k : nat), v ∈ class New k ->
     1 <= v <= 255 /\ hmap New !! v = Some (Z.of_nat k)).
Proof.
  split; [exact hcoder_New_length|].
  split.
  { intros k Hk E. pose proof (class_New_length k Hk) as Hl.
    rewrite E in Hl. vm_compute in Hl. discriminate. }
  split.
  { intros v k Hv. rewrite class_New_elem. tauto. }
  split.
  { intros k Hin. apply class_New_elem in Hin. lia. }
  split.
  { apply hmap_New_None. lia. }
  intros v k Hin. apply class_New_elem in Hin as [Hv ->].
  split; [exact Hv | apply hmap_New_lookup; exact Hv].
Qed.

Lemma C9_partition_witness :
  (12 ∈ class New 3 <-> 3%nat = spec_class 12) /\
  (1 <= 9 <= 255 /\ hmap New !! 9 = Some (Z.of_nat 2)).
Proof.
  destruct C9_partition as (_ & _ & Hcls & _ & _ & Hmap).
  split.
  - apply (Hcls 12 3%nat). lia.
  - apply (Hmap 9 2%nat). vm_compute. repeat constructor.
Defined.

(** ** Facts about [headerBytes] *)

Ltac quot_rem_nonneg :=
  repeat match goal with
  | |- context [Z.quot ?a ?b] => rewrite (Z.quot_div_nonneg a b) by lia
  | |- context [Z.rem ?a ?b] => rewrite (Z.rem_mod_nonneg a b) by lia
  end.

Lemma binary_digits_bounds (n : Z) (k : Z) :
  0 < k -> 2 ^ (k - 1) <= n < 2 ^ k -> binary_digits n = k.
Proof.
  intros Hk [Hlo Hhi]. unfold binary_digits.
  assert (0 < n) by (pose proof (Z.pow_pos_nonneg 2 (k - 1)); lia).
  destruct (n =? 0) eqn:E; [lia|].
  assert (Z.log2 n < k) by (apply Z.log2_lt_pow2; lia).
  assert (k - 1 <= Z.log2 n) by (apply Z.log2_le_pow2; lia).
  lia.
Qed.

Lemma binary_digits_range (n lo hi : Z) :
  0 < lo -> lo <= hi -> 2 ^ lo <= n < 2 ^ hi -> lo < binary_digits n <= hi.
Proof.
  intros Hlo Hle [H1 H2]. unfold binary_digits.
  assert (0 < n) by (pose proof (Z.pow_pos_nonneg 2 lo); lia).
  destruct (n =? 0) eqn:E; [lia|].
  assert (Z.log2 n < hi) by (apply Z.log2_lt_pow2; lia).
  assert (lo <= Z.log2 n) by (apply Z.log2_le_pow2; lia).
  lia.
Qed.

Lemma binary_digits_small (n : Z) : 0 <= n < 2 ^ 8 -> 1 <= binary_digits n <= 8.
Proof.
  intros [H1 H2]. unfold binary_digits.
  destruct (n =? 0) eqn:E; [lia|].
  assert (Z.log2 n < 8) by (apply Z.log2_lt_pow2; lia).
  pose proof (Z.log2_nonneg n). lia.
Qed.

(** The number of length bytes: 1 below [2^8], 2 below [2^16], 3 below
    [2^24], 4 below [2^32]. *)
Lemma bytecount_cases (dlen : Z) :
  0 <= dlen < 2 ^ 32 ->
  bytecount dlen =
    if dlen <? 2 ^ 8 then 1 else if dlen <? 2 ^ 16 then 2
    else if dlen <? 2 ^ 24 then 3 else 4.
Proof.
  intros Hd. unfold bytecount, bitcount.
  assert (Hq : forall d k, 0 < k -> 8 * (k - 1) < d <= 8 * k ->
            (if 0 <? Z.rem d 8 then Z.quot d 8 + 1 else Z.quot d 8) = k).
  { intros d k Hk Hdk. quot_rem_nonneg.
    pose proof (Z.div_mod d 8 ltac:(lia)).
    pose proof (Z.mod_pos_bound d 8 ltac:(lia)).
    destruct (0 <? d mod 8) eqn:E; lia. }
  destruct (dlen <? 2 ^ 8) eqn:E8.
  { pose proof (binary_digits_small dlen ltac:(lia)).
    rewrite Z.max_l by lia. reflexivity. }
  destruct (dlen <? 2 ^ 16) eqn:E16.
  { pose proof (binary_digits_range dlen 8 16 ltac:(lia) ltac:(lia) ltac:(lia)).
    rewrite Z.max_r by lia. apply Hq; lia. }
  destruct (dlen <? 2 ^ 24) eqn:E24.
  { pose proof (binary_digits_range dlen 16 24 ltac:(lia) ltac:(lia) ltac:(lia)).
    rewrite Z.max_r by lia. apply Hq; lia. }
  pose proof (binary_digits_range dlen 24 32 ltac:(lia) ltac:(lia) ltac:(lia)).
  rewrite Z.max_r by lia. apply Hq; lia.
Qed.

Lemma lengthBytes_length (n : nat) (l : Z) : length (lengthBytes n l) = n.
Proof. revert l. induction n as [|n IH]; intros l; simpl; [|rewrite IH]; reflexivity. Qed.

Lemma uint8_range (x : Z) : 0 <= uint8 x < 256.
Proof. unfold uint8. apply Z.mod_pos_bound. lia. Qed.

Lemma uint8_small (x : Z) : 0 <= x < 256 -> uint8 x = x.
Proof. intros H. unfold uint8. apply Z.mod_small. exact H. Qed.

Lemma lengthBytes_bytes (n : nat) (l : Z) :
  Forall (fun b => 0 <= b < 256) (lengthBytes n l).
Proof.
  revert l. induction n as [|n IH]; intros l; simpl; constructor.
  - apply uint8_range.
  - apply IH.
Qed.

Lemma pickIndex_New (rnd : Z -> Z) (k : nat) :
  Intn_spec rnd -> (k < 4)%nat ->
  exists ib, pickIndex New rnd k = Ok ib /\ ib ∈ class New k.
Proof.
  intros Hrnd Hk. unfold pickIndex, class.
  destruct (hcoder New !! k) as [c|] eqn:E.
  2:{ apply lookup_ge_None_1 in E. rewrite hcoder_New_length in E. lia. }
  simpl.
  pose proof (class_New_length k Hk) as Hlen. unfold class in Hlen.
  rewrite E in Hlen. simpl in Hlen.
  specialize (Hrnd (len c) Hlen). unfold index.
  destruct (rnd (len c) <? 0) eqn:E0; [lia|].
  destruct (c !! Z.to_nat (rnd (len c))) as [ib|] eqn:El.
  - exists ib. split; [reflexivity|]. eapply list_elem_of_lookup_2. exact El.
  - apply lookup_ge_None_1 in El. unfold len in *. lia.
Qed.

(** Below [2^32], [headerBytes] returns an index byte of the class [k-1]
    followed by the [k] little-endian length bytes. *)
Lemma headerBytes_New (rnd : Z -> Z) (dlen : Z) :
  Intn_spec rnd -> 0 <= dlen < 2 ^ 32 ->
  exists ib,
    headerBytes New rnd dlen =
      Ok (ib :: lengthBytes (Z.to_nat (bytecount dlen)) dlen) /\
    1 <= bytecount dlen <= 4 /\
    ib ∈ class New (Z.to_nat (bytecount dlen - 1)).
Proof.
  intros Hrnd Hd. unfold headerBytes.
  rewrite (bytecount_cases dlen Hd).
  destruct (2 ^ 32 <? dlen) eqn:Emax; [lia|].
  destruct (dlen <? 2 ^ 8) eqn:E8.
  { destruct (pickIndex_New rnd 0 Hrnd ltac:(lia)) as (ib & -> & Hin).
    exists ib. simpl. repeat split; try lia. exact Hin. }
  destruct (dlen <? 2 ^ 16) eqn:E16.
  { destruct (pickIndex_New rnd 1 Hrnd ltac:(lia)) as (ib & -> & Hin).
    exists ib. simpl. repeat split; try lia. exact Hin. }
  destruct (dlen <? 2 ^ 24) eqn:E24.
  { destruct (pickIndex_New rnd 2 Hrnd ltac:(lia)) as (ib & -> & Hin).
    exists ib. simpl. repeat split; try lia. exact Hin. }
  destruct (dlen <? 2 ^ 32) eqn:E32; [|lia].
  destruct (pickIndex_New rnd 3 Hrnd ltac:(lia)) as (ib & -> & Hin).
  exists ib. simpl. repeat split; try lia. exact Hin.
Qed.

(** The length of the header does not depend on the random source. *)
Lemma headerBytes_New_len (rnd : Z -> Z) (dlen : Z) (hdata : list Z) :
  Intn_spec rnd -> 0 <= dlen < 2 ^ 32 ->
  headerBytes New rnd dlen = Ok hdata ->
  len hdata = bytecount dlen + 1 /\ 2 <= len hdata <= 5.
Proof.
  intros Hrnd Hd Hh.
  destruct (headerBytes_New rnd dlen Hrnd Hd) as (ib & E & Hk & _).
  rewrite E in Hh. injection Hh as <-.
  unfold len. simpl. rewrite lengthBytes_length. lia.
Qed.

(** The index byte announces the length of the header it starts. *)
Lemma headerSize_class (ib : Z) (k : nat) :
  ib ∈ class New k -> headerSize New ib = Z.of_nat k + 2.
Proof.
  intros Hin. apply class_New_elem in Hin as [Hv ->].
  unfold headerSize. rewrite hmap_get_New.
  replace ((1 <=? ib) && (ib <=? 255)) with true by lia.
  pose proof (spec_class_lt ib). rewrite uint8_small by lia. lia.
Qed.

(** ** Decoding the content length *)

(** The value of a little-endian byte sequence. *)
Fixpoint le_value (l : list Z) : Z :=
  match l with
  | [] => 0
  | b :: r => b + 256 * le_value r
  end.

Lemma byte_bits (b : Z) :
  0 <= b < 256 ->
  Z.lor (Z.land b 1) (Z.lor (Z.land b 2) (Z.lor (Z.land b 4) (Z.lor (Z.land b 8)
   (Z.lor (Z.land b 16) (Z.lor (Z.land b 32) (Z.lor (Z.land b 64) (Z.land b 128))))))) = b.
Proof.
  intros Hb. rewrite <- !Z.land_lor_distr_r.
  change (Z.lor 1 (Z.lor 2 (Z.lor 4 (Z.lor 8 (Z.lor 16 (Z.lor 32 (Z.lor 64 128))))))) with (Z.ones 8).
  rewrite Z.land_ones by lia. apply Z.mod_small. exact Hb.
Qed.

Lemma contentLength_byte (cld : list Z) (clen i b : Z) :
  0 <= i -> cld !! Z.to_nat i = Some b -> 0 <= b < 256 ->
  lengthByte cld clen i = Z.lor clen (Z.shiftl b (i * 8)).
Proof.
  intros Hi Hl Hb. unfold lengthByte.
  change (seqZ 0 8) with [0;1;2;3;4;5;6;7]. cbn [foldl]. unfold lengthBit.
  rewrite Hl. simpl default.
  change (uint8 (Z.shiftl 1 0)) with 1. change (uint8 (Z.shiftl 1 1)) with 2.
  change (uint8 (Z.shiftl 1 2)) with 4. change (uint8 (Z.shiftl 1 3)) with 8.
  change (uint8 (Z.shiftl 1 4)) with 16. change (uint8 (Z.shiftl 1 5)) with 32.
  change (uint8 (Z.shiftl 1 6)) with 64. change (uint8 (Z.shiftl 1 7)) with 128.
  rewrite <- !Z.lor_assoc. rewrite <- !Z.shiftl_lor.
  rewrite byte_bits by exact Hb. reflexivity.
Qed.

Lemma byte_cons_value (b v : Z) :
  0 <= b < 256 -> 0 <= v -> b + 256 * v = Z.lor b (Z.shiftl v 8).
Proof.
  intros Hb Hv. rewrite Z.shiftl_mul_pow2 by lia. change (2 ^ 8) with 256.
  rewrite <- Z.lxor_lor, <- Z.add_nocarry_lxor; try lia.
  - apply Z.bits_inj'. intros n Hn. rewrite Z.land_spec, Z.bits_0.
    destruct (Z.lt_ge_cases n 8).
    + replace (v * 256) with (v * 2 ^ 8) by lia. rewrite Z.mul_pow2_bits_low by lia.
      apply andb_false_r.
    + replace (Z.testbit b n) with false; [reflexivity|].
      symmetry. apply Z.bits_above_log2; [lia|].
      destruct (Z.eq_dec b 0) as [->|]; [simpl; lia|].
      assert (Z.log2 b < 8) by (apply Z.log2_lt_pow2; lia). lia.
  - apply Z.bits_inj'. intros n Hn. rewrite Z.land_spec, Z.bits_0.
    destruct (Z.lt_ge_cases n 8).
    + replace (v * 256) with (v * 2 ^ 8) by lia. rewrite Z.mul_pow2_bits_low by lia.
      apply andb_false_r.
    + replace (Z.testbit b n) with false; [reflexivity|].
      symmetry. apply Z.bits_above_log2; [lia|].
      destruct (Z.eq_dec b 0) as [->|]; [simpl; lia|].
      assert (Z.log2 b < 8) by (apply Z.log2_lt_pow2; lia). lia.
Qed.

Lemma le_value_nonneg l : Forall (fun b => 0 <= b < 256) l -> 0 <= le_value l.
Proof. induction 1; simpl; lia. Qed.

Lemma contentLength_from (cld : list Z) (n : nat) (k clen : Z) :
  Forall (fun b => 0 <= b < 256) cld ->
  0 <= k -> k + Z.of_nat n <= len cld ->
  foldl (lengthByte cld) clen (seqZ k (Z.of_nat n))
  = Z.lor clen (Z.shiftl (le_value (take n (drop (Z.to_nat k) cld))) (k * 8)).
Proof.
  intros Hb. revert k clen. induction n as [|n IH]; intros k clen Hk Hlen.
  - simpl. rewrite Z.shiftl_0_l, Z.lor_0_r. reflexivity.
  - rewrite Nat2Z.inj_succ, seqZ_cons by lia. cbn [foldl].
    replace (Z.pred (Z.succ (Z.of_nat n))) with (Z.of_nat n) by lia.
    destruct (lookup_lt_is_Some_2 cld (Z.to_nat k)) as [b El].
    { unfold len in Hlen. lia. }
    assert (Hbb : 0 <= b < 256).
    { rewrite Forall_forall in Hb. apply Hb. eapply list_elem_of_lookup_2. exact El. }
    rewrite (contentLength_byte cld clen k b Hk El Hbb).
    rewrite IH by lia.
    rewrite (drop_S cld b (Z.to_nat k) El). cbn [take le_value].
    replace (Z.to_nat (Z.succ k)) with (S (Z.to_nat k)) by lia.
    assert (0 <= le_value (take n (drop (S (Z.to_nat k)) cld))).
    { apply le_value_nonneg. apply Forall_take, Forall_drop. exact Hb. }
    rewrite byte_cons_value by lia.
    rewrite Z.shiftl_lor, Z.shiftl_shiftl by lia.
    rewrite <- Z.lor_assoc. f_equal. f_equal. f_equal. lia.
Qed.

Lemma contentLength_value (cld : list Z) :
  Forall (fun b => 0 <= b < 256) cld ->
  contentLength 0 cld = le_value cld.
Proof.
  intros Hb. unfold contentLength, len.
  rewrite (contentLength_from cld (length cld) 0 0 Hb); [|lia|unfold len; lia].
  simpl. rewrite Z.shiftl_0_r. rewrite firstn_all. reflexivity.
Qed.

Lemma lengthBytes_value (n : nat) (l : Z) :
  0 <= l -> le_value (lengthBytes n l) = l mod 2 ^ (8 * Z.of_nat n).
Proof.
  revert l. induction n as [|n IH]; intros l Hl.
  - simpl. rewrite Z.mod_1_r. reflexivity.
  - cbn [lengthBytes le_value].
    rewrite IH by (apply Z.shiftr_nonneg; exact Hl).
    change 255 with (Z.ones 8). rewrite Z.land_ones by lia.
    rewrite uint8_small by (apply Z.mod_pos_bound; lia).
    rewrite Z.shiftr_div_pow2 by lia.
    replace (8 * Z.of_nat (S n)) with (8 + 8 * Z.of_nat n) by lia.
    rewrite Z.pow_add_r by lia.
    rewrite (Z.rem_mul_r l (2 ^ 8) (2 ^ (8 * Z.of_nat n))) by lia.
    change (2 ^ 8) with 256. lia.
Qed.

Lemma bytecount_bound (dlen : Z) :
  0 <= dlen < 2 ^ 32 -> dlen < 2 ^ (8 * bytecount dlen).
Proof.
  intros Hd. rewrite (bytecount_cases dlen Hd).
  destruct (dlen <? 2 ^ 8) eqn:E8; [lia|].
  destruct (dlen <? 2 ^ 16) eqn:E16; [lia|].
  destruct (dlen <? 2 ^ 24) eqn:E24; lia.
Qed.

(** The header that [headerBytes] returns for a length below [2^32] decodes,
    by the index byte and the length bytes, to its size and to the length. *)
Lemma header_decodes (rnd : Z -> Z) (dlen : Z) :
  Intn_spec rnd -> 0 <= dlen < 2 ^ 32 ->
  exists ib cld,
    headerBytes New rnd dlen = Ok (ib :: cld) /\
    len cld = bytecount dlen /\
    Forall (fun b => 0 <= b < 256) cld /\
    headerSize New ib = 1 + bytecount dlen /\
    contentLength 0 cld = dlen.
Proof.
  intros Hrnd Hd.
  destruct (headerBytes_New rnd dlen Hrnd Hd) as (ib & E & Hk & Hin).
  exists ib, (lengthBytes (Z.to_nat (bytecount dlen)) dlen).
  split; [exact E|].
  split; [unfold len; rewrite lengthBytes_length; lia|].
  split; [apply lengthBytes_bytes|].
  split.
  - rewrite (headerSize_class ib _ Hin). lia.
  - rewrite contentLength_value by apply lengthBytes_bytes.
    rewrite lengthBytes_value by lia.
    rewrite Z2Nat.id by lia. apply Z.mod_small.
    pose proof (bytecount_bound dlen Hd). lia.
Qed.

(** ** C5 *)

(** The lengths of the header self-description property, each with the
    number [k] of its length bytes. *)
Definition headerSamples : list (Z * Z) :=
  [(0, 1); (255, 1); (256, 2); (65535, 2); (65536, 3); (16777215, 3);
   (16777216, 4)].

(** C5: for each of the lengths 0, 255, 256, 65535, 65536, 16777215 and
    16777216 and for every index byte the random source may pick,
    [headerBytes] returns [1 + k] bytes with [k] = 1, 2, 2, 3, 3, 4, 4; the
    index byte announces that header size to [Reveal], and the [k] length
    bytes decode to exactly the length. *)
Theorem C5_header_self_description (rnd : Z -> Z) :
  Intn_spec rnd ->
  Forall (fun '(L, k) =>
            exists ib cld,
              headerBytes New rnd L = Ok (ib :: cld) /\
              len (ib :: cld) = 1 + k /\
              headerSize New ib = 1 + k /\
              contentLength 0 cld = L)
         headerSamples.
Proof.
  intros Hrnd.
  assert (Hgen : forall L k, 0 <= L < 2 ^ 32 -> bytecount L = k ->
            exists ib cld,
              headerBytes New rnd L = Ok (ib :: cld) /\
              len (ib :: cld) = 1 + k /\
              headerSize New ib = 1 + k /\
              contentLength 0 cld = L).
  { intros L k HL Hk.
    destruct (header_decodes rnd L Hrnd HL) as (ib & cld & E & Hlen & _ & Hsz & Hval).
    exists ib, cld. rewrite <- Hk. repeat split; try assumption.
    unfold len in *. simpl. lia. }
  unfold headerSamples.
  repeat (constructor; [apply Hgen; [lia | vm_compute; reflexivity]|]).
  constructor.
Qed.

Lemma C5_header_self_description_witness :
  Forall (fun '(L, k) =>
            exists ib cld,
              headerBytes New (fun _ => 0) L = Ok (ib :: cld) /\
              len (ib :: cld) = 1 + k /\
              headerSize New ib = 1 + k /\
              contentLength 0 cld = L)
         headerSamples.
Proof.
  apply (C5_header_self_description (fun _ => 0)).
  intros n Hn. lia.
Defined.

(** ** C8 *)

(** C8: at the length [2^32] the guard [dlen > max] does not fire and no case
    of the [switch] applies: [headerBytes] returns the five length bytes with
    no index byte and no error, where the claim has [ErrCapacityMax]; above
    [2^32] it returns [ErrCapacityMax]. *)
Theorem C8_headerBytes_at_2_32 (rnd : Z -> Z) :
  headerBytes New rnd 4294967296 = Ok [0; 0; 0; 0; 1] /\
  headerBytes New rnd 4294967297 = Err ErrCapacityMax.
Proof. split; vm_compute; reflexivity. Qed.

(** ** The loops of [Conceal] *)

(** Well-formed decoded images: the pixel list fills the rectangle, the
    size passed the decoder's overflow check, and the channel values are the
    16-bit values of [Color.RGBA()]. *)
Record wf_image (img : Image) : Prop := {
  wf_width : 0 <= width img;
  wf_height : 0 <= height img;
  wf_pix : len (pix img) = width img * height img;
  wf_size : width img * height img * 8 < 2 ^ 63;
  wf_chan : Forall (fun c => 0 <= cR c < 65536 /\ 0 <= cG c < 65536 /\
                             0 <= cB c < 65536 /\ 0 <= cA c < 65536) (pix img)
}.

Lemma bind_Ok {A B} (m : result A) (k : A -> result B) (b : B) :
  (m ≫= k) = Ok b -> exists a, m = Ok a /\ k a = Ok b.
Proof. destruct m as [a|e]; simpl; intros H; [eauto | discriminate]. Qed.

Lemma forM_seqZ_inv {S : Type} (P : Z -> S -> Prop) (E : error -> Prop)
    (body : S -> Z -> result S) (lo n : Z) (s : S) :
  0 <= n ->
  (forall i s, lo <= i < lo + n -> P i s ->
     match body s i with Ok s' => P (i + 1) s' | Err e => E e end) ->
  P lo s ->
  match forM body (seqZ lo n) s with
  | Ok s' => P (lo + n) s'
  | Err e => E e
  end.
Proof.
  intros Hn. remember (Z.to_nat n) as k eqn:Hk.
  revert lo n s Hn Hk. induction k as [|k IH]; intros lo n s Hn Hk Hbody HP.
  - assert (n = 0) by lia. subst n. simpl. rewrite Z.add_0_r. exact HP.
  - rewrite seqZ_cons by lia. cbn [forM].
    pose proof (Hbody lo s ltac:(lia) HP) as Hstep.
    destruct (body s lo) as [s'|e]; simpl; [|exact Hstep].
    replace (lo + n) with (Z.succ lo + Z.pred n) by lia.
    apply IH; try lia.
    + intros i s0 Hi. apply Hbody. lia.
    + replace (Z.succ lo) with (lo + 1) by lia. exact Hstep.
Qed.

Lemma int64_small (x : Z) : - 2 ^ 63 <= x < 2 ^ 63 -> int64 x = x.
Proof.
  intros H. unfold int64. rewrite Z.mod_small by lia. lia.
Qed.

Lemma CalculateCapacity_32 (w h : Z) :
  0 <= w -> 0 <= h -> w * h * 8 < 2 ^ 63 ->
  CalculateCapacity w h 3 2 = w * h * 3 / 4.
Proof.
  intros Hw Hh Hs. unfold CalculateCapacity.
  assert (0 <= w * h) by lia.
  rewrite (int64_small (w * h)) by lia.
  rewrite (int64_small (w * h * 3)) by lia.
  rewrite (int64_small (w * h * 3 * 2)) by lia.
  rewrite Z.quot_div_nonneg by lia.
  pose proof (Z.div_mod (w * h * 3 * 2) 8 ltac:(lia)).
  pose proof (Z.mod_pos_bound (w * h * 3 * 2) 8 ltac:(lia)).
  pose proof (Z.div_mod (w * h * 3) 4 ltac:(lia)).
  pose proof (Z.mod_pos_bound (w * h * 3) 4 ltac:(lia)).
  lia.
Qed.

(** The state of the output after the pixels below [n] (in raster order). *)
Definition concealed (hdata data : list Z) (step : Z) (img : Image) (n : Z)
    (out : NRGBAImage) : Prop :=
  nwidth out = width img /\ nheight out = height img /\
  len (npix out) = width img * height img /\
  forall x y, 0 <= x < width img -> 0 <= y < height img ->
    x + y * width img < n ->
    exists c, concealPixel hdata data step img x y = Ok c /\
              npix out !! Z.to_nat (x + y * width img) = Some c.

Lemma concealLoop_inv (hdata data : list Z) (step : Z) (img : Image) :
  0 <= width img -> 0 <= height img ->
  match concealLoop hdata data step img with
  | Ok out => concealed hdata data step img (width img * height img) out
  | Err e => exists x y, 0 <= x < width img /\ 0 <= y < height img /\
                         concealPixel hdata data step img x y = Err e
  end.
Proof.
  intros Hw Hh. unfold concealLoop.
  set (W := width img). set (H := height img).
  set (E := fun e => exists x y, 0 <= x < W /\ 0 <= y < H /\
                       concealPixel hdata data step img x y = Err e).
  pose proof (forM_seqZ_inv
    (fun y out => concealed hdata data step img (y * W) out) E
    (fun out y => forM (fun out x => c ← concealPixel hdata data step img x y;
                                     Ok (SetNRGBA out x y c)) (seqZ 0 W) out)
    0 H (NewNRGBA W H) Hh) as Hrows.
  cbv beta in Hrows.
  replace (0 + H) with H in Hrows by lia.
  replace (H * W) with (W * H) in Hrows by lia.
  apply Hrows; clear Hrows.
  - intros y out Hy Hout.
    pose proof (forM_seqZ_inv
      (fun x out => concealed hdata data step img (y * W + x) out) E
      (fun out x => c ← concealPixel hdata data step img x y;
                    Ok (SetNRGBA out x y c))
      0 W out Hw) as Hcols.
    cbv beta in Hcols.
    replace (y * W + (0 + W)) with ((y + 1) * W) in Hcols by lia.
    replace (y * W + (0 + W)) with ((y + 1) * W) in Hcols by lia.
    apply Hcols; clear Hcols.
    + intros x o Hx (Hdw & Hdh & Hlen & Hpx).
      destruct (concealPixel hdata data step img x y) as [c|e] eqn:Ec; simpl.
      2:{ exists x, y. repeat split; try lia. exact Ec. }
      unfold SetNRGBA. rewrite Hdw, Hdh. fold W H.
      replace ((0 <=? x) && (x <? W) && (0 <=? y) && (y <? H)) with true by lia.
      unfold concealed; simpl. fold W H.
      assert (Hidx : x + y * W < W * H) by nia.
      repeat split; try assumption.
      { unfold len in *. rewrite length_insert. exact Hlen. }
      intros x' y' Hx' Hy' Hlt.
      destruct (Z.eq_dec (x' + y' * W) (x + y * W)) as [Heq|Hne].
      * assert (y' = y) by nia. subst y'. assert (x' = x) by lia. subst x'.
        exists c. split; [exact Ec|].
        apply list_lookup_insert_eq. unfold len in Hlen. lia.
      * destruct (Hpx x' y' Hx' Hy' ltac:(lia)) as (c' & Hc' & Hl).
        exists c'. split; [exact Hc'|].
        rewrite list_lookup_insert_ne by lia. exact Hl.
    + replace (y * W + 0) with (y * W) by lia. exact Hout.
  - unfold concealed, NewNRGBA; simpl. fold W H.
    repeat split; try reflexivity.
    + unfold len. rewrite length_replicate. nia.
    + intros x y Hx Hy Hlt. nia.
Qed.

(** ** The cells of [Conceal] *)

(** [px[ci]] of the output, [ci] = 0, 1, 2. *)
Definition channel8 (c : NRGBA) (ci : Z) : Z :=
  if ci =? 0 then nR c else if ci =? 1 then nG c else nB c.

(** The channel [ci] of the source, as [RGBA()] returns it. *)
Definition channel16 (p : RGBA64) (ci : Z) : Z :=
  if ci =? 0 then cR p else if ci =? 1 then cG p else cB p.

(** The guard of [Conceal] on the available encoding byte [abi]. *)
Definition cellWritten (hlen dlen step abi : Z) : bool :=
  match indices (abi <? hlen * 4) hlen step abi with
  | Ok (dbi, sbi) => (sbi <? 8) && (dbi <? dlen)
  | Err _ => false
  end.

(** The normalized copy of the source. *)
Definition normalize (p : RGBA64) : NRGBA :=
  {| nR := uint8 (cR p / 256); nG := uint8 (cG p / 256);
     nB := uint8 (cB p / 256); nA := uint8 (cA p / 256) |}.

Definition normalizedImage (img : Image) : NRGBAImage :=
  {| nwidth := width img; nheight := height img;
     npix := normalize <$> pix img |}.

Lemma concealBit_high (hdata data : list Z) (abi dbi sbi v ebi v' : Z) :
  0 <= ebi < 2 ->
  concealBit hdata data abi dbi sbi v ebi = Ok v' ->
  Z.shiftr v' 2 = Z.shiftr v 2.
Proof.
  intros Hebi. unfold concealBit.
  destruct (if abi <? len hdata * 4 then index hdata dbi else index data dbi)
    as [src|e]; simpl; [|discriminate].
  intros Hv. injection Hv as <-.
  assert (Hm : Z.shiftr (uint8 (ebi + 1)) 2 = 0).
  { assert (ebi = 0 \/ ebi = 1) as [-> | ->] by lia; reflexivity. }
  destruct (Z.land src (uint8 (Z.shiftl 1 (sbi + ebi))) =? 0).
  - rewrite Z.shiftr_ldiff, Hm, Z.ldiff_0_r. reflexivity.
  - rewrite Z.shiftr_lor, Hm, Z.lor_0_r. reflexivity.
Qed.

Lemma concealCell_spec (hdata data : list Z) (step abi v v' : Z) :
  concealCell hdata data step abi v = Ok v' ->
  Z.shiftr v' 2 = Z.shiftr v 2 /\
  (cellWritten (len hdata) (len data) step abi = false -> v' = v).
Proof.
  unfold concealCell, cellWritten.
  destruct (indices (abi <? len hdata * 4) (len hdata) step abi)
    as [[dbi sbi]|e]; simpl; [|discriminate].
  destruct ((sbi <? 8) && (dbi <? len data)).
  - cbn [forM]. intros Hv.
    apply bind_Ok in Hv as (v1 & H1 & Hv).
    apply bind_Ok in Hv as (v2 & H2 & Hv). injection Hv as <-.
    apply concealBit_high in H1; [|lia]. apply concealBit_high in H2; [|lia].
    split; [congruence | discriminate].
  - intros Hv. injection Hv as <-. split; reflexivity.
Qed.

Lemma concealPixel_spec (hdata data : list Z) (step : Z) (img : Image)
    (x y : Z) (c : NRGBA) :
  concealPixel hdata data step img x y = Ok c ->
  nA c = uint8 (cA (At img x y) / 256) /\
  forall ci, 0 <= ci < 3 ->
    Z.shiftr (channel8 c ci) 2 = Z.shiftr (uint8 (channel16 (At img x y) ci / 256)) 2 /\
    (cellWritten (len hdata) (len data) step ((x + y * width img) * 3 + ci)
       = false ->
     channel8 c ci = uint8 (channel16 (At img x y) ci / 256)).
Proof.
  unfold concealPixel. intros Hc.
  apply bind_Ok in Hc as (r & Hr & Hc).
  apply bind_Ok in Hc as (g & Hg & Hc).
  apply bind_Ok in Hc as (b & Hb & Hc). injection Hc as <-.
  apply concealCell_spec in Hr, Hg, Hb.
  split; [reflexivity|].
  intros ci Hci. unfold channel8, channel16; simpl.
  assert (ci = 0 \/ ci = 1 \/ ci = 2) as [-> | [-> | ->]] by lia; simpl; assumption.
Qed.

(** ** The stride of an empty payload *)

Lemma float64_of_int_0 : float64_of_int 0 = S754_zero false.
Proof. reflexivity. Qed.

Lemma stride_zero_length (avail : Z) : stride avail 0 = int_indefinite.
Proof.
  unfold stride. rewrite float64_of_int_0.
  destruct (float64_of_int avail) as [s|s| |s m e]; reflexivity.
Qed.

Lemma At_lookup (img : Image) (x y : Z) :
  0 <= x + y * width img < len (pix img) ->
  pix img !! Z.to_nat (x + y * width img) = Some (At img x y).
Proof.
  intros Hi. unfold At.
  destruct (lookup_lt_is_Some_2 (pix img) (Z.to_nat (x + y * width img)))
    as [c Hc]; [unfold len in Hi; lia|].
  rewrite Hc. reflexivity.
Qed.

Lemma raster_index (W H j : Z) :
  0 <= j < W * H -> 0 <= W ->
  0 <= j mod W < W /\ 0 <= j / W < H /\ j mod W + j / W * W = j.
Proof.
  intros Hj HW.
  assert (0 < W) by (destruct (Z.eq_dec W 0) as [-> | ?]; lia).
  pose proof (Z.mod_pos_bound j W ltac:(lia)).
  pose proof (Z.div_mod j W ltac:(lia)).
  assert (0 <= j / W) by (apply Z.div_pos; lia).
  assert (j / W < H) by (apply Z.div_lt_upper_bound; nia).
  lia.
Qed.

(** ** The empty payload on any build *)

Lemma int_of_float64_amd64 (f : float64) :
  int_of_float64_on int_amd64 f = int_of_float64 f.
Proof. destruct f; reflexivity. Qed.

Lemma stride_amd64 (avail n : Z) : strideOn int_amd64 avail n = stride avail n.
Proof. unfold strideOn, stride. apply int_of_float64_amd64. Qed.

Lemma Conceal_amd64 (s : SteganoPNG) (rnd : Z -> Z) (data : list Z)
    (img : Image) :
  ConcealOn int_amd64 s rnd data img = Conceal s rnd data img.
Proof.
  unfold ConcealOn, Conceal.
  destruct (headerBytes s rnd (len data)) as [hdata|e]; [|reflexivity].
  cbn [mbind result_bind]. cbv zeta. rewrite stride_amd64. reflexivity.
Qed.

(** With an empty payload no available encoding byte passes the guard of
    the write, when the stride is positive or so far below zero that no
    quotient by it is negative. *)
Lemma concealCell_empty_on (hdata : list Z) (step cells abi v : Z) :
  0 <= abi < cells -> 0 < step \/ step <= - cells ->
  concealCell hdata [] step abi v = Ok v.
Proof.
  intros Habi Hstep. unfold concealCell, indices.
  destruct (abi <? len hdata * 4) eqn:Eh; cbn [mbind result_bind].
  - assert (Hq : 0 <= Z.quot abi 4) by (apply Z.quot_pos; lia).
    replace (Z.quot abi 4 <? len []) with false
      by (symmetry; apply Z.ltb_ge; exact Hq).
    rewrite andb_false_r. reflexivity.
  - apply Z.ltb_ge in Eh.
    assert (Hlen : 0 <= len hdata) by (unfold len; lia).
    replace (step =? 0) with false by lia. cbn [mbind result_bind].
    set (k := abi - len hdata * 4).
    assert (Hk : 0 <= k < cells) by (unfold k; lia).
    assert (Hq : 0 <= Z.quot k step).
    { destruct Hstep as [Hpos | Hneg].
      - apply Z.quot_pos; lia.
      - replace step with (- (- step)) by lia.
        rewrite Z.quot_opp_r by lia. rewrite Z.quot_small by lia. lia. }
    replace (Z.quot k step <? len []) with false
      by (symmetry; apply Z.ltb_ge; exact Hq).
    rewrite andb_false_r. reflexivity.
Qed.

(** With an empty payload [Conceal] hands the normalized copy of the source
    to the encoder, when the stride of the build is positive or at most
    minus the number of available encoding bytes. *)
Lemma ConcealOn_empty (conv : float64 -> Z) (rnd : Z -> Z)
    (img : Image) :
  wf_image img -> Intn_spec rnd ->
  2 <= CalculateCapacity (width img) (height img) 3 2 ->
  let step :=
    strideOn conv (CalculateCapacity (width img) (height img) 3 2 - 2) 0 in
  0 < step \/ step <= - (width img * height img * 3) ->
  ConcealOn conv New rnd [] img = Ok (normalizedImage img).
Proof.
  intros Hwf Hrnd Hcap step Hstep. destruct Hwf as [Hw Hh Hpix Hsize Hchan].
  unfold ConcealOn. change (len (@nil Z)) with 0.
  destruct (headerBytes_New rnd 0 Hrnd ltac:(lia)) as (ib & Eh & _ & _).
  rewrite Eh. change (bytecount 0) with 1. simpl lengthBytes. simpl mbind.
  change (len [ib; uint8 (Z.land 0 255)]) with 2.
  replace (CalculateCapacity (width img) (height img) 3 2 - 2 <? 0)
    with false by lia.
  fold step.
  set (hdata := [ib; uint8 (Z.land 0 255)]).
  assert (Hpx : forall x y, 0 <= x < width img -> 0 <= y < height img ->
            concealPixel hdata [] step img x y
            = Ok (normalize (At img x y))).
  { intros x y Hx Hy. unfold concealPixel.
    assert (0 <= x + y * width img < width img * height img) by nia.
    rewrite !(concealCell_empty_on hdata step (width img * height img * 3))
      by (try exact Hstep; lia).
    reflexivity. }
  pose proof (concealLoop_inv hdata [] step img Hw Hh) as Hinv.
  destruct (concealLoop hdata [] step img) as [out|e].
  2:{ destruct Hinv as (x & y & Hx & Hy & Herr).
      rewrite Hpx in Herr by assumption. discriminate. }
  destruct Hinv as (Hdw & Hdh & Hlen & Hall).
  destruct out as [ow oh opix]; simpl in *. subst ow oh.
  unfold normalizedImage. f_equal. f_equal.
  apply list_eq. intros j. rewrite list_lookup_fmap.
  destruct (decide (j < length opix)%nat) as [Hj|Hj].
  - unfold len in *.
    destruct (raster_index (width img) (height img) (Z.of_nat j))
      as (Hx & Hy & Hxy); [lia|lia|].
    destruct (Hall _ _ Hx Hy ltac:(lia)) as (c & Hc & Hl).
    rewrite Hpx in Hc by assumption. injection Hc as <-.
    rewrite Hxy, Nat2Z.id in Hl. rewrite Hl.
    pose proof (At_lookup img _ _ ltac:(unfold len; rewrite Hxy; lia)) as Hat.
    rewrite Hxy, Nat2Z.id in Hat. rewrite Hat. reflexivity.
  - unfold len in *.
    rewrite (lookup_ge_None_2 opix) by lia.
    rewrite (lookup_ge_None_2 (pix img)) by lia. reflexivity.
Qed.

(** ** C10, amended *)

(** C10, amended: on a carrier whose capacity is at least the two bytes of
    the header, [Conceal] of the empty payload returns no error and hands to
    the encoder the normalized copy of the source, no bit of any available
    encoding byte written, the header's neither, on a build whose conversion
    of the stride [int(float64(cap-2) / float64(0) * 4)], the conversion of
    an infinity or of a NaN that the language leaves to the implementation,
    gives a value that is positive or at most minus the number of available
    encoding bytes; amd64 is such a build, on every such carrier. *)
Theorem C10_empty_payload (conv : float64 -> Z) (rnd : Z -> Z)
    (img : Image) :
  wf_image img -> Intn_spec rnd ->
  2 <= CalculateCapacity (width img) (height img) 3 2 ->
  let step :=
    strideOn conv (CalculateCapacity (width img) (height img) 3 2 - 2) 0 in
  (0 < step \/ step <= - (width img * height img * 3) ->
   ConcealOn conv New rnd [] img = Ok (normalizedImage img)) /\
  Conceal New rnd [] img = Ok (normalizedImage img).
Proof.
  intros Hwf Hrnd Hcap step. split.
  - intros Hstep. apply ConcealOn_empty; assumption.
  - rewrite <- Conceal_amd64.
    apply ConcealOn_empty; try assumption.
    cbv zeta. rewrite stride_amd64, stride_zero_length. right.
    destruct Hwf as [Hw Hh _ Hsize _]. unfold int_indefinite. lia.
Qed.

Lemma C10_empty_payload_witness :
  ConcealOn int_arm64 New (fun _ => 0) []
    (uniform 2 2 {| cR := 33153; cG := 514; cB := 65535; cA := 65535 |})
  = Ok (normalizedImage
          (uniform 2 2 {| cR := 33153; cG := 514; cB := 65535; cA := 65535 |}))
  /\
  Conceal New (fun _ => 0) []
    (uniform 2 2 {| cR := 33153; cG := 514; cB := 65535; cA := 65535 |})
  = Ok (normalizedImage
          (uniform 2 2 {| cR := 33153; cG := 514; cB := 65535; cA := 65535 |})).
Proof.
  assert (Hwf : wf_image
            (uniform 2 2 {| cR := 33153; cG := 514; cB := 65535; cA := 65535 |})).
  { constructor; simpl; try lia; try reflexivity.
    repeat constructor; simpl; lia. }
  assert (Hrnd : Intn_spec (fun _ => 0)) by (intros n Hn; lia).
  assert (Hcap : 2 <= CalculateCapacity
            (width (uniform 2 2
               {| cR := 33153; cG := 514; cB := 65535; cA := 65535 |}))
            (height (uniform 2 2
               {| cR := 33153; cG := 514; cB := 65535; cA := 65535 |})) 3 2)
    by (vm_compute; discriminate).
  destruct (C10_empty_payload int_arm64 (fun _ => 0)
              (uniform 2 2 {| cR := 33153; cG := 514; cB := 65535; cA := 65535 |})
              Hwf Hrnd Hcap) as [Hany Hamd].
  split; [|exact Hamd].
  apply Hany. left. vm_compute. reflexivity.
Defined.

(** C10 as stated fails on a build that converts a NaN to 0, as arm64
    does: the carrier of 1 by 3 pixels has a capacity of exactly the two
    bytes of the header, the stride is [int(0/0 * 4)], and the division by
    it, at the first available encoding byte past the header, stops the
    call. *)
Lemma C10_empty_payload_nan_zero :
  2 <= CalculateCapacity 1 3 3 2 /\
  strideOn int_arm64 (CalculateCapacity 1 3 3 2 - 2) 0 = 0 /\
  ConcealOn int_arm64 New (fun _ => 0) []
    (uniform 1 3 {| cR := 33153; cG := 514; cB := 65535; cA := 65535 |})
  = Err (RuntimePanic DivideByZero).
Proof.
  split; [vm_compute; discriminate|].
  split; vm_compute; reflexivity.
Qed.

(** ** C7 *)

(** C7: the image that [Conceal] produces has the width and the height of
    the carrier; at every pixel the alpha is the source alpha divided by 256,
    each of R, G, B agrees with the source channel divided by 256 above the
    two least-significant bits, and a channel whose available encoding byte
    fails the guard of the write is exactly the source channel divided by
    256. *)
Theorem C7_pixel_fidelity (rnd : Z -> Z) (data hdata : list Z) (img : Image)
    (out : NRGBAImage) :
  wf_image img ->
  headerBytes New rnd (len data) = Ok hdata ->
  Conceal New rnd data img = Ok out ->
  let step := stride (CalculateCapacity (width img) (height img) 3 2
                      - len hdata) (len data) in
  nwidth out = width img /\ nheight out = height img /\
  len (npix out) = width img * height img /\
  forall x y, 0 <= x < width img -> 0 <= y < height img ->
    exists c, npix out !! Z.to_nat (x + y * width img) = Some c /\
      nA c = cA (At img x y) / 256 /\
      forall ci, 0 <= ci < 3 ->
        channel8 c ci / 4 = channel16 (At img x y) ci / 256 / 4 /\
        (cellWritten (len hdata) (len data) step
                     ((x + y * width img) * 3 + ci) = false ->
         channel8 c ci = channel16 (At img x y) ci / 256).
Proof.
  intros Hwf Hh Hc step. destruct Hwf as [Hw Hht Hpix Hsize Hchan].
  unfold Conceal in Hc. rewrite Hh in Hc. simpl in Hc.
  destruct (CalculateCapacity (width img) (height img) 3 2 - len hdata
            <? len data); [discriminate|].
  fold step in Hc.
  pose proof (concealLoop_inv hdata data step img Hw Hht) as Hinv.
  rewrite Hc in Hinv. destruct Hinv as (Hdw & Hdh & Hlen & Hall).
  repeat split; try assumption.
  intros x y Hx Hy.
  assert (Hidx : 0 <= x + y * width img < width img * height img) by nia.
  destruct (Hall x y Hx Hy ltac:(lia)) as (c & Hpx & Hl).
  exists c. split; [exact Hl|].
  apply concealPixel_spec in Hpx as [Ha Hch].
  pose proof (At_lookup img x y ltac:(lia)) as Hat.
  rewrite Forall_forall in Hchan.
  pose proof (Hchan _ (list_elem_of_lookup_2 _ _ _ Hat)) as (HR & HG & HB & HA).
  assert (Hn : forall v, 0 <= v < 65536 -> uint8 (v / 256) = v / 256).
  { intros v Hv. apply uint8_small.
    split; [apply Z.div_pos; lia | apply Z.div_lt_upper_bound; lia]. }
  split; [rewrite Ha; apply Hn; exact HA|].
  intros ci Hci. destruct (Hch ci Hci) as [Hhigh Hsame].
  assert (Hci16 : 0 <= channel16 (At img x y) ci < 65536).
  { unfold channel16. repeat case_match; assumption. }
  rewrite (Hn _ Hci16) in Hhigh, Hsame.
  split; [|exact Hsame].
  rewrite !Z.shiftr_div_pow2 in Hhigh by lia. exact Hhigh.
Qed.

Lemma C7_pixel_fidelity_witness :
  exists c,
    [{| nR := 253; nG := 252; nB := 252; nA := 255 |};
     {| nR := 252; nG := 255; nB := 255; nA := 255 |};
     {| nR := 255; nG := 255; nB := 253; nA := 255 |};
     {| nR := 252; nG := 252; nB := 253; nA := 255 |}] !! Z.to_nat (1 + 0 * 2)
    = Some c /\ nA c = 255.
Proof.
  pose (white := {| cR := 65535; cG := 65535; cB := 65535; cA := 65535 |}).
  assert (Hwf : wf_image (uniform 2 2 white)).
  { constructor; simpl; try lia; try reflexivity.
    repeat constructor; simpl; lia. }
  destruct (C7_pixel_fidelity (fun _ => 0) [65] [1; 65 - 64] (uniform 2 2 white)
              {| nwidth := 2; nheight := 2;
                 npix := [{| nR := 253; nG := 252; nB := 252; nA := 255 |};
                          {| nR := 252; nG := 255; nB := 255; nA := 255 |};
                          {| nR := 255; nG := 255; nB := 253; nA := 255 |};
                          {| nR := 252; nG := 252; nB := 253; nA := 255 |}] |}
              Hwf eq_refl eq_refl) as (_ & _ & _ & Hpx).
  destruct (Hpx 1 0 ltac:(simpl; lia) ltac:(simpl; lia)) as (c & Hl & Ha & _).
  exists c. split; [exact Hl | exact Ha].
Defined.

(** ** C3 *)

Lemma forM_err {A S : Type} (E : error -> Prop) (body : S -> A -> result S)
    (l : list A) (s : S) (e : error) :
  (forall s a e, body s a = Err e -> E e) ->
  forM body l s = Err e -> E e.
Proof.
  intros Hbody. revert s. induction l as [|a l IH]; intros s; simpl.
  - discriminate.
  - destruct (body s a) as [s'|e'] eqn:Eb; simpl.
    + apply IH.
    + intros H. injection H as <-. eapply Hbody. exact Eb.
Qed.

Definition isPanic (e : error) : Prop := exists p, e = RuntimePanic p.

Lemma index_err (l : list Z) (i : Z) (e : error) :
  index l i = Err e -> isPanic e.
Proof.
  unfold index. repeat case_match; intros Herr; try discriminate;
    injection Herr as <-; eexists; reflexivity.
Qed.

Lemma indices_err (b : bool) (hlen step abi : Z) (e : error) :
  indices b hlen step abi = Err e -> e = RuntimePanic DivideByZero.
Proof.
  unfold indices. repeat case_match; intros Herr; try discriminate.
  injection Herr as <-. reflexivity.
Qed.

Lemma concealCell_err (hdata data : list Z) (step abi v : Z) (e : error) :
  concealCell hdata data step abi v = Err e -> isPanic e.
Proof.
  unfold concealCell.
  destruct (indices (abi <? len hdata * 4) (len hdata) step abi)
    as [[dbi sbi]|e'] eqn:Ei; cbn [mbind result_bind].
  - destruct ((sbi <? 8) && (dbi <? len data)); [|discriminate].
    apply forM_err. intros s a e0. unfold concealBit.
    destruct (if abi <? len hdata * 4 then index hdata dbi else index data dbi)
      as [src|e1] eqn:Es; simpl; [discriminate|].
    intros H. injection H as <-.
    destruct (abi <? len hdata * 4); eapply index_err; exact Es.
  - intros H. injection H as <-. apply indices_err in Ei. subst e'.
    eexists; reflexivity.
Qed.

Lemma concealLoop_err (hdata data : list Z) (step : Z) (img : Image)
    (e : error) :
  concealLoop hdata data step img = Err e -> isPanic e.
Proof.
  unfold concealLoop. apply forM_err. intros out y e0.
  apply forM_err. intros out' x e1. unfold concealPixel.
  destruct (concealCell hdata data step ((x + y * width img) * 3 + 0)
              (uint8 (cR (At img x y) / 256))) as [r|er] eqn:Er; simpl.
  2:{ intros H. injection H as <-. eapply concealCell_err. exact Er. }
  destruct (concealCell hdata data step ((x + y * width img) * 3 + 1)
              (uint8 (cG (At img x y) / 256))) as [g|eg] eqn:Eg; simpl.
  2:{ intros H. injection H as <-. eapply concealCell_err. exact Eg. }
  destruct (concealCell hdata data step ((x + y * width img) * 3 + 2)
              (uint8 (cB (At img x y) / 256))) as [b|eb] eqn:Eb; simpl.
  2:{ intros H. injection H as <-. eapply concealCell_err. exact Eb. }
  discriminate.
Qed.

(** C3: with [hdata] the header that [headerBytes] produces for the length
    of the payload, [Conceal] fails with [ErrCapacityOverflow] exactly when
    the payload is longer than the capacity less the length of the header;
    the result is then the error, and no image is handed to the encoder. *)
Theorem C3_capacity_boundary (rnd : Z -> Z) (data hdata : list Z)
    (img : Image) :
  headerBytes New rnd (len data) = Ok hdata ->
  (Conceal New rnd data img = Err ErrCapacityOverflow <->
   len data > CalculateCapacity (width img) (height img) 3 2 - len hdata).
Proof.
  intros Hh. unfold Conceal. rewrite Hh. simpl.
  destruct (CalculateCapacity (width img) (height img) 3 2 - len hdata
            <? len data) eqn:Ecap.
  - split; [lia | reflexivity].
  - split; [|lia].
    intros Herr. apply concealLoop_err in Herr as [p Hp]. discriminate.
Qed.

Lemma C3_capacity_boundary_witness :
  Conceal New (fun _ => 0) [1; 2]
          (uniform 2 2 {| cR := 0; cG := 0; cB := 0; cA := 65535 |})
  = Err ErrCapacityOverflow <->
  len [1; 2] > CalculateCapacity 2 2 3 2 - len [1; 2].
Proof.
  apply (C3_capacity_boundary (fun _ => 0) [1; 2] [1; 2]
           (uniform 2 2 {| cR := 0; cG := 0; cB := 0; cA := 65535 |})).
  reflexivity.
Defined.

(** ** Evaluating the round trip *)

Global Instance panic_eq_dec : EqDecision panic.
Proof. solve_decision. Defined.
Global Instance error_eq_dec : EqDecision error.
Proof. solve_decision. Defined.
Global Instance result_eq_dec {A : Type} `{EqDecision A} : EqDecision (result A).
Proof. solve_decision. Defined.

Definition isOk {A : Type} (r : result A) : bool :=
  match r with Ok _ => true | Err _ => false end.

Definition white : RGBA64 := {| cR := 65535; cG := 65535; cB := 65535; cA := 65535 |}.
Definition black : RGBA64 := {| cR := 0; cG := 0; cB := 0; cA := 65535 |}.
(** An opaque grey of the 8-bit intensity [k]. *)
Definition grey (k : Z) : RGBA64 :=
  {| cR := k * 257; cG := k * 257; cB := k * 257; cA := 65535 |}.

(** [Conceal] once the header is known. *)
Definition ConcealWith (hdata data : list Z) (img : Image) : result NRGBAImage :=
  let cap := CalculateCapacity (width img) (height img) 3 2 in
  if cap - len hdata <? len data then Err ErrCapacityOverflow
  else concealLoop hdata data (stride (cap - len hdata) (len data)) img.

Lemma Conceal_header (rnd : Z -> Z) (data hdata : list Z) (img : Image) :
  headerBytes New rnd (len data) = Ok hdata ->
  Conceal New rnd data img = ConcealWith hdata data img.
Proof. intros Hh. unfold Conceal, ConcealWith. rewrite Hh. reflexivity. Qed.

Lemma headerBytes_one_byte (rnd : Z -> Z) (dlen : Z) :
  Intn_spec rnd -> 0 <= dlen < 256 ->
  exists ib, ib ∈ class New 0 /\ headerBytes New rnd dlen = Ok [ib; dlen].
Proof.
  intros Hrnd Hd.
  destruct (headerBytes_New rnd dlen Hrnd ltac:(lia)) as (ib & Eh & _ & Hin).
  rewrite (bytecount_cases dlen ltac:(lia)) in Eh, Hin.
  replace (dlen <? 2 ^ 8) with true in * by lia.
  exists ib. split; [exact Hin|]. rewrite Eh. simpl.
  change 255 with (Z.ones 8). rewrite Z.land_ones by lia.
  rewrite Z.mod_small by lia. rewrite uint8_small by lia. reflexivity.
Qed.

(** ** C2 *)

(** C2: on the opaque white carrier of 2 by 2 pixels, for every index byte
    the random source may pick, [Conceal] of the payload [[65]] succeeds,
    but the length byte of the header is not written (the guard
    [dbi < len(data)] is applied to the header bytes too), so [Reveal] reads
    the length 255 from the carrier, computes the stride 0 and stops with an
    integer division by zero, where the claim has the byte 65 returned. *)
Theorem C2_minimum_carrier (rnd : Z -> Z) :
  Intn_spec rnd ->
  isOk (Conceal New rnd [65] (uniform 2 2 white)) = true /\
  roundTrip New rnd [65] (uniform 2 2 white) = Err (RuntimePanic DivideByZero).
Proof.
  intros Hrnd.
  destruct (headerBytes_one_byte rnd 1 Hrnd ltac:(lia)) as (ib & Hin & Eh).
  unfold roundTrip. rewrite (Conceal_header rnd [65] [ib; 1] _ Eh).
  assert (Hall : Forall (fun ib =>
            isOk (ConcealWith [ib; 1] [65] (uniform 2 2 white)) = true /\
            (out ← ConcealWith [ib; 1] [65] (uniform 2 2 white);
             Reveal New (decodeSteganogram out))
            = Err (RuntimePanic DivideByZero)) (class New 0)).
  { refine (bool_decide_unpack _ _). vm_compute. reflexivity. }
  rewrite Forall_forall in Hall. exact (Hall ib Hin).
Qed.

Lemma C2_minimum_carrier_witness :
  isOk (Conceal New (fun _ => 0) [65] (uniform 2 2 white)) = true /\
  roundTrip New (fun _ => 0) [65] (uniform 2 2 white)
  = Err (RuntimePanic DivideByZero).
Proof.
  apply (C2_minimum_carrier (fun _ => 0)).
  intros n Hn. lia.
Defined.

(** ** C1 *)

(** C1: on the opaque black carrier of 3 by 3 pixels, for every index byte
    the random source may pick, [Conceal] of the one-byte payload [[200]]
    succeeds (1 <= 6 - 2), and [Reveal] of the steganogram returns the empty
    payload: the length byte of the header was not written, and the carrier
    has the length 0 in its place. *)
Theorem C1_round_trip_one_byte (rnd : Z -> Z) :
  Intn_spec rnd ->
  isOk (Conceal New rnd [200] (uniform 3 3 black)) = true /\
  roundTrip New rnd [200] (uniform 3 3 black) = Ok [].
Proof.
  intros Hrnd.
  destruct (headerBytes_one_byte rnd 1 Hrnd ltac:(lia)) as (ib & Hin & Eh).
  unfold roundTrip. rewrite (Conceal_header rnd [200] [ib; 1] _ Eh).
  assert (Hall : Forall (fun ib =>
            isOk (ConcealWith [ib; 1] [200] (uniform 3 3 black)) = true /\
            (out ← ConcealWith [ib; 1] [200] (uniform 3 3 black);
             Reveal New (decodeSteganogram out)) = Ok []) (class New 0)).
  { refine (bool_decide_unpack _ _). vm_compute. reflexivity. }
  rewrite Forall_forall in Hall. exact (Hall ib Hin).
Qed.

Lemma C1_round_trip_one_byte_witness :
  isOk (Conceal New (fun _ => 0) [200] (uniform 3 3 black)) = true /\
  roundTrip New (fun _ => 0) [200] (uniform 3 3 black) = Ok [].
Proof.
  apply (C1_round_trip_one_byte (fun _ => 0)).
  intros n Hn. lia.
Defined.

(** ** C4: the claim fails *)

(** C4, as stated, fails: the black carrier of 2 by 2 pixels decodes to the
    index byte 0 and [Reveal] returns the empty payload with no error; the
    grey carrier of 8 by 8 pixels decodes to the length 85 where 46 bytes
    are left, and [Reveal] returns 85 zero bytes with no error. *)
Lemma C4_malformed_not_rejected :
  (exists st, revealLoop New (uniform 2 2 black) = Ok st /\
              hdataR st = Some [0; 0]) /\
  Reveal New (uniform 2 2 black) = Ok [] /\
  (exists st, revealLoop New (uniform 8 8 (grey 1)) = Ok st /\
              hdataR st = Some [85; 85] /\ clenR st = 85 /\ stepR st = 2) /\
  Reveal New (uniform 8 8 (grey 1)) = Ok (replicate 85 0).
Proof.
  split.
  { exists {| dbyte := 0; hdataR := Some [0; 0]; dataR := Some [];
              stepR := int_indefinite; clenR := 0 |}.
    split; [vm_compute; reflexivity | reflexivity]. }
  split; [vm_compute; reflexivity|].
  split.
  { exists {| dbyte := 5; hdataR := Some [85; 85];
              dataR := Some (replicate 85 0); stepR := 2; clenR := 85 |}.
    split; [vm_compute; reflexivity|].
    split; [reflexivity|]. split; reflexivity. }
  vm_compute; reflexivity.
Qed.

(** ** The sign of the stride *)

(** A [float64] that is not negative (a NaN has no sign). *)
Definition nonneg_float (f : float64) : Prop :=
  match f with
  | S754_zero s | S754_infinity s | S754_finite s _ _ => s = false
  | S754_nan => True
  end.

Lemma binary_round_aux_nonneg (m e : Z) (l : location) :
  nonneg_float (binary_round_aux prec64 emax64 false m e l).
Proof.
  unfold binary_round_aux.
  destruct (shr_fexp prec64 emax64 m e l) as [mrs' e'].
  destruct (shr_fexp prec64 emax64 _ e' loc_Exact) as [mrs'' e''].
  destruct (shr_m mrs''); [reflexivity| |exact I].
  destruct (e'' <=? emax64 - prec64)%Z; reflexivity.
Qed.

Lemma float64_of_int_nonneg (n : Z) : 0 <= n -> nonneg_float (float64_of_int n).
Proof.
  intros Hn. unfold float64_of_int, binary_normalize.
  destruct n as [|p|p]; [reflexivity| |lia].
  unfold binary_round.
  destruct (shl_align p 0 _) as [mz ez]. apply binary_round_aux_nonneg.
Qed.

Lemma f64div_nonneg (x y : float64) :
  nonneg_float x -> nonneg_float y -> nonneg_float (f64div x y).
Proof.
  destruct x as [sx|sx| |sx mx ex], y as [sy|sy| |sy my ey]; simpl;
    intros Hx Hy; subst; try reflexivity; try exact I.
  unfold f64div, SFdiv.
  destruct (SFdiv_core_binary prec64 emax64 (Z.pos mx) ex (Z.pos my) ey)
    as [[mz ez] lz].
  apply binary_round_aux_nonneg.
Qed.

Lemma f64mul_nonneg (x y : float64) :
  nonneg_float x -> nonneg_float y -> nonneg_float (f64mul x y).
Proof.
  destruct x as [sx|sx| |sx mx ex], y as [sy|sy| |sy my ey]; simpl;
    intros Hx Hy; subst; try reflexivity; try exact I.
  apply binary_round_aux_nonneg.
Qed.

Lemma int_of_float64_nonneg (f : float64) :
  nonneg_float f -> 0 <= int_of_float64 f \/ int_of_float64 f = int_indefinite.
Proof.
  destruct f as [s|s| |s m e]; simpl; intros Hs; try (right; reflexivity).
  - left. lia.
  - subst s. cbn [cond_Zopp].
    set (v := if 0 <=? e then Z.pos m * 2 ^ e else Z.pos m / 2 ^ (- e)).
    assert (Hv : 0 <= v).
    { unfold v. destruct (0 <=? e) eqn:Ee.
      - pose proof (Z.pow_nonneg 2 e). lia.
      - apply Z.div_pos; [lia|]. apply Z.pow_pos_nonneg; lia. }
    destruct ((- 2 ^ 63 <=? v) && (v <? 2 ^ 63)); [left; exact Hv | right; reflexivity].
Qed.

(** For a capacity and a length that are not negative, the stride is not
    negative, unless the conversion to [int] is out of range. *)
Lemma stride_sign (avail n : Z) :
  0 <= avail -> 0 <= n ->
  0 <= stride avail n \/ stride avail n = int_indefinite.
Proof.
  intros Ha Hn. unfold stride. apply int_of_float64_nonneg.
  apply f64mul_nonneg; [apply f64div_nonneg|]; apply float64_of_int_nonneg; lia.
Qed.

(** ** The loops of [Reveal] *)

(** What holds of the variables of [Reveal] before the available encoding
    byte [n]: no header yet in the first four bytes; then a header of two to
    five bytes that is being filled; then, past the header, a content buffer
    of the decoded length and a stride that is not negative unless it is the
    out-of-range value. *)
Definition revealInv (n : Z) (st : rstate) : Prop :=
  0 <= clenR st /\
  match hdataR st, dataR st with
  | None, None => n <= 3
  | Some h, None => 2 <= len h <= 5 /\ 4 <= n < 4 * len h
  | Some h, Some d =>
      2 <= len h <= 5 /\ 4 * len h <= n /\ len d = clenR st /\
      (0 <= stepR st \/ stepR st = int_indefinite)
  | None, Some _ => False
  end.

Lemma headerSize_range (b : Z) : 2 <= headerSize New b <= 5.
Proof.
  unfold headerSize. pose proof (hmap_get_New_range b).
  rewrite uint8_small by lia. lia.
Qed.

Lemma lengthBit_nonneg (cld : list Z) (i clen ii : Z) :
  0 <= clen -> 0 <= lengthBit cld i clen ii.
Proof.
  intros Hc. unfold lengthBit. apply Z.lor_nonneg. split; [exact Hc|].
  apply Z.shiftl_nonneg. apply Z.land_nonneg. right. apply uint8_range.
Qed.

Lemma foldl_nonneg {A : Type} (f : Z -> A -> Z) (l : list A) (z : Z) :
  (forall z a, 0 <= z -> 0 <= f z a) -> 0 <= z -> 0 <= foldl f z l.
Proof.
  intros Hf. revert z. induction l as [|a l IH]; intros z Hz; simpl.
  - exact Hz.
  - apply IH, Hf, Hz.
Qed.

Lemma contentLength_nonneg (clen : Z) (cld : list Z) :
  0 <= clen -> 0 <= contentLength clen cld.
Proof.
  intros Hc. unfold contentLength. apply foldl_nonneg; [|exact Hc].
  intros z i Hz. unfold lengthByte. apply foldl_nonneg; [|exact Hz].
  intros z' ii Hz'. apply lengthBit_nonneg. exact Hz'.
Qed.

Lemma store_Ok (l : list Z) (i v : Z) :
  0 <= i < len l -> store l i v = Ok (<[Z.to_nat i := v]> l).
Proof.
  intros Hi. unfold store.
  replace ((0 <=? i) && (i <? len l)) with true by lia. reflexivity.
Qed.

Lemma len_insert (l : list Z) (i : nat) (v : Z) : len (<[i := v]> l) = len l.
Proof. unfold len. rewrite length_insert. reflexivity. Qed.

Lemma len_replicate (n : Z) (v : Z) : 0 <= n -> len (replicate (Z.to_nat n) v) = n.
Proof. intros Hn. unfold len. rewrite length_replicate. lia. Qed.

(** The byte that completes in the header region. *)
Lemma completeByte_header_inv (cap T n : Z) (st : rstate) :
  0 <= n < T -> cap = T / 4 ->
  Z.rem n 4 = 3 ->
  revealInv n st -> dataR st = None ->
  exists st', completeByte New cap n (Z.quot n 4) st = Ok st' /\
              revealInv (n + 1) st'.
Proof.
  intros Hn Hcap Hrem [Hclen Hinv] Hdata.
  assert (Hq : Z.quot n 4 = n / 4) by (apply Z.quot_div_nonneg; lia).
  assert (Hr : n mod 4 = 3) by (rewrite <- Z.rem_mod_nonneg; lia).
  pose proof (Z.div_mod n 4 ltac:(lia)) as Hdm.
  unfold completeByte, inHeaderR. rewrite Hdata in Hinv |- *.
  destruct (hdataR st) as [h|] eqn:Eh.
  - destruct Hinv as (Hlen & Hn4).
    replace (n <? len h * 4) with true by lia.
    replace (Z.quot n 4 =? 0) with false by lia. unfold slice; cbn [from_option id].
    rewrite store_Ok by lia. cbn [mbind result_bind].
    rewrite len_insert.
    destruct (Z.quot n 4 =? len h - 1) eqn:Elast.
    + apply Z.eqb_eq in Elast. eexists. split; [reflexivity|].
      pose proof (contentLength_nonneg (clenR st)
                    (drop 1 (<[Z.to_nat (Z.quot n 4) := dbyte st]> h)) Hclen).
      unfold revealInv; cbn [hdataR dataR stepR clenR dbyte]. rewrite len_insert.
      rewrite len_replicate by assumption.
      repeat split; try lia.
      apply stride_sign; [|assumption].
      assert (len h * 4 <= T) by lia.
      assert (len h <= T / 4) by (apply Z.div_le_lower_bound; lia). lia.
    + apply Z.eqb_neq in Elast. eexists. split; [reflexivity|].
      unfold revealInv; cbn [hdataR dataR stepR clenR dbyte]. rewrite len_insert. repeat split; lia.
  - replace (Z.quot n 4 =? 0) with true by lia. unfold slice; cbn [from_option id].
    pose proof (headerSize_range (dbyte st)) as Hs.
    rewrite store_Ok by (rewrite len_replicate by lia; lia).
    cbn [mbind result_bind]. rewrite len_insert, len_replicate by lia.
    replace (Z.quot n 4 =? headerSize New (dbyte st) - 1) with false by lia.
    eexists. split; [reflexivity|].
    unfold revealInv; cbn [hdataR dataR stepR clenR dbyte]. rewrite len_insert, len_replicate by lia.
    repeat split; lia.
Qed.

(** A turn of the loop over [ebi] that does not complete a byte changes
    [dbyte] only. *)
Lemma revealBit_partial (cap abi dbi sbi v : Z) (st : rstate) (ebi : Z) :
  sbi + ebi <> 7 ->
  exists b, revealBit New cap abi dbi sbi v st ebi =
    Ok {| dbyte := b; hdataR := hdataR st; dataR := dataR st;
          stepR := stepR st; clenR := clenR st |}.
Proof.
  intros Hne. unfold revealBit.
  replace (sbi + ebi =? 7) with false by lia. eexists. reflexivity.
Qed.

Lemma revealInv_dbyte (n b : Z) (st : rstate) :
  revealInv n st ->
  revealInv n {| dbyte := b; hdataR := hdataR st; dataR := dataR st;
                 stepR := stepR st; clenR := clenR st |}.
Proof. intros H. exact H. Qed.

(** One available encoding byte of [Reveal] keeps [revealInv], or stops
    with the division by a stride of zero. *)
Lemma revealCell_inv (cap T n v : Z) (st : rstate) :
  0 <= n < T -> T < 2 ^ 63 -> cap = T / 4 ->
  revealInv n st ->
  match revealCell New cap st n v with
  | Ok st' => revealInv (n + 1) st'
  | Err e => e = RuntimePanic DivideByZero
  end.
Proof.
  intros Hn HT Hcap Hinv.
  pose proof (Z.div_mod n 4 ltac:(lia)) as Hdm.
  pose proof (Z.mod_pos_bound n 4 ltac:(lia)) as Hmod.
  assert (Hq : Z.quot n 4 = n / 4) by (apply Z.quot_div_nonneg; lia).
  assert (Hr : Z.rem n 4 = n mod 4) by (apply Z.rem_mod_nonneg; lia).
  destruct (dataR st) as [d|] eqn:Ed.
  - (* past the header *)
    destruct Hinv as [Hclen Hinv]. rewrite Ed in Hinv.
    destruct (hdataR st) as [h|] eqn:Eh; [|contradiction].
    destruct Hinv as (Hlen & Hpast & Hd & Hstep).
    unfold revealCell, inHeaderR, indices. rewrite Eh, Ed.
    replace (n <? len h * 4) with false by lia.
    destruct (stepR st =? 0) eqn:E0; cbn [mbind result_bind]; [reflexivity|].
    apply Z.eqb_neq in E0.
    unfold slice; cbn [from_option id].
    set (k := n - len h * 4).
    assert (Hk : 0 <= k < 2 ^ 63) by (unfold k; lia).
    assert (Hdbi : 0 <= Z.quot k (stepR st)).
    { destruct Hstep as [Hpos|Hind].
      - apply Z.quot_pos; lia.
      - rewrite Hind. unfold int_indefinite. rewrite Z.quot_opp_r by lia.
        rewrite Z.quot_small by lia. lia. }
    set (dbi := Z.quot k (stepR st)) in *.
    set (sbi := Z.rem k (stepR st) * 2).
    assert (Hinv0 : revealInv (n + 1) st).
    { split; [exact Hclen|]. rewrite Eh, Ed. repeat split; try lia; assumption. }
    destruct ((sbi <? 8) && (dbi <? len d)) eqn:Eg; [|exact Hinv0].
    cbn [forM].
    destruct (revealBit_partial cap n dbi sbi v st 0) as [b0 ->];
      [unfold sbi; lia|].
    cbn [mbind result_bind].
    set (st1 := {| dbyte := b0; hdataR := hdataR st; dataR := dataR st;
                   stepR := stepR st; clenR := clenR st |}).
    destruct (Z.eq_dec (sbi + 1) 7) as [H7|H7].
    + unfold revealBit. rewrite H7. cbn [Z.eqb Pos.eqb].
      unfold completeByte, inHeaderR. cbn [hdataR dataR stepR clenR dbyte st1].
      rewrite Eh, Ed. replace (n <? len h * 4) with false by lia.
      unfold slice; cbn [from_option id].
      rewrite store_Ok by lia. cbn [mbind result_bind].
      split; [exact Hclen|]. cbn [hdataR dataR stepR clenR].
      rewrite len_insert. repeat split; try lia; assumption.
    + destruct (revealBit_partial cap n dbi sbi v st1 1) as [b1 ->];
        [exact H7|].
      cbn [mbind result_bind]. exact Hinv0.
  - (* in the header *)
    assert (Hhdr : inHeaderR st n = true).
    { destruct Hinv as [_ Hinv]. rewrite Ed in Hinv. unfold inHeaderR.
      destruct (hdataR st) as [h|]; [|reflexivity]. lia. }
    unfold revealCell, indices. rewrite Hhdr, Ed. cbn [mbind result_bind].
    replace (Z.rem n 4 * 2 <? 8) with true by lia. cbn [andb forM].
    destruct (revealBit_partial cap n (Z.quot n 4) (Z.rem n 4 * 2) v st 0)
      as [b0 ->]; [lia|].
    cbn [mbind result_bind].
    set (st1 := {| dbyte := b0; hdataR := hdataR st; dataR := dataR st;
                   stepR := stepR st; clenR := clenR st |}).
    assert (Hinv1 : revealInv n st1) by exact Hinv.
    destruct (Z.eq_dec (Z.rem n 4) 3) as [H3|H3].
    + unfold revealBit. replace (Z.rem n 4 * 2 + 1 =? 7) with true by lia.
      match goal with |- context [completeByte New cap n (Z.quot n 4) ?s] =>
        destruct (completeByte_header_inv cap T n s Hn Hcap H3 Hinv1 Ed)
          as (st' & -> & Hinv') end.
      cbn [mbind result_bind]. exact Hinv'.
    + destruct (revealBit_partial cap n (Z.quot n 4) (Z.rem n 4 * 2) v st1 1)
        as [b1 ->]; [lia|].
      cbn [mbind result_bind].
      destruct Hinv as [Hclen Hinv]. split; [exact Hclen|].
      cbn [hdataR dataR stepR clenR st1]. rewrite Ed in Hinv |- *.
      destruct (hdataR st) as [h|]; lia.
Qed.

Lemma revealPixel_inv (cap T : Z) (img : Image) (x y pxi : Z) (st : rstate) :
  pxi = x + y * width img ->
  0 <= pxi -> pxi * 3 + 3 <= T -> T < 2 ^ 63 -> cap = T / 4 ->
  revealInv (pxi * 3) st ->
  match revealPixel New cap img x y st with
  | Ok st' => revealInv ((pxi + 1) * 3) st'
  | Err e => e = RuntimePanic DivideByZero
  end.
Proof.
  intros Hpxi H0 HT HT63 Hcap Hinv. unfold revealPixel. rewrite <- Hpxi.
  pose proof (revealCell_inv cap T (pxi * 3 + 0)
                (uint8 (cR (At img x y) / 256)) st
                ltac:(lia) HT63 Hcap) as H1.
  rewrite Z.add_0_r in H1 at 1. specialize (H1 Hinv).
  destruct (revealCell New cap st (pxi * 3 + 0) _) as [st1|e1];
    cbn [mbind result_bind]; [|exact H1].
  replace (pxi * 3 + 0 + 1) with (pxi * 3 + 1) in H1 by lia.
  pose proof (revealCell_inv cap T (pxi * 3 + 1)
                (uint8 (cG (At img x y) / 256)) st1
                ltac:(lia) HT63 Hcap H1) as H2.
  destruct (revealCell New cap st1 (pxi * 3 + 1) _) as [st2|e2];
    cbn [mbind result_bind]; [|exact H2].
  replace (pxi * 3 + 1 + 1) with (pxi * 3 + 2) in H2 by lia.
  pose proof (revealCell_inv cap T (pxi * 3 + 2)
                (uint8 (cB (At img x y) / 256)) st2
                ltac:(lia) HT63 Hcap H2) as H3.
  destruct (revealCell New cap st2 (pxi * 3 + 2) _) as [st3|e3]; [|exact H3].
  replace ((pxi + 1) * 3) with (pxi * 3 + 2 + 1) by lia. exact H3.
Qed.

(** The walk of [Reveal] over a decoded image ends with [revealInv] at the
    number of its available encoding bytes, or with the division by a
    stride of zero. *)
Lemma revealLoop_inv (img : Image) :
  0 <= width img -> 0 <= height img -> width img * height img * 8 < 2 ^ 63 ->
  match revealLoop New img with
  | Ok st => revealInv (width img * height img * 3) st
  | Err e => e = RuntimePanic DivideByZero
  end.
Proof.
  intros Hw Hh Hsize. unfold revealLoop.
  set (W := width img) in *. set (H := height img) in *.
  rewrite (CalculateCapacity_32 W H Hw Hh Hsize).
  set (cap := W * H * 3 / 4). set (T := W * H * 3).
  assert (HT : T < 2 ^ 63) by (unfold T; lia).
  set (E := fun e => e = RuntimePanic DivideByZero).
  pose proof (forM_seqZ_inv (fun y st => revealInv (y * W * 3) st) E
    (fun st y => forM (fun st x => revealPixel New cap img x y st) (seqZ 0 W) st)
    0 H rstate0 Hh) as Hrows.
  cbv beta in Hrows.
  replace ((0 + H) * W * 3) with (W * H * 3) in Hrows by lia.
  apply Hrows; clear Hrows.
  - intros y st Hy Hst.
    pose proof (forM_seqZ_inv (fun x st => revealInv ((y * W + x) * 3) st) E
      (fun st x => revealPixel New cap img x y st) 0 W st Hw) as Hcols.
    cbv beta in Hcols.
    replace ((y * W + (0 + W)) * 3) with ((y + 1) * W * 3) in Hcols by lia.
    apply Hcols; clear Hcols.
    + intros x s Hx Hs.
      replace ((y * W + (x + 1)) * 3) with ((y * W + x + 1) * 3) by lia.
      apply (revealPixel_inv cap T img x y (y * W + x) s);
        try assumption; try reflexivity.
      * unfold W. lia.
      * nia.
      * unfold T. nia.
    + replace ((y * W + 0) * 3) with (y * W * 3) by lia. exact Hst.
  - split; [simpl; lia|]. simpl. lia.
Qed.

(** ** binary64 arithmetic on the integers of the stride *)

Lemma digits2_pos_log2 (p : positive) :
  Z.pos (digits2_pos p) = Z.log2 (Z.pos p) + 1.
Proof.
  induction p as [p IH|p IH|]; cbn [digits2_pos]; [| |reflexivity].
  - rewrite Pos2Z.inj_succ, IH.
    change (Z.log2 (Z.pos p~1)) with (Z.pos (Pos.size p)).
    assert (Hs : Z.pos (Pos.size p) = Z.log2 (Z.pos p) + 1).
    { destruct p; simpl; try reflexivity; rewrite Pos2Z.inj_succ; reflexivity. }
    lia.
  - rewrite Pos2Z.inj_succ, IH.
    change (Z.log2 (Z.pos p~0)) with (Z.pos (Pos.size p)).
    assert (Hs : Z.pos (Pos.size p) = Z.log2 (Z.pos p) + 1).
    { destruct p; simpl; try reflexivity; rewrite Pos2Z.inj_succ; reflexivity. }
    lia.
Qed.

Lemma digits2_pos_bounds (p : positive) :
  2 ^ (Z.pos (digits2_pos p) - 1) <= Z.pos p < 2 ^ Z.pos (digits2_pos p).
Proof.
  rewrite digits2_pos_log2.
  pose proof (Z.log2_spec (Z.pos p) ltac:(lia)) as Hs.
  replace (Z.log2 (Z.pos p) + 1 - 1) with (Z.log2 (Z.pos p)) by lia.
  replace (Z.log2 (Z.pos p) + 1) with (Z.succ (Z.log2 (Z.pos p))) by lia.
  exact Hs.
Qed.

Lemma digits2_pos_unique (p : positive) (d : Z) :
  2 ^ (d - 1) <= Z.pos p < 2 ^ d -> Z.pos (digits2_pos p) = d.
Proof.
  intros [Hlo Hhi]. rewrite digits2_pos_log2.
  assert (0 < d).
  { destruct (Z.lt_ge_cases 0 d) as [?|Hd]; [assumption|].
    assert (2 ^ d <= 2 ^ 0) by (apply Z.pow_le_mono_r; lia). simpl in *. lia. }
  assert (Z.log2 (Z.pos p) < d) by (apply Z.log2_lt_pow2; lia).
  assert (d - 1 <= Z.log2 (Z.pos p)) by (apply Z.log2_le_pow2; lia).
  lia.
Qed.

Lemma pos_iter_xO (p n : positive) :
  Z.pos (Pos.iter xO p n) = Z.pos p * 2 ^ Z.pos n.
Proof.
  induction n as [|n IH] using Pos.peano_ind.
  - simpl. lia.
  - rewrite Pos.iter_succ, Pos2Z.inj_xO, IH, Pos2Z.inj_succ.
    rewrite Z.pow_succ_r by lia. lia.
Qed.

(** A mantissa of 53 bits with an exponent in range is not rounded. *)
Lemma binary_round_aux_exact (m : positive) (e : Z) :
  2 ^ 52 <= Z.pos m < 2 ^ 53 -> -1074 <= e <= 971 ->
  binary_round_aux prec64 emax64 false (Z.pos m) e loc_Exact
  = S754_finite false m e.
Proof.
  intros Hm He.
  assert (Hd : Z.pos (digits2_pos m) = 53) by (apply digits2_pos_unique; exact Hm).
  unfold binary_round_aux, shr_fexp, Zdigits2. rewrite Hd.
  assert (Hf : fexp prec64 emax64 (53 + e) - e = 0).
  { unfold fexp, emin, prec64, emax64. lia. }
  rewrite Hf. cbn [shr shr_record_of_loc loc_of_shr_record shr_m round_nearest_even].
  rewrite Hd, Hf. cbn [shr shr_m].
  replace (e <=? emax64 - prec64) with true by (unfold emax64, prec64; lia).
  reflexivity.
Qed.

(** [float64(a)] for [0 < a < 2^53] is exact: the mantissa is [a] shifted
    to 53 bits. *)
Lemma float64_of_int_exact (a : Z) :
  0 < a < 2 ^ 53 ->
  exists (m : positive) (d : Z),
    float64_of_int a = S754_finite false m (d - 53) /\
    2 ^ (d - 1) <= a < 2 ^ d /\ 1 <= d <= 53 /\
    Z.pos m = a * 2 ^ (53 - d).
Proof.
  intros Ha. destruct a as [|p|p]; try lia.
  set (d := Z.pos (digits2_pos p)).
  pose proof (digits2_pos_bounds p) as Hb. fold d in Hb.
  assert (Hd : 1 <= d <= 53).
  { split; [unfold d; lia|].
    destruct (Z.lt_ge_cases 53 d) as [Hgt|]; [|lia].
    assert (2 ^ 53 <= 2 ^ (d - 1)) by (apply Z.pow_le_mono_r; lia). lia. }
  unfold float64_of_int, binary_normalize, binary_round.
  rewrite Z.add_0_r. fold d.
  assert (Hf : fexp prec64 emax64 d = d - 53).
  { unfold fexp, emin, prec64, emax64. lia. }
  rewrite Hf. unfold shl_align. rewrite Z.sub_0_r.
  destruct (d - 53) as [|q|q] eqn:Edq; try lia.
  - exists p, d. rewrite Edq.
    rewrite binary_round_aux_exact by (replace d with 53 in Hb by lia; simpl in Hb |- *; lia).
    repeat split; try lia; replace (53 - d) with 0 by lia; lia.
  - assert (Hq : Z.pos q = 53 - d) by lia.
    assert (Hm : Z.pos (Pos.iter xO p q) = Z.pos p * 2 ^ (53 - d)).
    { rewrite pos_iter_xO, Hq. reflexivity. }
    assert (Hpow : 2 ^ 53 = 2 ^ d * 2 ^ (53 - d)).
    { rewrite <- Z.pow_add_r by lia. f_equal. lia. }
    assert (Hpow' : 2 ^ 52 = 2 ^ (d - 1) * 2 ^ (53 - d)).
    { rewrite <- Z.pow_add_r by lia. f_equal. lia. }
    assert (0 < 2 ^ (53 - d)) by (apply Z.pow_pos_nonneg; lia).
    exists (Pos.iter xO p q), d. rewrite <- Edq.
    rewrite binary_round_aux_exact; [| rewrite Hm; nia | lia].
    repeat split; try lia; exact Hm.
Qed.

(** The float of the rounded mantissa [R] of at most [2^53] with the
    exponent [E]: [2^53] itself is renormalized. *)
Definition finish64 (R E : Z) : float64 :=
  if R <? 2 ^ 53 then S754_finite false (Z.to_pos R) E
  else S754_finite false 4503599627370496 (E + 1).

Lemma round_nearest_even_cases (x : Z) (l : location) :
  round_nearest_even x l = x \/ round_nearest_even x l = x + 1.
Proof.
  destruct l as [|[| |]]; simpl; auto. destruct (Z.even x); auto.
Qed.

Lemma loc_of_shr_record_of_loc (m : Z) (l : location) :
  loc_of_shr_record (shr_record_of_loc m l) = l /\
  shr_m (shr_record_of_loc m l) = m.
Proof. destruct l as [|[| |]]; split; reflexivity. Qed.

Lemma finish64_spec (R E : Z) :
  2 ^ 52 <= R <= 2 ^ 53 -> -1074 <= E <= 970 ->
  (let '(mrs, e) := shr_fexp prec64 emax64 R E loc_Exact in
   match shr_m mrs with
   | 0 => S754_zero false
   | Z.pos m => if e <=? emax64 - prec64 then S754_finite false m e
                else S754_infinity false
   | Z.neg _ => S754_nan
   end) = finish64 R E.
Proof.
  intros HR HE. unfold finish64.
  destruct R as [|p|p]; try lia.
  destruct (Z.pos p <? 2 ^ 53) eqn:Elt.
  - assert (Hd : Z.pos (digits2_pos p) = 53) by (apply digits2_pos_unique; lia).
    unfold shr_fexp, Zdigits2. rewrite Hd.
    assert (Hf : fexp prec64 emax64 (53 + E) - E = 0).
    { unfold fexp, emin, prec64, emax64. lia. }
    rewrite Hf. cbn [shr shr_record_of_loc shr_m].
    replace (E <=? emax64 - prec64) with true by (unfold emax64, prec64; lia).
    reflexivity.
  - assert (Hp : p = 9007199254740992%positive) by lia. subst p.
    unfold shr_fexp, Zdigits2.
    change (Z.pos (digits2_pos 9007199254740992)) with 54.
    assert (Hf : fexp prec64 emax64 (54 + E) - E = 1).
    { unfold fexp, emin, prec64, emax64. lia. }
    rewrite Hf. cbn [shr shr_record_of_loc]. unfold SpecFloat.iter_pos. cbn [shr_m shr_1].
    replace (E + 1 <=? emax64 - prec64) with true by (unfold emax64, prec64; lia).
    reflexivity.
Qed.

(** Rounding a mantissa of 53 bits with a location. *)
Lemma binary_round_aux_53 (m : positive) (e : Z) (l : location) :
  2 ^ 52 <= Z.pos m < 2 ^ 53 -> -1074 <= e <= 970 ->
  binary_round_aux prec64 emax64 false (Z.pos m) e l
  = finish64 (round_nearest_even (Z.pos m) l) e.
Proof.
  intros Hm He.
  assert (Hd : Z.pos (digits2_pos m) = 53) by (apply digits2_pos_unique; exact Hm).
  unfold binary_round_aux. unfold shr_fexp at 1. unfold Zdigits2. rewrite Hd.
  assert (Hf : fexp prec64 emax64 (53 + e) - e = 0).
  { unfold fexp, emin, prec64, emax64. lia. }
  rewrite Hf. cbn [shr].
  destruct (loc_of_shr_record_of_loc (Z.pos m) l) as [-> ->].
  apply finish64_spec; [|exact He].
  destruct (round_nearest_even_cases (Z.pos m) l) as [-> | ->]; lia.
Qed.

Lemma shr_1_spec (m : positive) (l : location) :
  shr_m (shr_1 (shr_record_of_loc (Z.pos m) l)) = Z.pos m / 2 /\
  (loc_of_shr_record (shr_1 (shr_record_of_loc (Z.pos m) l)) = loc_Exact \/
   loc_of_shr_record (shr_1 (shr_record_of_loc (Z.pos m) l)) = loc_Inexact Lt \/
   Z.odd (Z.pos m) = true).
Proof.
  destruct m as [p|p|].
  - assert (H1 : Z.pos p~1 / 2 = Z.pos p).
    { rewrite Pos2Z.inj_xI. symmetry. apply Z.div_unique with 1; lia. }
    rewrite H1. split; [|right; right; reflexivity].
    destruct l as [|[| |]]; reflexivity.
  - assert (H0 : Z.pos p~0 / 2 = Z.pos p).
    { rewrite Pos2Z.inj_xO. symmetry. apply Z.div_unique with 0; lia. }
    rewrite H0. split.
    + destruct l as [|[| |]]; reflexivity.
    + destruct l as [|[| |]]; simpl; auto.
  - split; [destruct l as [|[| |]]; reflexivity | right; right; reflexivity].
Qed.

(** Rounding a mantissa of 54 bits with a location: one bit is shifted out
    first. *)
Lemma binary_round_aux_54 (m : positive) (e : Z) (l : location) :
  2 ^ 53 <= Z.pos m < 2 ^ 54 -> -1075 <= e <= 969 ->
  exists l',
    binary_round_aux prec64 emax64 false (Z.pos m) e l
    = finish64 (round_nearest_even (Z.pos m / 2) l') (e + 1) /\
    (l' = loc_Exact \/ l' = loc_Inexact Lt \/ Z.odd (Z.pos m) = true).
Proof.
  intros Hm He.
  assert (Hd : Z.pos (digits2_pos m) = 54) by (apply digits2_pos_unique; exact Hm).
  unfold binary_round_aux. unfold shr_fexp at 1. unfold Zdigits2. rewrite Hd.
  assert (Hf : fexp prec64 emax64 (54 + e) - e = 1).
  { unfold fexp, emin, prec64, emax64. lia. }
  rewrite Hf. cbn [shr]. unfold SpecFloat.iter_pos.
  destruct (shr_1_spec m l) as [Hsm Hloc].
  exists (loc_of_shr_record (shr_1 (shr_record_of_loc (Z.pos m) l))).
  split; [|exact Hloc]. rewrite Hsm.
  apply finish64_spec; [|lia].
  assert (2 ^ 52 <= Z.pos m / 2 < 2 ^ 53).
  { split; [apply Z.div_le_lower_bound; lia | apply Z.div_lt_upper_bound; lia]. }
  destruct (round_nearest_even_cases (Z.pos m / 2)
              (loc_of_shr_record (shr_1 (shr_record_of_loc (Z.pos m) l))))
    as [-> | ->]; lia.
Qed.

Lemma f64div_finite (m1 m2 : positive) (e1 e2 : Z) :
  2 ^ 52 <= Z.pos m1 < 2 ^ 53 -> 2 ^ 52 <= Z.pos m2 < 2 ^ 53 ->
  -52 <= e1 <= 0 -> -52 <= e2 <= 0 ->
  f64div (S754_finite false m1 e1) (S754_finite false m2 e2)
  = binary_round_aux prec64 emax64 false
      (Z.pos m1 * 2 ^ 53 / Z.pos m2) (e1 - e2 - 53)
      (new_location (Z.pos m2) (Z.pos m1 * 2 ^ 53 mod Z.pos m2)).
Proof.
  intros Hm1 Hm2 He1 He2.
  assert (Hd1 : Z.pos (digits2_pos m1) = 53) by (apply digits2_pos_unique; exact Hm1).
  assert (Hd2 : Z.pos (digits2_pos m2) = 53) by (apply digits2_pos_unique; exact Hm2).
  unfold f64div, SFdiv, SFdiv_core_binary, Zdigits2. rewrite Hd1, Hd2.
  assert (He : Z.min (fexp prec64 emax64 (53 + e1 - (53 + e2))) (e1 - e2)
               = e1 - e2 - 53).
  { unfold fexp, emin, prec64, emax64. lia. }
  rewrite He.
  replace (e1 - e2 - (e1 - e2 - 53)) with 53 by lia.
  rewrite Z.shiftl_mul_pow2 by lia.
  unfold Z.div, Z.modulo.
  destruct (Z.div_eucl (Z.pos m1 * 2 ^ 53) (Z.pos m2)) as [q r].
  reflexivity.
Qed.

Lemma float64_of_int_4 :
  float64_of_int 4 = S754_finite false 4503599627370496 (-50).
Proof. vm_compute. reflexivity. Qed.

Lemma shr_52 (m : positive) :
  SpecFloat.iter_pos shr_1 52
    (Build_shr_record (Z.pos (4503599627370496 * m)) false false)
  = Build_shr_record (Z.pos m) false false.
Proof. reflexivity. Qed.

(** Multiplying a normal number by 4 adds 2 to the exponent. *)
Lemma f64mul_4 (m : positive) (e : Z) :
  2 ^ 52 <= Z.pos m < 2 ^ 53 -> -1000 <= e <= 900 ->
  f64mul (S754_finite false m e) (float64_of_int 4)
  = S754_finite false m (e + 2).
Proof.
  intros Hm He. rewrite float64_of_int_4. unfold f64mul, SFmul.
  cbn [xorb]. rewrite (Pos.mul_comm m).
  assert (Hd : Z.pos (digits2_pos (4503599627370496 * m)) = 105).
  { apply digits2_pos_unique. rewrite Pos2Z.inj_mul.
    change (Z.pos 4503599627370496) with (2 ^ 52).
    change (2 ^ (105 - 1)) with (2 ^ 52 * 2 ^ 52).
    change (2 ^ 105) with (2 ^ 52 * 2 ^ 53). lia. }
  unfold binary_round_aux. unfold shr_fexp at 1. unfold Zdigits2. rewrite Hd.
  assert (Hf : fexp prec64 emax64 (105 + (e + -50)) - (e + -50) = 52).
  { unfold fexp, emin, prec64, emax64. lia. }
  rewrite Hf. cbn [shr shr_record_of_loc]. rewrite shr_52.
  cbn [shr_m loc_of_shr_record round_nearest_even].
  replace (e + -50 + 52) with (e + 2) by lia.
  rewrite finish64_spec by lia. unfold finish64.
  replace (Z.pos m <? 2 ^ 53) with true by lia. reflexivity.
Qed.

(** The integer that the rounded quotient, times 4, converts to. *)
Lemma int_of_finish64_mul_4 (R E : Z) :
  2 ^ 52 <= R <= 2 ^ 53 -> -200 <= E -> E + 2 <= 0 ->
  int_of_float64 (f64mul (finish64 R E) (float64_of_int 4))
  = R / 2 ^ (- (E + 2)).
Proof.
  intros HR HE1 HE2. unfold finish64.
  assert (Hk : 0 < 2 ^ (- (E + 2))) by (apply Z.pow_pos_nonneg; lia).
  destruct (R <? 2 ^ 53) eqn:Elt.
  - destruct R as [|p|p]; try lia. cbn [Z.to_pos].
    rewrite f64mul_4 by lia. cbn [int_of_float64 cond_Zopp].
    assert (Hle : Z.pos p / 2 ^ (- (E + 2)) <= Z.pos p)
      by (apply Z.div_le_upper_bound; nia).
    assert (0 <= Z.pos p / 2 ^ (- (E + 2))) by (apply Z.div_pos; lia).
    destruct (0 <=? E + 2) eqn:E0.
    + assert (E + 2 = 0) by lia.
      replace (E + 2) with 0 in * by lia. simpl (2 ^ 0). simpl (- 0).
      simpl (2 ^ 0) in *. rewrite Z.div_1_r, Z.mul_1_r.
      replace ((- 2 ^ 63 <=? Z.pos p) && (Z.pos p <? 2 ^ 63)) with true by lia.
      reflexivity.
    + replace ((- 2 ^ 63 <=? Z.pos p / 2 ^ (- (E + 2))) &&
               (Z.pos p / 2 ^ (- (E + 2)) <? 2 ^ 63)) with true by lia.
      reflexivity.
  - assert (HR53 : R = 2 ^ 53) by lia. subst R.
    rewrite f64mul_4 by (simpl; lia). cbn [int_of_float64 cond_Zopp].
    change (Z.pos 4503599627370496) with (2 ^ 52).
    replace (E + 1 + 2) with (E + 3) by lia.
    destruct (Z.eq_dec E (-2)) as [->|HneE].
    { vm_compute. reflexivity. }
    destruct (Z.eq_dec E (-3)) as [->|HneE3].
    { vm_compute. reflexivity. }
    replace (0 <=? E + 3) with false by lia.
    assert (Hk3 : 0 < 2 ^ (- (E + 3))) by (apply Z.pow_pos_nonneg; lia).
    assert (Hpow : 2 ^ (- (E + 2)) = 2 * 2 ^ (- (E + 3))).
    { replace (- (E + 2)) with (Z.succ (- (E + 3))) by lia.
      rewrite Z.pow_succ_r by lia. reflexivity. }
    rewrite Hpow. change (2 ^ 53) with (2 * 2 ^ 52).
    rewrite Z.div_mul_cancel_l by lia.
    assert (2 ^ 52 / 2 ^ (- (E + 3)) <= 2 ^ 52)
      by (apply Z.div_le_upper_bound; nia).
    assert (0 <= 2 ^ 52 / 2 ^ (- (E + 3))) by (apply Z.div_pos; lia).
    replace ((- 2 ^ 63 <=? 2 ^ 52 / 2 ^ (- (E + 3))) &&
             (2 ^ 52 / 2 ^ (- (E + 3)) <? 2 ^ 63)) with true by lia.
    reflexivity.
Qed.

(** The arithmetic of the quotient: with [m1 = a * 2^(53-d1)] and
    [m2 = n * 2^(53-d2)], the quotient [q] of [m1 * 2^53] by [m2], cut by
    [k0 = 51 - d1 + d2] bits, is the quotient of [4 * a] by [n], and [q + 1]
    is cut to the same. *)
Lemma quotient_cut (a n d1 d2 m1 m2 : Z) :
  1 <= a -> 1 <= n -> 1 <= d1 <= 51 -> 1 <= d2 <= 53 ->
  n < 2 ^ d2 ->
  m1 = a * 2 ^ (53 - d1) -> m2 = n * 2 ^ (53 - d2) ->
  let q := m1 * 2 ^ 53 / m2 in
  let K := 2 ^ (51 - d1 + d2) in
  q / K = 4 * a / n /\ (q + 1) / K = q / K.
Proof.
  intros Ha Hn Hd1 Hd2 Hnd Hm1 Hm2 q K.
  set (N2 := 2 ^ (53 - d2)) in *.
  assert (HN2 : 0 < N2) by (apply Z.pow_pos_nonneg; lia).
  assert (HK : 0 < K) by (apply Z.pow_pos_nonneg; lia).
  assert (Hm2pos : 0 < m2) by nia.
  assert (Hnum : m1 * 2 ^ 53 = 4 * a * (N2 * K)).
  { subst m1. unfold N2, K.
    rewrite <- !Z.mul_assoc. rewrite <- !Z.pow_add_r by lia.
    replace (53 - d1 + 53) with (2 + (53 - d2 + (51 - d1 + d2))) by lia.
    rewrite (Z.pow_add_r 2 2) by lia. change (2 ^ 2) with 4. lia. }
  assert (Hden : m2 * K = n * (N2 * K)) by (subst m2; lia).
  assert (Hq1 : q / K = 4 * a / n).
  { unfold q. rewrite Z.div_div by lia. rewrite Hnum, Hden.
    apply Z.div_mul_cancel_r; nia. }
  split; [exact Hq1|].
  (* q + 1 is not a multiple of K *)
  pose proof (Z.div_mod (m1 * 2 ^ 53) m2 ltac:(lia)) as Hdm.
  pose proof (Z.mod_pos_bound (m1 * 2 ^ 53) m2 Hm2pos) as Hr.
  fold q in Hdm. set (r := (m1 * 2 ^ 53) mod m2) in *.
  pose proof (Z.div_mod q K ltac:(lia)) as Hqk.
  pose proof (Z.mod_pos_bound q K HK) as Hv.
  set (u := q / K) in *. set (v := q mod K) in *.
  destruct (Z.eq_dec v (K - 1)) as [Hlast|Hnot].
  - exfalso.
    (* q + 1 = K * (u + 1) *)
    assert (Hc : (q + 1) * m2 = 4 * a * (N2 * K) + (m2 - r)) by lia.
    assert (Hc' : (N2 * K) * ((u + 1) * n - 4 * a) = m2 - r).
    { replace (q + 1) with (K * (u + 1)) in Hc by lia. subst m2. lia. }
    assert (Hpos : 1 <= (u + 1) * n - 4 * a) by nia.
    assert (HKn : N2 * K <= n * N2) by nia.
    assert (K <= n) by nia.
    assert (2 ^ d2 <= K) by (unfold K; apply Z.pow_le_mono_r; lia).
    lia.
  - symmetry. apply Z.div_unique with (v + 1); lia.
Qed.

(** The stride is the exact quotient, rounded down, when the capacity is
    below [2^51] and the length below [2^53]. *)
Lemma stride_exact (avail n : Z) :
  0 <= avail < 2 ^ 51 -> 1 <= n < 2 ^ 53 ->
  stride avail n = 4 * avail / n.
Proof.
  intros Ha Hn. unfold stride.
  destruct (float64_of_int_exact n ltac:(lia))
    as (m2 & d2 & -> & Hn2 & Hd2 & Hm2).
  destruct (Z.eq_dec avail 0) as [->|Hne].
  { rewrite float64_of_int_4. reflexivity. }
  destruct (float64_of_int_exact avail ltac:(lia))
    as (m1 & d1 & -> & Ha1 & Hd1 & Hm1).
  assert (Hd1' : d1 <= 51).
  { destruct (Z.lt_ge_cases 51 d1) as [Hgt|]; [|lia].
    assert (2 ^ 51 <= 2 ^ (d1 - 1)) by (apply Z.pow_le_mono_r; lia). lia. }
  assert (Hp1 : 2 ^ 53 = 2 ^ d1 * 2 ^ (53 - d1))
    by (rewrite <- Z.pow_add_r by lia; f_equal; lia).
  assert (Hp1' : 2 ^ 52 = 2 ^ (d1 - 1) * 2 ^ (53 - d1))
    by (rewrite <- Z.pow_add_r by lia; f_equal; lia).
  assert (Hp2 : 2 ^ 53 = 2 ^ d2 * 2 ^ (53 - d2))
    by (rewrite <- Z.pow_add_r by lia; f_equal; lia).
  assert (Hp2' : 2 ^ 52 = 2 ^ (d2 - 1) * 2 ^ (53 - d2))
    by (rewrite <- Z.pow_add_r by lia; f_equal; lia).
  assert (0 < 2 ^ (53 - d1)) by (apply Z.pow_pos_nonneg; lia).
  assert (0 < 2 ^ (53 - d2)) by (apply Z.pow_pos_nonneg; lia).
  assert (Hb1 : 2 ^ 52 <= Z.pos m1 < 2 ^ 53) by (rewrite Hm1; nia).
  assert (Hb2 : 2 ^ 52 <= Z.pos m2 < 2 ^ 53) by (rewrite Hm2; nia).
  rewrite f64div_finite by (try assumption; lia).
  destruct (quotient_cut avail n d1 d2 (Z.pos m1) (Z.pos m2)
              ltac:(lia) ltac:(lia) ltac:(lia) ltac:(lia) ltac:(lia) Hm1 Hm2)
    as [Hcut Hcut1].
  set (q := Z.pos m1 * 2 ^ 53 / Z.pos m2) in *.
  set (r := Z.pos m1 * 2 ^ 53 mod Z.pos m2).
  set (K := 2 ^ (51 - d1 + d2)) in *.
  assert (Hq : 2 ^ 52 <= q < 2 ^ 54).
  { unfold q. split.
    - apply Z.div_le_lower_bound; [lia|]. nia.
    - apply Z.div_lt_upper_bound; [lia|].
      change (2 ^ 54) with (2 * 2 ^ 53). nia. }
  replace (d1 - 53 - (d2 - 53) - 53) with (d1 - d2 - 53) by lia.
  destruct q as [|qp|qp] eqn:Eq; try lia. rewrite <- Eq in *.
  rewrite <- Hcut.
  destruct (Z.lt_ge_cases q (2 ^ 53)) as [H53|H54].
  - rewrite Eq. rewrite binary_round_aux_53 by lia. rewrite <- Eq.
    rewrite int_of_finish64_mul_4;
      [| destruct (round_nearest_even_cases q (new_location (Z.pos m2) r))
           as [-> | ->]; lia | lia | lia].
    replace (- (d1 - d2 - 53 + 2)) with (51 - d1 + d2) by lia. fold K.
    destruct (round_nearest_even_cases q (new_location (Z.pos m2) r))
      as [-> | ->]; [reflexivity | exact Hcut1].
  - rewrite Eq.
    destruct (binary_round_aux_54 qp (d1 - d2 - 53)
                (new_location (Z.pos m2) r) ltac:(lia) ltac:(lia))
      as (l' & -> & Hl'). rewrite <- Eq in *.
    assert (Hhalf : 2 ^ 52 <= q / 2 < 2 ^ 53).
    { split; [apply Z.div_le_lower_bound; lia | apply Z.div_lt_upper_bound; lia]. }
    rewrite int_of_finish64_mul_4;
      [| destruct (round_nearest_even_cases (q / 2) l') as [-> | ->]; lia
       | lia | lia].
    replace (- (d1 - d2 - 53 + 1 + 2)) with (51 - d1 + d2 - 1) by lia.
    assert (HK2 : K = 2 * 2 ^ (51 - d1 + d2 - 1)).
    { unfold K. replace (51 - d1 + d2) with (Z.succ (51 - d1 + d2 - 1)) at 1 by lia.
      rewrite Z.pow_succ_r by lia. reflexivity. }
    assert (0 < 2 ^ (51 - d1 + d2 - 1)) by (apply Z.pow_pos_nonneg; lia).
    destruct (round_nearest_even_cases (q / 2) l') as [HR | HR].
    + rewrite HR. rewrite Z.div_div by lia. rewrite <- HK2. reflexivity.
    + assert (Hodd : Z.odd q = true).
      { destruct Hl' as [-> | [-> | Hodd]]; [simpl in HR; lia | simpl in HR; lia | exact Hodd]. }
      rewrite HR.
      assert (Hq2 : q / 2 + 1 = (q + 1) / 2).
      { rewrite (Zodd_div2 q) at 2 by (apply Zodd_bool_iff; exact Hodd).
        rewrite Z.div2_div.
        replace (2 * (q / 2) + 1 + 1) with ((q / 2 + 1) * 2) by lia.
        rewrite Z.div_mul by lia. reflexivity. }
      rewrite Hq2, Z.div_div by lia. rewrite <- HK2. exact Hcut1.
Qed.

(** ** C6: the claim fails *)

(** C6, as stated, fails: for the carrier of [2^27] by [2^27] pixels and a
    payload of 3 bytes (a header of 2 bytes), the [float64] quotient is
    rounded up and the stride of [Conceal] is one more than the exact
    quotient rounded down. *)
Lemma C6_stride_not_exact :
  headerBytes New (fun _ => 0) 3 = Ok [1; 3] /\
  let cap := CalculateCapacity 134217728 134217728 3 2 in
  cap = 13510798882111488 /\
  3 <= cap - len [1; 3] /\
  stride (cap - len [1; 3]) 3 = 18014398509481982 /\
  4 * (cap - len [1; 3]) / 3 = 18014398509481981.
Proof. repeat split; vm_compute; congruence. Qed.

(** ** C6, amended *)

(** C6, amended: for a carrier whose capacity is below [2^51] and a payload
    length [L] with [1 <= L < 2^32] that fits, the stride of [Conceal] is the
    quotient of [4 * (cap - len(hdata))] by [L], rounded down; the length of
    the header is [bytecount L + 1] for every index byte, so the stride is a
    function of the width, the height and [L]; and when [Reveal] completes
    the last byte of a header that holds the bytes of [hdata], it decodes
    [L] and sets the same stride. *)
Theorem C6_stride (rnd : Z -> Z) (W H L : Z) (hdata h : list Z) (abi : Z)
    (st : rstate) :
  Intn_spec rnd ->
  0 <= W -> 0 <= H -> W * H * 8 < 2 ^ 63 ->
  let cap := CalculateCapacity W H 3 2 in
  cap < 2 ^ 51 ->
  1 <= L < 2 ^ 32 ->
  headerBytes New rnd L = Ok hdata ->
  L <= cap - len hdata ->
  hdataR st = Some h -> clenR st = 0 ->
  <[Z.to_nat (len hdata - 1) := dbyte st]> h = hdata ->
  abi < len h * 4 ->
  stride (cap - len hdata) L = 4 * (cap - len hdata) / L /\
  len hdata = bytecount L + 1 /\
  exists st', completeByte New cap abi (len hdata - 1) st = Ok st' /\
              clenR st' = L /\
              stepR st' = stride (cap - len hdata) L.
Proof.
  intros Hrnd HW HH Hsize cap Hcap HL Hh Hfit Hst Hclen Hins Habi.
  destruct (headerBytes_New_len rnd L hdata Hrnd ltac:(lia) Hh) as [Hlen Hlen25].
  split; [apply stride_exact; lia|].
  split; [exact Hlen|].
  destruct (header_decodes rnd L Hrnd ltac:(lia))
    as (ib & cld & Eh & _ & _ & _ & Hval).
  rewrite Eh in Hh. injection Hh as Hh.
  assert (Hlenh : len h = len hdata).
  { rewrite <- Hins. unfold len. rewrite length_insert. reflexivity. }
  unfold completeByte, inHeaderR. rewrite Hst.
  replace (abi <? len h * 4) with true by lia.
  replace (len hdata - 1 =? 0) with false by lia.
  unfold slice; cbn [from_option id].
  rewrite store_Ok by lia. cbn [mbind result_bind].
  rewrite Hins. replace (len hdata - 1 =? len hdata - 1) with true by lia.
  eexists. split; [reflexivity|]. cbn [clenR stepR].
  rewrite Hclen. subst hdata. change (drop 1 (ib :: cld)) with cld.
  rewrite Hval.
  split; reflexivity.
Qed.

Lemma C6_stride_witness :
  stride (CalculateCapacity 3 3 3 2 - len [1; 2]) 2
  = 4 * (CalculateCapacity 3 3 3 2 - len [1; 2]) / 2 /\
  len [1; 2] = bytecount 2 + 1 /\
  exists st',
    completeByte New (CalculateCapacity 3 3 3 2) 7 (len [1; 2] - 1)
      {| dbyte := 2; hdataR := Some [1; 0]; dataR := None; stepR := 4;
         clenR := 0 |} = Ok st' /\
    clenR st' = 2 /\
    stepR st' = stride (CalculateCapacity 3 3 3 2 - len [1; 2]) 2.
Proof.
  apply (C6_stride (fun _ => 0) 3 3 2 [1; 2] [1; 0] 7
           {| dbyte := 2; hdataR := Some [1; 0]; dataR := None; stepR := 4;
              clenR := 0 |}).
  - intros n Hn. lia.
  - lia.
  - lia.
  - lia.
  - vm_compute. reflexivity.
  - lia.
  - vm_compute. reflexivity.
  - vm_compute. discriminate.
  - reflexivity.
  - reflexivity.
  - reflexivity.
  - vm_compute. reflexivity.
Defined.

(** ** The bits that [Conceal] writes *)

(** The two bits of the byte [b] that start at the bit [sbi]. *)
Definition chunk (b sbi : Z) : Z := Z.land (Z.shiftr b sbi) 3.

Definition isByte (b : Z) : Prop := 0 <= b < 256.

Lemma testbit_small (c n : Z) :
  0 <= c < 4 -> 2 <= n -> Z.testbit c n = false.
Proof.
  intros Hc Hn. destruct (Z.eq_dec c 0) as [->|Hc0]; [apply Z.bits_0|].
  apply Z.bits_above_log2; [lia|].
  assert (Z.log2 c < 2) by (apply Z.log2_lt_pow2; lia). lia.
Qed.

(** The low two bits after the two turns of the loop over [ebi], from the
    two tests [t0] and [t1] of the bits of the data byte. *)
Lemma low_bits_set (v : Z) (t0 t1 : bool) :
  let v1 := if t0 then Z.ldiff v 1 else Z.lor v 1 in
  let v2 := if t1 then Z.ldiff v1 2 else Z.lor v1 2 in
  Z.land v2 3 = (if t0 then 0 else 1) + (if t1 then 0 else 2) /\
  Z.shiftr v2 2 = Z.shiftr v 2.
Proof.
  intros v1 v2. split.
  - apply Z.bits_inj'. intros n Hn. unfold v2, v1.
    rewrite Z.land_spec.
    destruct (Z.eq_dec n 0) as [->|Hn0];
      [|destruct (Z.eq_dec n 1) as [->|Hn1]].
    + destruct t0, t1;
        rewrite ?Z.ldiff_spec, ?Z.lor_spec, ?Z.ldiff_spec, ?Z.lor_spec;
        generalize (Z.testbit v 0); intros bb; destruct bb; reflexivity.
    + destruct t0, t1;
        rewrite ?Z.ldiff_spec, ?Z.lor_spec, ?Z.ldiff_spec, ?Z.lor_spec;
        generalize (Z.testbit v 1); intros bb; destruct bb; reflexivity.
    + rewrite (testbit_small 3 n) by lia.
      rewrite (testbit_small ((if t0 then 0 else 1) + (if t1 then 0 else 2)) n)
        by (destruct t0, t1; simpl; lia).
      apply andb_false_r.
  - unfold v2, v1. destruct t0, t1;
      rewrite ?Z.shiftr_ldiff, ?Z.shiftr_lor, ?Z.shiftr_ldiff, ?Z.shiftr_lor;
      cbn; rewrite ?Z.ldiff_0_r, ?Z.lor_0_r; reflexivity.
Qed.

Lemma shiftr_2_byte (v v' : Z) :
  isByte v -> 0 <= Z.land v' 3 < 4 -> Z.shiftr v' 2 = Z.shiftr v 2 ->
  v' = 4 * (v / 4) + Z.land v' 3 /\ isByte v'.
Proof.
  intros Hv Hl Hs. rewrite !Z.shiftr_div_pow2 in Hs by lia.
  change (2 ^ 2) with 4 in Hs.
  assert (Hm : Z.land v' 3 = v' mod 4).
  { change 3 with (Z.ones 2). rewrite Z.land_ones by lia. reflexivity. }
  pose proof (Z.div_mod v' 4 ltac:(lia)) as Hdm.
  pose proof (Z.div_mod v 4 ltac:(lia)) as Hdv.
  pose proof (Z.mod_pos_bound v 4 ltac:(lia)).
  unfold isByte in *. rewrite Hm in *. split; lia.
Qed.

(** The tests of [concealBit] read the bits of the chunk. *)
Lemma chunk_tests (b sbi : Z) :
  isByte b -> sbi = 0 \/ sbi = 2 \/ sbi = 4 \/ sbi = 6 ->
  (if Z.land b (uint8 (Z.shiftl 1 (sbi + 0))) =? 0 then 0 else 1) +
  (if Z.land b (uint8 (Z.shiftl 1 (sbi + 1))) =? 0 then 0 else 2)
  = chunk b sbi.
Proof.
  intros Hb Hs.
  pose (f := fun b => forallb (fun sbi =>
    ((if Z.land b (uint8 (Z.shiftl 1 (sbi + 0))) =? 0 then 0 else 1) +
     (if Z.land b (uint8 (Z.shiftl 1 (sbi + 1))) =? 0 then 0 else 2)
     =? chunk b sbi)) [0; 2; 4; 6]).
  assert (Hall : forallb f (seqZ 0 256) = true) by (vm_compute; reflexivity).
  pose proof (range_forallb f 0 256 Hall b Hb) as Hf. unfold f in Hf.
  rewrite forallb_forall in Hf.
  apply Z.eqb_eq. apply Hf.
  destruct Hs as [-> | [-> | [-> | ->]]]; simpl; tauto.
Qed.

(** The two turns of [concealBit] on a channel value. *)
Lemma concealBits_spec (hdata data : list Z) (abi dbi sbi v b : Z) :
  (if abi <? len hdata * 4 then index hdata dbi else index data dbi) = Ok b ->
  isByte b -> isByte v -> sbi = 0 \/ sbi = 2 \/ sbi = 4 \/ sbi = 6 ->
  exists v', forM (concealBit hdata data abi dbi sbi) [0; 1] v = Ok v' /\
             isByte v' /\ Z.land v' 3 = chunk b sbi.
Proof.
  intros Hsrc Hb Hv Hs. cbn [forM]. unfold concealBit. rewrite Hsrc.
  cbn [mbind result_bind].
  change (uint8 (0 + 1)) with 1. change (uint8 (1 + 1)) with 2.
  pose proof (low_bits_set v
                (Z.land b (uint8 (Z.shiftl 1 (sbi + 0))) =? 0)
                (Z.land b (uint8 (Z.shiftl 1 (sbi + 1))) =? 0)) as [Hlow Hhigh].
  cbv zeta in Hlow, Hhigh. rewrite (chunk_tests b sbi Hb Hs) in Hlow.
  eexists. split; [reflexivity|].
  assert (Hc : 0 <= chunk b sbi < 4).
  { unfold chunk. change 3 with (Z.ones 2). rewrite Z.land_ones by lia.
    apply Z.mod_pos_bound. lia. }
  split; [|exact Hlow].
  eapply shiftr_2_byte; [exact Hv | rewrite Hlow; exact Hc | exact Hhigh].
Qed.

Lemma index_lookup (l : list Z) (i b : Z) :
  0 <= i -> l !! Z.to_nat i = Some b -> index l i = Ok b.
Proof.
  intros Hi Hl. unfold index. replace (i <? 0) with false by lia.
  rewrite Hl. reflexivity.
Qed.

Lemma lookup_byte (l : list Z) (i : Z) :
  Forall isByte l -> 0 <= i < len l ->
  exists b, l !! Z.to_nat i = Some b /\ isByte b.
Proof.
  intros Hall Hi.
  destruct (lookup_lt_is_Some_2 l (Z.to_nat i)) as [b Hb];
    [unfold len in Hi; lia|].
  exists b. split; [exact Hb|].
  rewrite Forall_forall in Hall. apply Hall.
  eapply list_elem_of_lookup_2. exact Hb.
Qed.

(** What [Conceal] leaves in an available encoding byte, for a positive
    stride: the value stays a byte; a header cell whose byte index is below
    the length of the payload holds the chunk of the header byte, and a
    content cell among the first four of its byte holds the chunk of the
    payload byte. *)
Lemma concealCell_value (hdata data : list Z) (step abi v : Z) :
  0 < step -> 0 <= abi ->
  Forall isByte hdata -> Forall isByte data -> isByte v ->
  exists v',
    concealCell hdata data step abi v = Ok v' /\ isByte v' /\
    (forall b, abi < len hdata * 4 -> abi / 4 < len data ->
       hdata !! Z.to_nat (abi / 4) = Some b ->
       Z.land v' 3 = chunk b (abi mod 4 * 2)) /\
    (forall b, len hdata * 4 <= abi ->
       (abi - len hdata * 4) mod step < 4 ->
       data !! Z.to_nat ((abi - len hdata * 4) / step) = Some b ->
       Z.land v' 3 = chunk b ((abi - len hdata * 4) mod step * 2)).
Proof.
  intros Hstep Habi Hhd Hdt Hv. unfold concealCell, indices.
  destruct (abi <? len hdata * 4) eqn:Eh.
  - (* header *)
    cbn [mbind result_bind].
    rewrite Z.quot_div_nonneg, Z.rem_mod_nonneg by lia.
    pose proof (Z.mod_pos_bound abi 4 ltac:(lia)) as Hm.
    pose proof (Z.div_mod abi 4 ltac:(lia)) as Hdm.
    assert (Hq : 0 <= abi / 4 < len hdata) by lia.
    replace (abi mod 4 * 2 <? 8) with true by lia. cbn [andb].
    destruct (abi / 4 <? len data) eqn:Eg.
    + destruct (lookup_byte hdata (abi / 4) Hhd Hq) as (b & Hb & Hbb).
      destruct (concealBits_spec hdata data abi (abi / 4) (abi mod 4 * 2) v b)
        as (v' & Hv' & Hbv' & Hlow); try assumption.
      { rewrite Eh. apply index_lookup; [lia | exact Hb]. }
      { lia. }
      exists v'. repeat split; try assumption; try apply Hbv'.
      * intros b' _ _ Hb'. rewrite Hb in Hb'. injection Hb' as <-. exact Hlow.
      * intros b' Hge. lia.
    + exists v. repeat split; try apply Hv.
      * intros b' _ Hlt. lia.
      * intros b' Hge. lia.
  - (* content *)
    replace (step =? 0) with false by lia. cbn [mbind result_bind].
    set (k := abi - len hdata * 4).
    assert (Hk : 0 <= k) by (unfold k; lia).
    rewrite Z.quot_div_nonneg, Z.rem_mod_nonneg by lia.
    pose proof (Z.mod_pos_bound k step ltac:(lia)) as Hm.
    assert (Hq : 0 <= k / step) by (apply Z.div_pos; lia).
    destruct ((k mod step * 2 <? 8) && (k / step <? len data)) eqn:Eg.
    + destruct (lookup_byte data (k / step) Hdt ltac:(lia)) as (b & Hb & Hbb).
      destruct (concealBits_spec hdata data abi (k / step) (k mod step * 2) v b)
        as (v' & Hv' & Hbv' & Hlow); try assumption.
      { rewrite Eh. apply index_lookup; [lia | exact Hb]. }
      { lia. }
      exists v'. repeat split; try assumption; try apply Hbv'.
      * intros b' Hlt. lia.
      * intros b' _ _ Hb'. rewrite Hb in Hb'. injection Hb' as <-. exact Hlow.
    + exists v. repeat split; try apply Hv.
      * intros b' Hlt. lia.
      * intros b' _ Hlt Hb'.
        apply lookup_lt_Some in Hb'. unfold len in Eg. lia.
Qed.

(** ** The bits that [Reveal] reads *)

(** The first [c] entries of [l], then zeros: a buffer that is being
    filled. *)
Definition filled (l : list Z) (c : Z) : list Z :=
  take (Z.to_nat c) l ++ replicate (length l - Z.to_nat c) 0.

Lemma filled_length (l : list Z) (c : Z) :
  0 <= c <= len l -> len (filled l c) = len l.
Proof.
  intros Hc. unfold filled, len in *.
  rewrite length_app, length_take, length_replicate. lia.
Qed.

Lemma filled_0 (l : list Z) : filled l 0 = replicate (length l) 0.
Proof. unfold filled. simpl. rewrite Nat.sub_0_r. reflexivity. Qed.

Lemma filled_all (l : list Z) : filled l (len l) = l.
Proof.
  unfold filled, len. rewrite Nat2Z.id, firstn_all, Nat.sub_diag.
  apply app_nil_r.
Qed.

Lemma filled_insert (l : list Z) (c b : Z) :
  0 <= c -> l !! Z.to_nat c = Some b ->
  <[Z.to_nat c := b]> (filled l c) = filled l (c + 1).
Proof.
  intros Hc Hl. pose proof (lookup_lt_Some _ _ _ Hl) as Hlt.
  unfold filled.
  replace (Z.to_nat (c + 1)) with (S (Z.to_nat c)) by lia.
  rewrite (take_S_r l (Z.to_nat c) b Hl).
  rewrite insert_app_r_alt by (rewrite length_take; lia).
  rewrite length_take.
  replace (Z.to_nat c - Z.to_nat c `min` length l)%nat with 0%nat by lia.
  replace (length l - Z.to_nat c)%nat with (S (length l - S (Z.to_nat c))) by lia.
  cbn [replicate]. cbn [insert list_insert]. rewrite <- app_assoc. reflexivity.
Qed.

(** The byte that [Reveal] rebuilds, after the two bits of the channel
    value [v] have been put at the bit [sbi] of [acc]. *)
Definition readBits (acc v sbi : Z) : Z :=
  Z.lor
    (Z.lor acc
       (uint8 (Z.shiftl (Z.land v (uint8 (Z.shiftl 1 0)))
                        (Z.quot (sbi + 0) 2 * 2))))
    (uint8 (Z.shiftl (Z.land v (uint8 (Z.shiftl 1 1)))
                     (Z.quot (sbi + 1) 2 * 2))).

Lemma readBits_spec (b v r : Z) :
  isByte b -> 0 <= r < 4 -> Z.land v 3 = chunk b (r * 2) ->
  readBits (b mod 2 ^ (2 * r)) v (r * 2) = b mod 2 ^ (2 * (r + 1)).
Proof.
  intros Hb Hr Hv. unfold readBits.
  change (uint8 (Z.shiftl 1 0)) with 1. change (uint8 (Z.shiftl 1 1)) with 2.
  assert (H1 : Z.land v 1 = Z.land (chunk b (r * 2)) 1).
  { rewrite <- Hv, <- Z.land_assoc. reflexivity. }
  assert (H2 : Z.land v 2 = Z.land (chunk b (r * 2)) 2).
  { rewrite <- Hv, <- Z.land_assoc. reflexivity. }
  rewrite H1, H2.
  pose (f := fun b => forallb (fun r =>
    Z.lor
      (Z.lor (b mod 2 ^ (2 * r))
         (uint8 (Z.shiftl (Z.land (chunk b (r * 2)) 1)
                          (Z.quot (r * 2 + 0) 2 * 2))))
      (uint8 (Z.shiftl (Z.land (chunk b (r * 2)) 2)
                       (Z.quot (r * 2 + 1) 2 * 2)))
    =? b mod 2 ^ (2 * (r + 1))) [0; 1; 2; 3]).
  assert (Hall : forallb f (seqZ 0 256) = true) by (vm_compute; reflexivity).
  pose proof (range_forallb f 0 256 Hall b Hb) as Hf. unfold f in Hf.
  rewrite forallb_forall in Hf. apply Z.eqb_eq. apply Hf.
  assert (r = 0 \/ r = 1 \/ r = 2 \/ r = 3) as [-> | [-> | [-> | ->]]] by lia;
    simpl; tauto.
Qed.

(** The two turns of [revealBit] on a cell that does not complete a byte,
    and on a cell that does. *)
Lemma revealBits_partial (s : SteganoPNG) (cap abi dbi sbi v : Z) (st : rstate) :
  sbi + 0 <> 7 -> sbi + 1 <> 7 ->
  forM (revealBit s cap abi dbi sbi v) [0; 1] st =
    Ok {| dbyte := readBits (dbyte st) v sbi; hdataR := hdataR st;
          dataR := dataR st; stepR := stepR st; clenR := clenR st |}.
Proof.
  intros H0 H1. cbn [forM]. unfold revealBit.
  replace (sbi + 0 =? 7) with false by lia.
  replace (sbi + 1 =? 7) with false by lia.
  cbn [mbind result_bind dbyte hdataR dataR stepR clenR]. reflexivity.
Qed.

Lemma revealBits_complete (s : SteganoPNG) (cap abi dbi v : Z) (st : rstate) :
  forM (revealBit s cap abi dbi 6 v) [0; 1] st =
    completeByte s cap abi dbi
      {| dbyte := readBits (dbyte st) v 6; hdataR := hdataR st;
         dataR := dataR st; stepR := stepR st; clenR := clenR st |}.
Proof.
  cbn [forM]. unfold revealBit.
  change (6 + 0 =? 7) with false. change (6 + 1 =? 7) with true.
  cbn [mbind result_bind dbyte hdataR dataR stepR clenR].
  destruct (completeByte s cap abi dbi _); reflexivity.
Qed.

Lemma div_mod_succ (k s : Z) :
  0 <= k -> 0 < s ->
  (k mod s + 1 < s /\ (k + 1) / s = k / s /\ (k + 1) mod s = k mod s + 1) \/
  (k mod s + 1 = s /\ (k + 1) / s = k / s + 1 /\ (k + 1) mod s = 0).
Proof.
  intros Hk Hs.
  pose proof (Z.div_mod k s ltac:(lia)) as Hdm.
  pose proof (Z.mod_pos_bound k s Hs) as Hm.
  destruct (Z.lt_ge_cases (k mod s + 1) s) as [Hlt|Hge].
  - left. split; [exact Hlt|].
    assert (Hq : (k + 1) / s = k / s)
      by (symmetry; apply Z.div_unique with (k mod s + 1); lia).
    split; [exact Hq|].
    symmetry. apply Z.mod_unique with (k / s); lia.
  - right. split; [lia|].
    assert (Hq : (k + 1) / s = k / s + 1)
      by (symmetry; apply Z.div_unique with 0; lia).
    split; [exact Hq|].
    symmetry. apply Z.mod_unique with (k / s + 1); lia.
Qed.

(** What [Reveal] reads back from an opaque pixel of the steganogram. *)
Lemma NRGBA_RGBA_opaque (v a : Z) :
  isByte v -> a = 255 -> uint8 (v * 257 * a / 255 / 256) = v.
Proof.
  intros Hv ->. rewrite Z.div_mul by lia.
  assert (Hq : v * 257 / 256 = v)
    by (symmetry; apply Z.div_unique with v; unfold isByte in Hv; lia).
  rewrite Hq. apply uint8_small. exact Hv.
Qed.

(** [l[i]], zero when out of range. *)
Definition nthb (l : list Z) (i : Z) : Z := default 0 (l !! Z.to_nat i).

Section RevealAfterConceal.

Variables (cap step : Z) (hdata data : list Z).

Hypothesis Hhd : Forall isByte hdata.
Hypothesis Hdt : Forall isByte data.
Hypothesis Hhlen : 2 <= len hdata <= 5.
Hypothesis Hsize : headerSize New (nthb hdata 0) = len hdata.
Hypothesis Hclen : contentLength 0 (drop 1 hdata) = len data.
Hypothesis Hstride : stride (cap - len hdata) (len data) = step.
Hypothesis Hstep : 4 <= step.

(** What the channel value [v] of the available encoding byte [n] holds
    in its two low bits, after [Conceal]. *)
Definition cellSpec (n v : Z) : Prop :=
  (forall b, n < len hdata * 4 -> hdata !! Z.to_nat (n / 4) = Some b ->
     Z.land v 3 = chunk b (n mod 4 * 2)) /\
  (forall b, len hdata * 4 <= n ->
     (n - len hdata * 4) mod step < 4 ->
     data !! Z.to_nat ((n - len hdata * 4) / step) = Some b ->
     Z.land v 3 = chunk b ((n - len hdata * 4) mod step * 2)).

(** The variables of [Reveal] before the available encoding byte [n] of
    a steganogram. *)
Definition revealed (n : Z) (st : rstate) : Prop :=
  (n < 4 /\ hdataR st = None /\ dataR st = None /\ clenR st = 0 /\
   dbyte st = nthb hdata 0 mod 2 ^ (2 * n)) \/
  (4 <= n < len hdata * 4 /\
   hdataR st = Some (filled hdata (n / 4)) /\ dataR st = None /\
   clenR st = 0 /\
   dbyte st = nthb hdata (n / 4) mod 2 ^ (2 * (n mod 4))) \/
  (len hdata * 4 <= n /\
   let k := n - len hdata * 4 in
   hdataR st = Some hdata /\ stepR st = step /\
   dataR st = Some (filled data (Z.min (len data)
                      (k / step + (if 4 <=? k mod step then 1 else 0)))) /\
   dbyte st = if (k / step <? len data) && (k mod step <? 4)
              then nthb data (k / step) mod 2 ^ (2 * (k mod step))
              else 0).

Lemma nthb_lookup (l : list Z) (i b : Z) :
  l !! Z.to_nat i = Some b -> nthb l i = b.
Proof. intros Hl. unfold nthb. rewrite Hl. reflexivity. Qed.

Lemma byte_mod_256 (b : Z) : isByte b -> b mod 2 ^ (2 * (3 + 1)) = b.
Proof. intros Hb. apply Z.mod_small. exact Hb. Qed.

Lemma revealed_header_cell (n v : Z) (st : rstate) :
  0 <= n < len hdata * 4 -> cellSpec n v -> revealed n st ->
  exists st', revealCell New cap st n v = Ok st' /\ revealed (n + 1) st'.
Proof.
  intros Hn [Hspec _] Hrev.
  pose proof (Z.div_mod n 4 ltac:(lia)) as Hdm.
  pose proof (Z.mod_pos_bound n 4 ltac:(lia)) as Hmod.
  set (q := n / 4) in *. set (r := n mod 4) in *.
  assert (Hq : 0 <= q < len hdata) by lia.
  destruct (lookup_byte hdata q Hhd Hq) as (b & Hb & Hbb).
  specialize (Hspec b ltac:(lia) Hb).
  assert (Hnb : nthb hdata q = b) by (apply nthb_lookup; exact Hb).
  assert (Hdata : dataR st = None /\ clenR st = 0 /\
                  dbyte st = b mod 2 ^ (2 * r) /\
                  inHeaderR st n = true /\
                  (n < 4 -> hdataR st = None) /\
                  (4 <= n -> hdataR st = Some (filled hdata q))).
  { unfold inHeaderR.
    destruct Hrev as [(Hlt & Hh & Hd & Hc & Hdb) | [(Hlt & Hh & Hd & Hc & Hdb) | (Hge & _)]];
      [| |lia].
    - assert (q = 0) by lia. assert (r = n) by lia.
      rewrite Hh. repeat split; try assumption; try lia.
      rewrite Hdb. congruence.
    - rewrite Hh, filled_length by lia. rewrite <- Hnb.
      repeat split; try assumption; try lia. }
  destruct Hdata as (Hd & Hc & Hdb & Hin & Hnone & Hsome).
  unfold revealCell, indices. rewrite Hin, Hd. cbn [mbind result_bind].
  rewrite Z.quot_div_nonneg, Z.rem_mod_nonneg by lia. fold q r.
  replace (r * 2 <? 8) with true by lia. cbn [andb].
  assert (Hread : readBits (dbyte st) v (r * 2) = b mod 2 ^ (2 * (r + 1))).
  { rewrite Hdb. apply readBits_spec; [exact Hbb | lia | exact Hspec]. }
  destruct (Z.eq_dec r 3) as [Hr3|Hr3].
  - (* the byte completes *)
    rewrite Hr3 in *. change (3 * 2) with 6 in *.
    rewrite revealBits_complete, Hread, byte_mod_256 by exact Hbb.
    unfold completeByte, inHeaderR. cbn [hdataR dataR stepR clenR dbyte].
    assert (Hin' : match hdataR st with
                   | Some h => n <? len h * 4 | None => true end = true)
      by exact Hin.
    rewrite Hin'.
    assert (Hstore : store (slice (if q =? 0
                       then Some (replicate (Z.to_nat (headerSize New b)) 0)
                       else hdataR st)) q b = Ok (filled hdata (q + 1))).
    { destruct (Z.eq_dec q 0) as [Hq0|Hq0].
      - assert (Hhs : headerSize New b = len hdata)
          by (rewrite <- Hnb, Hq0; exact Hsize).
        rewrite Hq0 in Hb |- *. cbn [Z.eqb].
        unfold slice; cbn [from_option id]. rewrite Hhs.
        replace (Z.to_nat (len hdata)) with (length hdata) by (unfold len; lia).
        rewrite <- filled_0.
        rewrite store_Ok by (rewrite filled_length; lia).
        rewrite filled_insert by (try lia; exact Hb). reflexivity.
      - replace (q =? 0) with false by lia.
        rewrite Hsome by lia. unfold slice; cbn [from_option id].
        rewrite store_Ok by (rewrite filled_length; lia).
        rewrite filled_insert by (try lia; exact Hb). reflexivity. }
    rewrite Hstore. cbn [mbind result_bind].
    rewrite filled_length by lia.
    destruct (q =? len hdata - 1) eqn:Elast.
    + apply Z.eqb_eq in Elast.
      replace (q + 1) with (len hdata) by lia. rewrite filled_all.
      rewrite Hc, Hclen, Hstride.
      eexists. split; [reflexivity|].
      right. right. split; [lia|].
      replace (n + 1 - len hdata * 4) with 0 by lia.
      cbn [hdataR dataR stepR clenR dbyte].
      rewrite Zdiv_0_l, Zmod_0_l.
      replace (4 <=? 0) with false by reflexivity.
      replace (Z.min (len data) (0 + 0)) with 0 by (unfold len; lia).
      rewrite filled_0.
      replace (Z.to_nat (len data)) with (length data) by (unfold len; lia).
      repeat split.
      destruct ((0 <? len data) && (0 <? 4)); [|reflexivity].
      change (2 ^ (2 * 0)) with 1. rewrite Z.mod_1_r. reflexivity.
    + apply Z.eqb_neq in Elast.
      eexists. split; [reflexivity|].
      right. left.
      assert (Hq1 : (n + 1) / 4 = q + 1)
        by (symmetry; apply Z.div_unique with 0; lia).
      assert (Hr1 : (n + 1) mod 4 = 0)
        by (symmetry; apply Z.mod_unique with (q + 1); lia).
      rewrite Hq1, Hr1. cbn [hdataR dataR stepR clenR dbyte].
      repeat split; try lia; try assumption.
      change (2 ^ (2 * 0)) with 1. rewrite Z.mod_1_r. reflexivity.
  - (* the byte goes on *)
    rewrite revealBits_partial by lia. rewrite Hread.
    eexists. split; [reflexivity|].
    assert (Hq1 : (n + 1) / 4 = q)
      by (symmetry; apply Z.div_unique with (r + 1); lia).
    assert (Hr1 : (n + 1) mod 4 = r + 1)
      by (symmetry; apply Z.mod_unique with q; lia).
    destruct (Z.lt_ge_cases (n + 1) 4) as [Hlt4|Hge4].
    + left. cbn [hdataR dataR stepR clenR dbyte].
      assert (q = 0) by lia. assert (r = n) by lia.
      repeat split; try lia; try assumption; try (apply Hnone; lia).
      replace (nthb hdata 0) with b by congruence. congruence.
    + right. left. rewrite Hq1, Hr1. cbn [hdataR dataR stepR clenR dbyte].
      repeat split; try lia; try assumption; try (apply Hsome; lia).
      rewrite Hnb. reflexivity.
Qed.

Lemma revealed_content_cell (n v : Z) (st : rstate) :
  len hdata * 4 <= n -> cellSpec n v -> revealed n st ->
  exists st', revealCell New cap st n v = Ok st' /\ revealed (n + 1) st'.
Proof.
  intros Hn [_ Hspec] Hrev.
  destruct Hrev as [(Hlt & _) | [(Hlt & _) | (_ & Hrev)]]; [lia | lia |].
  cbv zeta in Hrev. destruct Hrev as (Hh & Hs & Hd & Hdb).
  set (k := n - len hdata * 4) in *.
  assert (Hk : 0 <= k) by (unfold k; lia).
  pose proof (Z.div_mod k step ltac:(lia)) as Hdm.
  pose proof (Z.mod_pos_bound k step ltac:(lia)) as Hmod.
  assert (Hd0 : 0 <= k / step) by (apply Z.div_pos; lia).
  set (d := k / step) in *. set (r := k mod step) in *.
  set (c := Z.min (len data) (d + (if 4 <=? r then 1 else 0))) in *.
  assert (Hc : 0 <= c <= len data) by (unfold c, len; destruct (4 <=? r); lia).
  unfold revealCell, indices, inHeaderR. rewrite Hh, Hd, Hs.
  replace (n <? len hdata * 4) with false by lia.
  replace (step =? 0) with false by lia. cbn [mbind result_bind].
  unfold slice; cbn [from_option id]. fold k.
  rewrite Z.quot_div_nonneg, Z.rem_mod_nonneg by lia. fold d r.
  rewrite filled_length by exact Hc.
  replace (n + 1 - len hdata * 4) with (k + 1) by (unfold k; lia).
  destruct (div_mod_succ k step Hk ltac:(lia)) as [(Hr1 & Hq' & Hr') | (Hr1 & Hq' & Hr')];
    fold d r in Hr1, Hq', Hr'.
  - (* the next cell is of the same byte *)
    destruct ((r * 2 <? 8) && (d <? len data)) eqn:Eg.
    + assert (Hr4 : r < 4) by lia. assert (HdL : d < len data) by lia.
      destruct (lookup_byte data d Hdt ltac:(lia)) as (b & Hb & Hbb).
      specialize (Hspec b Hn ltac:(fold k r; lia) Hb).
      fold k r in Hspec.
      assert (Hnb : nthb data d = b) by (apply nthb_lookup; exact Hb).
      replace ((d <? len data) && (r <? 4)) with true in Hdb by lia.
      rewrite Hnb in Hdb.
      assert (Hread : readBits (dbyte st) v (r * 2) = b mod 2 ^ (2 * (r + 1))).
      { rewrite Hdb. apply readBits_spec; [exact Hbb | lia | exact Hspec]. }
      assert (Hcd : c = d) by (unfold c; replace (4 <=? r) with false by lia; lia).
      destruct (Z.eq_dec r 3) as [Hr3|Hr3].
      * rewrite Hr3 in *. change (3 * 2) with 6 in *.
        rewrite revealBits_complete, Hread, byte_mod_256 by exact Hbb.
        unfold completeByte, inHeaderR. cbn [hdataR dataR stepR clenR dbyte].
        rewrite Hh, Hd. replace (n <? len hdata * 4) with false by lia.
        unfold slice; cbn [from_option id]. rewrite Hcd.
        rewrite store_Ok by (rewrite filled_length; lia).
        rewrite filled_insert by (try lia; exact Hb).
        cbn [mbind result_bind].
        eexists. split; [reflexivity|].
        right. right. split; [lia|]. cbv zeta.
        replace (n + 1 - len hdata * 4) with (k + 1) by (unfold k; lia).
        rewrite Hq', Hr'. cbn [hdataR dataR stepR clenR dbyte].
        replace (4 <=? 3 + 1) with true by reflexivity.
        replace (Z.min (len data) (d + 1)) with (d + 1) by lia.
        replace (3 + 1 <? 4) with false by reflexivity.
        rewrite andb_false_r. repeat split; assumption.
      * rewrite revealBits_partial by lia. rewrite Hread.
        eexists. split; [reflexivity|].
        right. right. split; [lia|]. cbv zeta.
        replace (n + 1 - len hdata * 4) with (k + 1) by (unfold k; lia).
        rewrite Hq', Hr'. cbn [hdataR dataR stepR clenR dbyte].
        replace (4 <=? r + 1) with false by lia.
        replace ((d <? len data) && (r + 1 <? 4)) with true by lia.
        rewrite Hnb. rewrite Z.add_0_r.
        replace (Z.min (len data) d) with c by lia.
        repeat split; assumption.
    + exists st. split; [reflexivity|].
      right. right. split; [lia|]. cbv zeta.
      replace (n + 1 - len hdata * 4) with (k + 1) by (unfold k; lia).
      rewrite Hq', Hr'.
      replace ((d <? len data) && (r <? 4)) with false in Hdb by lia.
      replace ((d <? len data) && (r + 1 <? 4)) with false by lia.
      replace (Z.min (len data) (d + (if 4 <=? r + 1 then 1 else 0))) with c
        by (unfold c; destruct (4 <=? r) eqn:E1, (4 <=? r + 1) eqn:E2; lia).
      repeat split; assumption.
  - (* the next cell starts the next byte *)
    destruct ((r * 2 <? 8) && (d <? len data)) eqn:Eg.
    + assert (Hr3 : r = 3) by lia. assert (HdL : d < len data) by lia.
      destruct (lookup_byte data d Hdt ltac:(lia)) as (b & Hb & Hbb).
      specialize (Hspec b Hn ltac:(fold k r; lia) Hb).
      fold k r in Hspec.
      assert (Hnb : nthb data d = b) by (apply nthb_lookup; exact Hb).
      replace ((d <? len data) && (r <? 4)) with true in Hdb by lia.
      rewrite Hnb in Hdb.
      assert (Hread : readBits (dbyte st) v (r * 2) = b mod 2 ^ (2 * (r + 1))).
      { rewrite Hdb. apply readBits_spec; [exact Hbb | lia | exact Hspec]. }
      assert (Hcd : c = d) by (unfold c; replace (4 <=? r) with false by lia; lia).
      rewrite Hr3 in *. change (3 * 2) with 6 in *.
      rewrite revealBits_complete, Hread, byte_mod_256 by exact Hbb.
      unfold completeByte, inHeaderR. cbn [hdataR dataR stepR clenR dbyte].
      rewrite Hh, Hd. replace (n <? len hdata * 4) with false by lia.
      unfold slice; cbn [from_option id]. rewrite Hcd.
      rewrite store_Ok by (rewrite filled_length; lia).
      rewrite filled_insert by (try lia; exact Hb).
      cbn [mbind result_bind].
      eexists. split; [reflexivity|].
      right. right. split; [lia|]. cbv zeta.
      replace (n + 1 - len hdata * 4) with (k + 1) by (unfold k; lia).
      rewrite Hq', Hr'. cbn [hdataR dataR stepR clenR dbyte].
      replace (4 <=? 0) with false by reflexivity.
      replace (Z.min (len data) (d + 1 + 0)) with (d + 1) by lia.
      repeat split; try assumption.
      destruct ((d + 1 <? len data) && (0 <? 4)); [|reflexivity].
      change (2 ^ (2 * 0)) with 1. rewrite Z.mod_1_r. reflexivity.
    + exists st. split; [reflexivity|].
      right. right. split; [lia|]. cbv zeta.
      replace (n + 1 - len hdata * 4) with (k + 1) by (unfold k; lia).
      rewrite Hq', Hr'.
      replace ((d <? len data) && (r <? 4)) with false in Hdb by lia.
      replace (4 <=? 0) with false by reflexivity.
      replace (Z.min (len data) (d + 1 + 0)) with c
        by (unfold c; destruct (4 <=? r) eqn:E1; lia).
      repeat split; try assumption.
      rewrite Hdb.
      destruct ((d + 1 <? len data) && (0 <? 4)); [|reflexivity].
      change (2 ^ (2 * 0)) with 1. rewrite Z.mod_1_r. reflexivity.
Qed.

(** One available encoding byte of a steganogram. *)
Lemma revealed_cell (n v : Z) (st : rstate) :
  0 <= n -> cellSpec n v -> revealed n st ->
  exists st', revealCell New cap st n v = Ok st' /\ revealed (n + 1) st'.
Proof.
  intros Hn Hspec Hrev.
  destruct (Z.lt_ge_cases n (len hdata * 4)).
  - apply revealed_header_cell; [lia | assumption | assumption].
  - apply revealed_content_cell; assumption.
Qed.

(** One opaque pixel of a steganogram. *)
Lemma revealed_pixel (img' : Image) (x y : Z) (c : NRGBA) (st : rstate) :
  At img' x y = NRGBA_RGBA c -> nA c = 255 ->
  isByte (nR c) -> isByte (nG c) -> isByte (nB c) ->
  0 <= x + y * width img' ->
  cellSpec ((x + y * width img') * 3 + 0) (nR c) ->
  cellSpec ((x + y * width img') * 3 + 1) (nG c) ->
  cellSpec ((x + y * width img') * 3 + 2) (nB c) ->
  revealed ((x + y * width img') * 3) st ->
  exists st', revealPixel New cap img' x y st = Ok st' /\
              revealed ((x + y * width img' + 1) * 3) st'.
Proof.
  intros Hat Ha Hr Hg Hb Hpxi Hsr Hsg Hsb Hrev.
  unfold revealPixel. rewrite Hat. cbn [NRGBA_RGBA cR cG cB cA].
  rewrite !NRGBA_RGBA_opaque by assumption.
  set (pxi := x + y * width img') in *.
  rewrite <- (Z.add_0_r (pxi * 3)) in Hrev.
  destruct (revealed_cell (pxi * 3 + 0) (nR c) st ltac:(lia) Hsr Hrev)
    as (st1 & -> & H1).
  cbn [mbind result_bind].
  replace (pxi * 3 + 0 + 1) with (pxi * 3 + 1) in H1 by lia.
  destruct (revealed_cell (pxi * 3 + 1) (nG c) st1 ltac:(lia) Hsg H1)
    as (st2 & -> & H2).
  cbn [mbind result_bind].
  replace (pxi * 3 + 1 + 1) with (pxi * 3 + 2) in H2 by lia.
  destruct (revealed_cell (pxi * 3 + 2) (nB c) st2 ltac:(lia) Hsb H2)
    as (st3 & -> & H3).
  exists st3. split; [reflexivity|].
  replace ((pxi + 1) * 3) with (pxi * 3 + 2 + 1) by lia. exact H3.
Qed.

End RevealAfterConceal.

(** ** The round trip *)

(** Every pixel of the carrier is opaque: its alpha, divided by 256, is
    255. *)
Definition opaque (img : Image) : Prop :=
  Forall (fun c => 65280 <= cA c < 65536) (pix img).

Lemma stride_at_least_4 (avail n : Z) :
  1 <= n <= avail -> avail < 2 ^ 51 ->
  4 <= stride avail n /\ n * stride avail n <= 4 * avail.
Proof.
  intros Hn Ha. rewrite stride_exact by lia. split.
  - apply Z.div_le_lower_bound; lia.
  - apply Z.mul_div_le. lia.
Qed.

(** The pixel that [Conceal] writes, cell by cell. *)
Lemma concealPixel_cells (hdata data : list Z) (step : Z) (img : Image)
    (x y : Z) :
  4 <= step -> 0 <= x + y * width img ->
  Forall isByte hdata -> Forall isByte data -> len hdata <= len data ->
  exists c,
    concealPixel hdata data step img x y = Ok c /\
    nA c = uint8 (cA (At img x y) / 256) /\
    isByte (nR c) /\ isByte (nG c) /\ isByte (nB c) /\
    cellSpec step hdata data ((x + y * width img) * 3 + 0) (nR c) /\
    cellSpec step hdata data ((x + y * width img) * 3 + 1) (nG c) /\
    cellSpec step hdata data ((x + y * width img) * 3 + 2) (nB c).
Proof.
  intros Hstep Hpxi Hhd Hdt Hlen. unfold concealPixel.
  set (pxi := x + y * width img) in *.
  assert (Hcell : forall ci v, 0 <= ci < 3 -> isByte v ->
            exists v', concealCell hdata data step (pxi * 3 + ci) v = Ok v' /\
                       isByte v' /\
                       cellSpec step hdata data (pxi * 3 + ci) v').
  { intros ci v Hci Hv.
    destruct (concealCell_value hdata data step (pxi * 3 + ci) v
                ltac:(lia) ltac:(lia) Hhd Hdt Hv)
      as (v' & Hv' & Hb' & Hhdr & Hcnt).
    exists v'. split; [exact Hv'|]. split; [exact Hb'|]. split.
    - intros b Hlt Hb. apply Hhdr; try assumption.
      pose proof (Z.div_mod (pxi * 3 + ci) 4 ltac:(lia)).
      pose proof (Z.mod_pos_bound (pxi * 3 + ci) 4 ltac:(lia)). lia.
    - intros b Hge Hm Hb. apply Hcnt; assumption. }
  destruct (Hcell 0 (uint8 (cR (At img x y) / 256)) ltac:(lia)
              (uint8_range _)) as (r & -> & Hr & Hsr).
  destruct (Hcell 1 (uint8 (cG (At img x y) / 256)) ltac:(lia)
              (uint8_range _)) as (g & -> & Hg & Hsg).
  destruct (Hcell 2 (uint8 (cB (At img x y) / 256)) ltac:(lia)
              (uint8_range _)) as (b & -> & Hb & Hsb).
  cbn [mbind result_bind]. eexists. split; [reflexivity|].
  cbn [nR nG nB nA]. split; [reflexivity|].
  split; [exact Hr|]. split; [exact Hg|]. split; [exact Hb|].
  split; [exact Hsr|]. split; [exact Hsg | exact Hsb].
Qed.

(** X1: the round trip.  On an opaque carrier whose capacity is below [2^51],
    for a payload of bytes that has at least 2 and less than [2^32] bytes
    and fits the capacity less the header, and for every index byte the
    random source may pick, [Reveal] of the steganogram that [Conceal]
    produces returns the payload. *)
Theorem round_trip (rnd : Z -> Z) (data : list Z) (img : Image) :
  wf_image img -> opaque img -> Intn_spec rnd -> Forall isByte data ->
  2 <= len data < 2 ^ 32 ->
  CalculateCapacity (width img) (height img) 3 2 < 2 ^ 51 ->
  len data <= CalculateCapacity (width img) (height img) 3 2
              - (bytecount (len data) + 1) ->
  roundTrip New rnd data img = Ok data.
Proof.
  intros Hwf Hop Hrnd Hdt HL Hcap Hfit.
  destruct Hwf as [Hw Hh Hpix Hsize Hchan].
  set (W := width img) in *. set (H := height img) in *.
  set (cap := CalculateCapacity W H 3 2) in *.
  assert (Hcapv : cap = W * H * 3 / 4) by (apply CalculateCapacity_32; assumption).
  set (L := len data) in *.
  destruct (headerBytes_New rnd L Hrnd ltac:(lia)) as (ib & Eh & Hk & Hin).
  set (cld := lengthBytes (Z.to_nat (bytecount L)) L) in *.
  set (hdata := ib :: cld) in *.
  assert (Hlen : len hdata = bytecount L + 1).
  { unfold hdata, cld, len. simpl. rewrite lengthBytes_length. lia. }
  assert (Hhd : Forall isByte hdata).
  { constructor; [|apply lengthBytes_bytes].
    apply class_New_elem in Hin. unfold isByte. lia. }
  assert (Hsz : headerSize New (nthb hdata 0) = len hdata).
  { change (nthb hdata 0) with ib. rewrite (headerSize_class ib _ Hin). lia. }
  assert (Hcl : contentLength 0 (drop 1 hdata) = L).
  { change (drop 1 hdata) with cld. unfold cld.
    rewrite contentLength_value by apply lengthBytes_bytes.
    rewrite lengthBytes_value by lia. rewrite Z2Nat.id by lia.
    apply Z.mod_small. pose proof (bytecount_bound L ltac:(lia)). lia. }
  assert (HhL : len hdata <= L).
  { rewrite Hlen, (bytecount_cases L) by lia.
    destruct (L <? 2 ^ 8) eqn:E8; [lia|].
    destruct (L <? 2 ^ 16); [lia|]. destruct (L <? 2 ^ 24); lia. }
  set (step := stride (cap - len hdata) L).
  destruct (stride_at_least_4 (cap - len hdata) L ltac:(lia) ltac:(lia))
    as [Hstep Hspan]. fold step in Hstep, Hspan.
  unfold roundTrip. rewrite (Conceal_header rnd data hdata img Eh).
  unfold ConcealWith. fold W H cap L.
  replace (cap - len hdata <? L) with false by lia. fold step.
  assert (Hpx : forall x y, 0 <= x < W -> 0 <= y < H ->
            exists c, concealPixel hdata data step img x y = Ok c /\
              nA c = 255 /\ isByte (nR c) /\ isByte (nG c) /\ isByte (nB c) /\
              cellSpec step hdata data ((x + y * W) * 3 + 0) (nR c) /\
              cellSpec step hdata data ((x + y * W) * 3 + 1) (nG c) /\
              cellSpec step hdata data ((x + y * W) * 3 + 2) (nB c)).
  { intros x y Hx Hy.
    assert (Hidx : 0 <= x + y * W < W * H) by nia.
    destruct (concealPixel_cells hdata data step img x y Hstep
                ltac:(fold W; lia) Hhd Hdt HhL)
      as (c & Hc & Ha & Hr & Hg & Hb & Hs).
    exists c. split; [exact Hc|]. split; [|tauto].
    rewrite Ha.
    pose proof (At_lookup img x y ltac:(fold W; rewrite Hpix; lia)) as Hat.
    unfold opaque in Hop. rewrite Forall_forall in Hop.
    pose proof (Hop _ (list_elem_of_lookup_2 _ _ _ Hat)) as HA.
    assert (Hq : cA (At img x y) / 256 = 255)
      by (symmetry; apply Z.div_unique with (cA (At img x y) - 65280); lia).
    rewrite Hq. reflexivity. }
  pose proof (concealLoop_inv hdata data step img Hw Hh) as Hinv.
  destruct (concealLoop hdata data step img) as [out|e].
  2:{ destruct Hinv as (x & y & Hx & Hy & Herr).
      destruct (Hpx x y Hx Hy) as (c & Hc & _).
      rewrite Hc in Herr. discriminate. }
  cbn [mbind result_bind].
  destruct Hinv as (Hdw & Hdh & Hlenp & Hall). fold W H in Hdw, Hdh, Hlenp, Hall.
  assert (Hloop : exists st,
            revealLoop New (decodeSteganogram out) = Ok st /\
            revealed step hdata data (W * H * 3) st).
  { unfold revealLoop. cbn [width height decodeSteganogram].
    rewrite Hdw, Hdh. fold cap.
    set (img' := decodeSteganogram out).
    pose proof (forM_seqZ_inv
      (fun y st => revealed step hdata data (y * W * 3) st) (fun _ => False)
      (fun st y => forM (fun st x => revealPixel New cap img' x y st)
                        (seqZ 0 W) st)
      0 H rstate0 Hh) as Hrows.
    cbv beta in Hrows.
    replace ((0 + H) * W * 3) with (W * H * 3) in Hrows by lia.
    match type of Hrows with _ -> _ -> ?G =>
      assert (HG : G); [apply Hrows; clear Hrows|] end.
    - intros y st Hy Hst.
      pose proof (forM_seqZ_inv
        (fun x st => revealed step hdata data ((y * W + x) * 3) st)
        (fun _ => False)
        (fun st x => revealPixel New cap img' x y st) 0 W st Hw) as Hcols.
      cbv beta in Hcols.
      replace ((y * W + (0 + W)) * 3) with ((y + 1) * W * 3) in Hcols by lia.
      apply Hcols; clear Hcols.
      + intros x s Hx Hs.
        destruct (Hpx x y ltac:(lia) Hy)
          as (c & Hc & Ha & Hr & Hg & Hb & Hsr & Hsg & Hsb).
        assert (Hidx : 0 <= x + y * W < W * H) by nia.
        destruct (Hall x y ltac:(lia) Hy ltac:(lia)) as (c' & Hc' & Hl).
        rewrite Hc in Hc'. injection Hc' as <-.
        assert (Hat : At img' x y = NRGBA_RGBA c).
        { unfold At, img'. cbn [pix width decodeSteganogram].
          rewrite Hdw, list_lookup_fmap, Hl. reflexivity. }
        assert (Hw' : width img' = W) by exact Hdw.
        destruct (revealed_pixel cap step hdata data Hhd Hdt
                    ltac:(lia) Hsz Hcl eq_refl Hstep img' x y c s Hat Ha Hr Hg Hb)
          as (s' & Hs' & Hrev'); rewrite ?Hw'; try assumption; try lia.
        * replace ((x + y * W) * 3) with ((y * W + x) * 3) by lia. exact Hs.
        * rewrite Hs'.
          replace ((y * W + (x + 1)) * 3) with ((x + y * W + 1) * 3) by lia.
          rewrite Hw' in Hrev'. exact Hrev'.
      + replace ((y * W + 0) * 3) with (y * W * 3) by lia. exact Hst.
    - left. cbn. repeat split; try lia.
      change (2 ^ (2 * (0 * W * 3))) with (2 ^ (2 * (0 * W * 3))).
      replace (0 * W * 3) with 0 by lia. change (2 ^ (2 * 0)) with 1.
      rewrite Z.mod_1_r. reflexivity.
    - destruct (forM _ (seqZ 0 H) rstate0) as [st|e]; [|contradiction].
      exists st. split; [reflexivity | exact HG]. }
  destruct Hloop as (st & Hst & Hrev).
  unfold Reveal. rewrite Hst. cbn [mbind result_bind].
  assert (HT : len hdata * 4 + L * step <= W * H * 3).
  { pose proof (Z.mul_div_le (W * H * 3) 4 ltac:(lia)). lia. }
  destruct Hrev as [(Hlt & _) | [(Hlt & _) | (_ & Hrev)]]; [nia | nia |].
  cbv zeta in Hrev. destruct Hrev as (_ & _ & Hd & _).
  rewrite Hd. unfold slice; cbn [from_option id].
  set (k := W * H * 3 - len hdata * 4) in *.
  assert (Hkq : L <= k / step) by (apply Z.div_le_lower_bound; unfold k; lia).
  replace (Z.min (len data) (k / step + (if 4 <=? k mod step then 1 else 0)))
    with (len data) by (fold L; destruct (4 <=? k mod step); lia).
  rewrite filled_all. reflexivity.
Qed.

(** ** What [Reveal] returns on any image *)

(** [px[ci]] of [Reveal] at the available encoding byte [n]: the channel
    [n mod 3] of the pixel [n / 3], divided by 256. *)
Definition cellValue (img : Image) (n : Z) : Z :=
  let pxi := n / 3 in
  uint8 (channel16 (At img (pxi mod width img) (pxi / width img)) (n mod 3)
         / 256).

(** The two low bits of the available encoding byte [n]. *)
Definition cellBits (img : Image) (n : Z) : Z := Z.land (cellValue img n) 3.

(** The byte that the four available encoding bytes from [n] hold in their
    low bits, the low bits of the byte first. *)
Definition cellByte (img : Image) (n : Z) : Z :=
  cellBits img n + 4 * cellBits img (n + 1) + 16 * cellBits img (n + 2)
  + 64 * cellBits img (n + 3).

(** The header that an image announces: its length, from the byte in the
    first four available encoding bytes; its bytes; the content length that
    they decode to; and the stride for that length. *)
Definition imageHeaderSize (img : Image) : Z := headerSize New (cellByte img 0).

Definition imageHeader (img : Image) : list Z :=
  (fun j => cellByte img (4 * j)) <$> seqZ 0 (imageHeaderSize img).

Definition imageLength (img : Image) : Z :=
  contentLength 0 (drop 1 (imageHeader img)).

Definition imageStride (img : Image) : Z :=
  stride (CalculateCapacity (width img) (height img) 3 2 - imageHeaderSize img)
         (imageLength img).

(** The content byte [j] that the image holds: the byte of the four
    available encoding bytes from [4 * hlen + j * step], when the stride is
    at least 4 and the image has all four; zero otherwise. *)
Definition imageByte (img : Image) (j : Z) : Z :=
  let first := 4 * imageHeaderSize img + j * imageStride img in
  if (4 <=? imageStride img)
     && (first + 3 <? width img * height img * 3)
  then cellByte img first else 0.

Lemma cellValue_at (img : Image) (x y ci : Z) :
  0 <= x < width img -> 0 <= y -> 0 <= ci < 3 ->
  cellValue img ((x + y * width img) * 3 + ci)
  = uint8 (channel16 (At img x y) ci / 256).
Proof.
  intros Hx Hy Hci. unfold cellValue. cbv zeta.
  assert (Hq : ((x + y * width img) * 3 + ci) / 3 = x + y * width img)
    by (symmetry; apply Z.div_unique with ci; lia).
  assert (Hr : ((x + y * width img) * 3 + ci) mod 3 = ci)
    by (symmetry; apply Z.mod_unique with (x + y * width img); lia).
  assert (Hxm : (x + y * width img) mod width img = x)
    by (symmetry; apply Z.mod_unique with y; lia).
  assert (Hyq : (x + y * width img) / width img = y)
    by (symmetry; apply Z.div_unique with x; lia).
  rewrite Hq, Hr, Hxm, Hyq. reflexivity.
Qed.

Lemma cellBits_range (img : Image) (n : Z) : 0 <= cellBits img n < 4.
Proof.
  unfold cellBits. change 3 with (Z.ones 2).
  rewrite Z.land_ones by lia. apply Z.mod_pos_bound. lia.
Qed.

Lemma cellByte_isByte (img : Image) (n : Z) : isByte (cellByte img n).
Proof.
  unfold isByte, cellByte.
  pose proof (cellBits_range img n). pose proof (cellBits_range img (n + 1)).
  pose proof (cellBits_range img (n + 2)).
  pose proof (cellBits_range img (n + 3)). lia.
Qed.

Lemma chunk_cellByte (img : Image) (n r : Z) :
  0 <= r < 4 -> chunk (cellByte img n) (r * 2) = cellBits img (n + r).
Proof.
  intros Hr. unfold chunk, cellByte.
  pose proof (cellBits_range img n) as H0.
  pose proof (cellBits_range img (n + 1)) as H1.
  pose proof (cellBits_range img (n + 2)) as H2.
  pose proof (cellBits_range img (n + 3)) as H3.
  set (c0 := cellBits img n) in *. set (c1 := cellBits img (n + 1)) in *.
  set (c2 := cellBits img (n + 2)) in *. set (c3 := cellBits img (n + 3)) in *.
  change 3 with (Z.ones 2). rewrite Z.land_ones by lia.
  rewrite Z.shiftr_div_pow2 by lia.
  assert (r = 0 \/ r = 1 \/ r = 2 \/ r = 3) as [-> | [-> | [-> | ->]]] by lia.
  - rewrite Z.add_0_r. fold c0. change (2 ^ (0 * 2)) with 1. rewrite Z.div_1_r.
    symmetry. apply Z.mod_unique with (c1 + 4 * c2 + 16 * c3); lia.
  - fold c1. change (2 ^ (1 * 2)) with 4.
    replace ((c0 + 4 * c1 + 16 * c2 + 64 * c3) / 4) with (c1 + 4 * c2 + 16 * c3)
      by (apply Z.div_unique with c0; lia).
    symmetry. apply Z.mod_unique with (c2 + 4 * c3); lia.
  - fold c2. change (2 ^ (2 * 2)) with 16.
    replace ((c0 + 4 * c1 + 16 * c2 + 64 * c3) / 16) with (c2 + 4 * c3)
      by (apply Z.div_unique with (c0 + 4 * c1); lia).
    symmetry. apply Z.mod_unique with c3; lia.
  - fold c3. change (2 ^ (3 * 2)) with 64.
    replace ((c0 + 4 * c1 + 16 * c2 + 64 * c3) / 64) with c3
      by (apply Z.div_unique with (c0 + 4 * c1 + 16 * c2); lia).
    apply Z.mod_small. lia.
Qed.

(** The loops of [Reveal] over the pixels and the channels, as one walk
    over the available encoding bytes. *)
Lemma revealLoop_cells (Inv : Z -> rstate -> Prop) (E : error -> Prop)
    (img : Image) :
  0 <= width img -> 0 <= height img ->
  (forall n st, 0 <= n < width img * height img * 3 -> Inv n st ->
     match revealCell New (CalculateCapacity (width img) (height img) 3 2)
                      st n (cellValue img n) with
     | Ok st' => Inv (n + 1) st'
     | Err e => E e
     end) ->
  Inv 0 rstate0 ->
  match revealLoop New img with
  | Ok st => Inv (width img * height img * 3) st
  | Err e => E e
  end.
Proof.
  intros Hw Hh Hcell H0. unfold revealLoop.
  set (W := width img) in *. set (H := height img) in *.
  set (cap := CalculateCapacity W H 3 2) in *.
  pose proof (forM_seqZ_inv
    (fun y st => Inv (y * W * 3) st) E
    (fun st y => forM (fun st x => revealPixel New cap img x y st)
                      (seqZ 0 W) st)
    0 H rstate0 Hh) as Hrows.
  cbv beta in Hrows.
  replace ((0 + H) * W * 3) with (W * H * 3) in Hrows by lia.
  apply Hrows; clear Hrows; [|exact H0].
  intros y st Hy Hst.
  pose proof (forM_seqZ_inv
    (fun x st => Inv ((y * W + x) * 3) st) E
    (fun st x => revealPixel New cap img x y st) 0 W st Hw) as Hcols.
  cbv beta in Hcols.
  replace ((y * W + (0 + W)) * 3) with ((y + 1) * W * 3) in Hcols by lia.
  apply Hcols; clear Hcols.
  - intros x s Hx Hs.
    assert (Hidx : 0 <= x + y * W < W * H) by nia.
    assert (Hx' : 0 <= x < width img) by (fold W; lia).
    assert (Hy' : 0 <= y) by lia.
    pose proof (cellValue_at img x y 0 Hx' Hy' ltac:(lia)) as V0.
    pose proof (cellValue_at img x y 1 Hx' Hy' ltac:(lia)) as V1.
    pose proof (cellValue_at img x y 2 Hx' Hy' ltac:(lia)) as V2.
    change (channel16 (At img x y) 0) with (cR (At img x y)) in V0.
    change (channel16 (At img x y) 1) with (cG (At img x y)) in V1.
    change (channel16 (At img x y) 2) with (cB (At img x y)) in V2.
    fold W in V0, V1, V2.
    unfold revealPixel. fold W. rewrite <- V0, <- V1, <- V2.
    set (n := (x + y * W) * 3) in *.
    replace ((y * W + x) * 3) with (n + 0) in Hs by (unfold n; lia).
    assert (Hn0 : 0 <= n + 0 < W * H * 3) by (unfold n; lia).
    assert (Hn1 : 0 <= n + 1 < W * H * 3) by (unfold n; lia).
    assert (Hn2 : 0 <= n + 2 < W * H * 3) by (unfold n; lia).
    pose proof (Hcell (n + 0) s Hn0 Hs) as C0.
    destruct (revealCell New cap s (n + 0) (cellValue img (n + 0)))
      as [s1|e]; cbn [mbind result_bind]; [|exact C0].
    replace (n + 0 + 1) with (n + 1) in C0 by lia.
    pose proof (Hcell (n + 1) s1 Hn1 C0) as C1.
    destruct (revealCell New cap s1 (n + 1) (cellValue img (n + 1)))
      as [s2|e]; cbn [mbind result_bind]; [|exact C1].
    replace (n + 1 + 1) with (n + 2) in C1 by lia.
    pose proof (Hcell (n + 2) s2 Hn2 C1) as C2.
    destruct (revealCell New cap s2 (n + 2) (cellValue img (n + 2)))
      as [s3|e]; [|exact C2].
    replace ((y * W + (x + 1)) * 3) with (n + 2 + 1) by (unfold n; lia).
    exact C2.
  - replace ((y * W + 0) * 3) with (y * W * 3) by lia. exact Hst.
Qed.

(** The content bytes that the image holds, as [Reveal] would store them
    if the image had all their available encoding bytes. *)
Definition imageData (img : Image) : list Z :=
  (fun j => cellByte img (4 * imageHeaderSize img + j * imageStride img))
    <$> seqZ 0 (imageLength img).

Lemma fmap_seqZ_len (f : Z -> Z) (n : Z) :
  0 <= n -> len (f <$> seqZ 0 n) = n.
Proof.
  intros Hn. unfold len. rewrite length_fmap, length_seqZ. apply Z2Nat.id, Hn.
Qed.

Lemma fmap_seqZ_lookup (f : Z -> Z) (n q b : Z) :
  0 <= q -> (f <$> seqZ 0 n) !! Z.to_nat q = Some b -> b = f q.
Proof.
  intros Hq Hl. rewrite list_lookup_fmap in Hl.
  destruct (seqZ 0 n !! Z.to_nat q) as [j|] eqn:Ej; [|discriminate].
  apply lookup_seqZ in Ej as [-> _]. injection Hl as <-.
  rewrite Z.add_0_l, Z2Nat.id by exact Hq. reflexivity.
Qed.

Lemma fmap_bytes (f : Z -> Z) (l : list Z) :
  (forall j, isByte (f j)) -> Forall isByte (f <$> l).
Proof.
  intros Hf. induction l as [|j l IH]; constructor; [apply Hf | exact IH].
Qed.

Lemma imageHeaderSize_range (img : Image) : 2 <= imageHeaderSize img <= 5.
Proof. exact (headerSize_range (cellByte img 0)). Qed.

Lemma imageHeader_len (img : Image) :
  len (imageHeader img) = imageHeaderSize img.
Proof.
  pose proof (imageHeaderSize_range img) as Hr.
  exact (fmap_seqZ_len (fun j => cellByte img (4 * j)) (imageHeaderSize img)
           ltac:(lia)).
Qed.

Lemma imageHeader_lookup (img : Image) (q b : Z) :
  0 <= q -> imageHeader img !! Z.to_nat q = Some b -> b = cellByte img (4 * q).
Proof.
  exact (fmap_seqZ_lookup (fun j => cellByte img (4 * j))
           (imageHeaderSize img) q b).
Qed.

Lemma imageHeader_bytes (img : Image) : Forall isByte (imageHeader img).
Proof.
  exact (fmap_bytes (fun j => cellByte img (4 * j))
           (seqZ 0 (imageHeaderSize img))
           (fun j => cellByte_isByte img (4 * j))).
Qed.

Lemma imageHeader_first (img : Image) :
  nthb (imageHeader img) 0 = cellByte img 0.
Proof.
  pose proof (imageHeader_len img) as Hl.
  pose proof (imageHeaderSize_range img) as Hr.
  assert (H0 : 0 <= 0 < len (imageHeader img)) by (rewrite Hl; lia).
  destruct (lookup_byte (imageHeader img) 0 (imageHeader_bytes img) H0)
    as (b & Hb & _).
  rewrite (nthb_lookup _ _ _ Hb).
  apply (imageHeader_lookup img 0 b (Z.le_refl 0)) in Hb. exact Hb.
Qed.

Lemma le_value_bound (l : list Z) :
  Forall isByte l -> 0 <= le_value l < 256 ^ len l.
Proof.
  induction 1 as [|b l Hb _ IH].
  - change (0 <= 0 < 1). lia.
  - cbn [le_value]. unfold len in *. rewrite length_cons, Nat2Z.inj_succ.
    rewrite Z.pow_succ_r by lia. unfold isByte in Hb.
    set (p := 256 ^ Z.of_nat (length l)) in *. lia.
Qed.

Lemma imageLength_range (img : Image) : 0 <= imageLength img < 2 ^ 32.
Proof.
  unfold imageLength.
  pose proof (imageHeader_len img) as Hl.
  pose proof (imageHeaderSize_range img) as Hr.
  pose proof (imageHeader_bytes img) as Hb.
  set (hlen := imageHeaderSize img) in *. set (hdata := imageHeader img) in *.
  clearbody hdata hlen.
  assert (Hd : Forall isByte (drop 1 hdata)) by (apply Forall_drop, Hb).
  rewrite contentLength_value by exact Hd.
  pose proof (le_value_bound _ Hd) as Hv.
  assert (Hlen : 0 <= len (drop 1 hdata) <= 4).
  { unfold len in *. rewrite length_drop. lia. }
  assert (Hp : 256 ^ len (drop 1 hdata) <= 256 ^ 4)
    by (apply Z.pow_le_mono_r; lia).
  change (256 ^ 4) with 4294967296 in Hp. change (2 ^ 32) with 4294967296.
  set (p := 256 ^ len (drop 1 hdata)) in *. lia.
Qed.

Lemma imageData_len (img : Image) : len (imageData img) = imageLength img.
Proof.
  exact (fmap_seqZ_len _ (imageLength img) (proj1 (imageLength_range img))).
Qed.

Lemma imageData_lookup (img : Image) (q b : Z) :
  0 <= q -> imageData img !! Z.to_nat q = Some b ->
  b = cellByte img (4 * imageHeaderSize img + q * imageStride img).
Proof.
  exact (fmap_seqZ_lookup
           (fun j => cellByte img (4 * imageHeaderSize img + j * imageStride img))
           (imageLength img) q b).
Qed.

Lemma imageData_bytes (img : Image) : Forall isByte (imageData img).
Proof.
  exact (fmap_bytes
           (fun j => cellByte img (4 * imageHeaderSize img + j * imageStride img))
           (seqZ 0 (imageLength img))
           (fun j => cellByte_isByte img _)).
Qed.

(** Every available encoding byte of the header holds the bits of the
    header that the image announces. *)
Lemma image_cellSpec_header (img : Image) (n : Z) :
  0 <= n < 4 * imageHeaderSize img ->
  cellSpec (imageStride img) (imageHeader img) (imageData img) n
           (cellValue img n).
Proof.
  intros Hn. rewrite <- imageHeader_len in Hn. split.
  - intros b _ Hb.
    pose proof (Z.div_mod n 4 ltac:(lia)) as Hdm.
    pose proof (Z.mod_pos_bound n 4 ltac:(lia)) as Hm.
    apply imageHeader_lookup in Hb; [|apply Z.div_pos; lia].
    rewrite Hb, chunk_cellByte by lia.
    unfold cellBits. f_equal. f_equal. lia.
  - intros b Hge. lia.
Qed.

(** And so does every one past the header, for a stride of 4 or more. *)
Lemma image_cellSpec (img : Image) (n : Z) :
  0 <= n -> 0 < imageStride img ->
  cellSpec (imageStride img) (imageHeader img) (imageData img) n
           (cellValue img n).
Proof.
  intros Hn Hstep.
  destruct (Z.lt_ge_cases n (4 * imageHeaderSize img)) as [Hlt|Hge].
  - apply image_cellSpec_header. lia.
  - rewrite <- imageHeader_len in Hge. split.
    + intros b Hlt. lia.
    + intros b _ Hr Hb.
      set (k := n - len (imageHeader img) * 4) in *.
      pose proof (Z.div_mod k (imageStride img) ltac:(lia)) as Hdm.
      pose proof (Z.mod_pos_bound k (imageStride img) Hstep) as Hm.
      apply imageData_lookup in Hb; [|apply Z.div_pos; unfold k; lia].
      rewrite Hb, chunk_cellByte by lia.
      unfold cellBits. f_equal. f_equal.
      rewrite <- imageHeader_len. unfold k in *. lia.
Qed.

Lemma revealed_start (step : Z) (hdata data : list Z) :
  revealed step hdata data 0 rstate0.
Proof.
  left. cbn [hdataR dataR clenR dbyte rstate0].
  repeat split; try lia.
  change (2 ^ (2 * 0)) with 1. rewrite Z.mod_1_r. reflexivity.
Qed.

(** With a stride of 4 or more, [Reveal] fills the buffer with the bytes
    that the image holds. *)
Lemma revealLoop_wide (img : Image) :
  0 <= width img -> 0 <= height img ->
  4 <= imageStride img ->
  exists st, revealLoop New img = Ok st /\
    revealed (imageStride img) (imageHeader img) (imageData img)
             (width img * height img * 3) st.
Proof.
  intros Hw Hh Hstep.
  pose proof (headerSize_range (cellByte img 0)) as Hr.
  fold (imageHeaderSize img) in Hr.
  pose proof (revealLoop_cells
    (revealed (imageStride img) (imageHeader img) (imageData img))
    (fun _ => False) img Hw Hh) as Hloop.
  match type of Hloop with _ -> _ -> ?G =>
    assert (HG : G); [apply Hloop; clear Hloop|] end.
  - intros n st Hn Hrev.
    destruct (revealed_cell
                (CalculateCapacity (width img) (height img) 3 2)
                (imageStride img) (imageHeader img) (imageData img)
                (imageHeader_bytes img) (imageData_bytes img))
      with (n := n) (v := cellValue img n) (st := st)
      as (st' & -> & Hrev'); try assumption; try lia.
    + rewrite imageHeader_len. exact Hr.
    + rewrite imageHeader_first, imageHeader_len. reflexivity.
    + rewrite imageData_len. reflexivity.
    + rewrite imageHeader_len, imageData_len. reflexivity.
    + apply image_cellSpec; lia.
  - apply revealed_start.
  - destruct (revealLoop New img) as [st|e]; [|contradiction].
    exists st. split; [reflexivity | exact HG].
Qed.

(** The variables of [Reveal] past the header when no content byte can
    complete: the buffer stays as it was made. *)
Definition quiet (step : Z) (hdata : list Z) (clen n : Z) (st : rstate)
  : Prop :=
  hdataR st = Some hdata /\ stepR st = step /\
  dataR st = Some (replicate (Z.to_nat clen) 0) /\
  (step = 0 -> n = len hdata * 4).

Lemma quiet_cell (cap step : Z) (hdata : list Z) (clen n v : Z)
    (st : rstate) :
  len hdata * 4 <= n < 2 ^ 63 -> 0 <= len hdata ->
  0 <= step <= 3 \/ (clen = 0 /\ step = int_indefinite) ->
  quiet step hdata clen n st ->
  match revealCell New cap st n v with
  | Ok st' => quiet step hdata clen (n + 1) st'
  | Err e => e = RuntimePanic DivideByZero /\ step = 0
  end.
Proof.
  intros Hn Hlen Hregime (Hh & Hs & Hd & H0).
  unfold revealCell, indices, inHeaderR. rewrite Hh, Hd, Hs.
  unfold slice; cbn [from_option id].
  replace (n <? len hdata * 4) with false by lia.
  set (k := n - len hdata * 4). assert (Hk : 0 <= k < 2 ^ 63) by (unfold k; lia).
  destruct Hregime as [Hstep | [-> ->]].
  - destruct (Z.eq_dec step 0) as [-> | Hnz].
    + change (0 =? 0) with true. cbn [mbind result_bind]. split; reflexivity.
    + replace (step =? 0) with false by lia. cbn [mbind result_bind].
      rewrite Z.rem_mod_nonneg by lia.
      pose proof (Z.mod_pos_bound k step ltac:(lia)) as Hm.
      destruct ((k mod step * 2 <? 8) && _).
      * rewrite revealBits_partial by lia.
        repeat split; try assumption. intros; lia.
      * repeat split; try assumption. intros; lia.
  - change (int_indefinite =? 0) with false. cbn [mbind result_bind].
    assert (Hq : Z.quot k int_indefinite = 0).
    { unfold int_indefinite. rewrite Z.quot_opp_r by lia.
      rewrite Z.quot_small by lia. reflexivity. }
    rewrite Hq. change (0 <? len (replicate (Z.to_nat 0) 0)) with false.
    rewrite andb_false_r.
    repeat split; try assumption. intros E; discriminate E.
Qed.

(** After the last available encoding byte of the header the buffer is
    made, full of zeros, whatever the stride is. *)
Lemma revealed_handover (step : Z) (hdata data : list Z) (n : Z)
    (st : rstate) :
  2 <= len hdata -> n = len hdata * 4 ->
  revealed step hdata data n st -> quiet step hdata (len data) n st.
Proof.
  intros Hlen -> [(Hlt & _) | [(Hlt & _) | (_ & Hrev)]]; [lia | lia |].
  cbv zeta in Hrev. rewrite Z.sub_diag, Zdiv_0_l, Zmod_0_l in Hrev.
  destruct Hrev as (Hh & Hs & Hd & _).
  change (4 <=? 0) with false in Hd. cbv iota in Hd.
  replace (Z.min (len data) (0 + 0)) with 0 in Hd by (unfold len; lia).
  rewrite filled_0 in Hd.
  unfold quiet.
  replace (Z.to_nat (len data)) with (length data) by (unfold len; lia).
  split; [exact Hh|]. split; [exact Hs|]. split; [exact Hd|].
  intros _. reflexivity.
Qed.

(** The variables of [Reveal] before the available encoding byte [n], in
    the header and then with a buffer that stays as it was made. *)
Definition decoding (step : Z) (hdata data : list Z) (n : Z) (st : rstate)
  : Prop :=
  (n < len hdata * 4 /\ revealed step hdata data n st) \/
  (len hdata * 4 <= n /\ quiet step hdata (len data) n st).

Lemma decoding_cell (cap step : Z) (hdata data : list Z) (n v : Z)
    (st : rstate) :
  Forall isByte hdata -> 2 <= len hdata <= 5 ->
  headerSize New (nthb hdata 0) = len hdata ->
  contentLength 0 (drop 1 hdata) = len data ->
  stride (cap - len hdata) (len data) = step ->
  0 <= n < 2 ^ 63 ->
  (n < len hdata * 4 -> cellSpec step hdata data n v) ->
  (len hdata * 4 <= n ->
   0 <= step <= 3 \/ (len data = 0 /\ step = int_indefinite)) ->
  decoding step hdata data n st ->
  match revealCell New cap st n v with
  | Ok st' => decoding step hdata data (n + 1) st'
  | Err e => e = RuntimePanic DivideByZero /\ step = 0 /\ len hdata * 4 <= n
  end.
Proof.
  intros Hhd Hhlen Hsz Hcl Hst Hn Hspec Hregime [[Hlt Hrev] | [Hge Hq]].
  - destruct (revealed_header_cell cap step hdata data Hhd Hhlen Hsz Hcl Hst
                n v st ltac:(lia) (Hspec Hlt) Hrev) as (st' & -> & Hrev').
    destruct (Z.eq_dec (n + 1) (len hdata * 4)) as [Heq | Hne].
    + right. split; [lia|].
      apply revealed_handover; [lia | exact Heq | exact Hrev'].
    + left. split; [lia | exact Hrev'].
  - pose proof (quiet_cell cap step hdata (len data) n v st ltac:(lia)
                  ltac:(lia) (Hregime Hge) Hq) as Hc.
    destruct (revealCell New cap st n v) as [st'|e].
    + right. split; [lia | exact Hc].
    + destruct Hc as [He Hs]. repeat split; assumption.
Qed.

(** When no content byte can complete, [Reveal] returns the buffer as it
    was made, or stops on the first available encoding byte past the header
    if the stride is zero. *)
Lemma revealLoop_quiet (img : Image) :
  0 <= width img -> 0 <= height img ->
  width img * height img * 8 < 2 ^ 63 ->
  (4 * imageHeaderSize img <= width img * height img * 3 ->
   0 <= imageStride img <= 3 \/
   (imageLength img = 0 /\ imageStride img = int_indefinite)) ->
  match revealLoop New img with
  | Ok st => decoding (imageStride img) (imageHeader img) (imageData img)
                      (width img * height img * 3) st
  | Err e => e = RuntimePanic DivideByZero /\ imageStride img = 0 /\
             4 * imageHeaderSize img < width img * height img * 3
  end.
Proof.
  intros Hw Hh Hsize Hregime.
  pose proof (imageHeaderSize_range img) as Hr.
  pose proof (imageHeader_len img) as Hl.
  pose proof (imageData_len img) as Hd.
  apply (revealLoop_cells
    (decoding (imageStride img) (imageHeader img) (imageData img))
    (fun e => e = RuntimePanic DivideByZero /\ imageStride img = 0 /\
              4 * imageHeaderSize img < width img * height img * 3)
    img Hw Hh).
  - intros n st Hn Hdec.
    pose proof (decoding_cell
      (CalculateCapacity (width img) (height img) 3 2)
      (imageStride img) (imageHeader img) (imageData img)
      n (cellValue img n) st (imageHeader_bytes img)) as Hc.
    rewrite Hl, Hd, imageHeader_first in Hc.
    specialize (Hc Hr eq_refl eq_refl eq_refl).
    assert (Hn' : 0 <= n < 2 ^ 63) by lia.
    specialize (Hc Hn').
    assert (Hspec : n < imageHeaderSize img * 4 ->
              cellSpec (imageStride img) (imageHeader img) (imageData img) n
                       (cellValue img n))
      by (intros Hlt; apply image_cellSpec_header; lia).
    assert (Hreg : imageHeaderSize img * 4 <= n ->
              0 <= imageStride img <= 3 \/
              (imageLength img = 0 /\ imageStride img = int_indefinite))
      by (intros Hge; apply Hregime; lia).
    specialize (Hc Hspec Hreg Hdec).
    destruct (revealCell New _ st n (cellValue img n)) as [st'|e];
      [exact Hc|].
    destruct Hc as (He & Hs & Hge). repeat split; try assumption. lia.
  - left. split; [lia | apply revealed_start].
Qed.

Lemma nthb_replicate (n : nat) (j : Z) : nthb (replicate n 0) j = 0.
Proof.
  unfold nthb. destruct (replicate n 0 !! Z.to_nat j) as [b|] eqn:E;
    [|reflexivity].
  apply lookup_replicate in E as [-> _]. reflexivity.
Qed.

Lemma nthb_filled (l : list Z) (c j : Z) :
  0 <= c -> 0 <= j ->
  nthb (filled l c) j = if j <? c then nthb l j else 0.
Proof.
  intros Hc Hj. unfold nthb, filled.
  destruct (j <? c) eqn:E.
  - destruct (l !! Z.to_nat j) as [b|] eqn:El.
    + rewrite (lookup_app_l_Some _ _ _ b); [reflexivity|].
      rewrite lookup_take_lt by lia. exact El.
    + apply lookup_ge_None in El.
      rewrite lookup_ge_None_2; [reflexivity|].
      rewrite length_app, length_take, length_replicate. lia.
  - destruct (decide (Z.to_nat j < length l)%nat) as [Hlt|Hge].
    + rewrite lookup_app_r by (rewrite length_take; lia).
      destruct (replicate _ 0 !! _) as [b|] eqn:Er; [|reflexivity].
      apply lookup_replicate in Er as [-> _]. reflexivity.
    + rewrite lookup_ge_None_2; [reflexivity|].
      rewrite length_app, length_take, length_replicate. lia.
Qed.

Lemma complete_iff (k s j : Z) :
  0 <= k -> 4 <= s -> 0 <= j ->
  (j <? k / s + (if 4 <=? k mod s then 1 else 0)) = (j * s + 3 <? k).
Proof.
  intros Hk Hs Hj.
  pose proof (Z.div_mod k s ltac:(lia)) as Hdm.
  pose proof (Z.mod_pos_bound k s ltac:(lia)) as Hm.
  set (q := k / s) in *. set (r := k mod s) in *.
  destruct (4 <=? r) eqn:E4; destruct (j * s + 3 <? k) eqn:Ek;
    try (apply Z.ltb_lt); try (apply Z.ltb_ge); nia.
Qed.

Lemma imageData_nth (img : Image) (j : Z) :
  0 <= j < imageLength img ->
  nthb (imageData img) j
  = cellByte img (4 * imageHeaderSize img + j * imageStride img).
Proof.
  intros Hj.
  assert (Hj' : 0 <= j < len (imageData img)) by (rewrite imageData_len; exact Hj).
  destruct (lookup_byte (imageData img) j (imageData_bytes img) Hj')
    as (b & Hb & _).
  rewrite (nthb_lookup _ _ _ Hb).
  apply (imageData_lookup img j b (proj1 Hj)) in Hb. exact Hb.
Qed.

(** ** C4, amended *)

(** C4, amended: [Reveal] has no error for a malformed steganogram.  An
    index byte 0 is not in the reverse map, reads as the zero value and
    announces a header of two bytes like an index byte of class 0.  On every
    decoded image [Reveal] returns a buffer or stops with the integer
    division by a stride of zero.  With [hlen] the length of the header that
    the byte in the first four available encoding bytes announces, [clen]
    the length that the rest of the header decodes to and [step] the stride
    for that length: an image with fewer than [4 * hlen] available encoding
    bytes gives the empty buffer; a length of 0 gives the empty buffer or
    that panic; and a length of 1 or more, on a capacity below [2^51], gives
    the panic exactly when the stride is 0 and an available encoding byte
    follows the header, and otherwise a buffer of exactly [clen] bytes,
    whatever the image can hold, whose byte [j] is the byte of the four
    available encoding bytes from [4 * hlen + j * step] when the stride is
    at least 4 and the image has all four, and zero otherwise. *)
Theorem C4_reveal_outcomes (img : Image) :
  wf_image img ->
  let cells := width img * height img * 3 in
  let hlen := imageHeaderSize img in
  let clen := imageLength img in
  let step := imageStride img in
  headerSize New 0 = 2 /\
  ((exists d, Reveal New img = Ok d) \/
   Reveal New img = Err (RuntimePanic DivideByZero)) /\
  (cells < 4 * hlen -> Reveal New img = Ok []) /\
  (4 * hlen <= cells -> clen = 0 ->
   Reveal New img = Ok [] \/
   Reveal New img = Err (RuntimePanic DivideByZero)) /\
  (4 * hlen <= cells -> 1 <= clen ->
   CalculateCapacity (width img) (height img) 3 2 < 2 ^ 51 ->
   if (step =? 0) && (4 * hlen <? cells)
   then Reveal New img = Err (RuntimePanic DivideByZero)
   else exists d, Reveal New img = Ok d /\ len d = clen /\
          forall j, 0 <= j < clen -> nthb d j = imageByte img j).
Proof.
  intros [Hw Hh _ Hsize _]. cbv zeta.
  pose proof (imageHeaderSize_range img) as Hr.
  pose proof (imageHeader_len img) as Hl.
  pose proof (imageData_len img) as Hd.
  pose proof (imageLength_range img) as HL.
  pose proof (CalculateCapacity_32 _ _ Hw Hh Hsize) as Hcapv.
  split; [vm_compute; reflexivity|].
  split.
  { pose proof (revealLoop_inv img Hw Hh Hsize) as Hinv.
    unfold Reveal.
    destruct (revealLoop New img) as [st|e]; cbn [mbind result_bind].
    - left. eexists. reflexivity.
    - right. rewrite Hinv. reflexivity. }
  split.
  { intros Hlt.
    assert (Hreg : 4 * imageHeaderSize img <= width img * height img * 3 ->
              0 <= imageStride img <= 3 \/
              (imageLength img = 0 /\ imageStride img = int_indefinite))
      by (intros Hge; exfalso; lia).
    pose proof (revealLoop_quiet img Hw Hh Hsize Hreg) as Hq.
    unfold Reveal.
    destruct (revealLoop New img) as [st|e]; cbn [mbind result_bind].
    - destruct Hq as [[_ Hrev] | [Hge _]]; [|exfalso; lia].
      destruct Hrev as [(_ & _ & -> & _) | [(_ & _ & -> & _) | (Hge & _)]];
        [reflexivity | reflexivity | exfalso; lia].
    - destruct Hq as (_ & _ & Hge). exfalso. lia. }
  split.
  { intros Hge H0.
    assert (Hreg : 4 * imageHeaderSize img <= width img * height img * 3 ->
              0 <= imageStride img <= 3 \/
              (imageLength img = 0 /\ imageStride img = int_indefinite)).
    { intros _. right. split; [exact H0|].
      unfold imageStride. rewrite H0. apply stride_zero_length. }
    pose proof (revealLoop_quiet img Hw Hh Hsize Hreg) as Hq.
    unfold Reveal.
    destruct (revealLoop New img) as [st|e]; cbn [mbind result_bind].
    - left. destruct Hq as [[Hlt _] | [_ (_ & _ & Hdata & _)]];
        [exfalso; lia|].
      rewrite Hdata, Hd, H0. reflexivity.
    - right. destruct Hq as (-> & _). reflexivity. }
  intros Hge H1 Hcap.
  assert (Havail : 0 <= CalculateCapacity (width img) (height img) 3 2
                        - imageHeaderSize img).
  { rewrite Hcapv.
    assert (imageHeaderSize img <= width img * height img * 3 / 4)
      by (apply Z.div_le_lower_bound; lia).
    lia. }
  assert (Hstep : imageStride img
                  = 4 * (CalculateCapacity (width img) (height img) 3 2
                         - imageHeaderSize img) / imageLength img)
    by (unfold imageStride; apply stride_exact; lia).
  assert (Hs0 : 0 <= imageStride img)
    by (rewrite Hstep; apply Z.div_pos; lia).
  destruct (Z.lt_ge_cases (imageStride img) 4) as [Hlow | Hwide].
  - (* no content byte completes *)
    assert (Hreg : 4 * imageHeaderSize img <= width img * height img * 3 ->
              0 <= imageStride img <= 3 \/
              (imageLength img = 0 /\ imageStride img = int_indefinite))
      by (intros _; left; lia).
    pose proof (revealLoop_quiet img Hw Hh Hsize Hreg) as Hq.
    unfold Reveal.
    destruct ((imageStride img =? 0)
              && (4 * imageHeaderSize img <? width img * height img * 3))
      eqn:Eg.
    + apply andb_true_iff in Eg as [E0 Elt].
      apply Z.eqb_eq in E0. apply Z.ltb_lt in Elt.
      destruct (revealLoop New img) as [st|e]; cbn [mbind result_bind].
      * exfalso. destruct Hq as [[Hlt _] | [_ (_ & _ & _ & Hat)]]; [lia|].
        specialize (Hat E0). lia.
      * destruct Hq as (-> & _). reflexivity.
    + apply andb_false_iff in Eg.
      destruct (revealLoop New img) as [st|e]; cbn [mbind result_bind].
      * destruct Hq as [[Hlt _] | [_ (_ & _ & Hdata & _)]]; [exfalso; lia|].
        rewrite Hdata, Hd. unfold slice; cbn [from_option id].
        eexists. split; [reflexivity|].
        split; [apply len_replicate; lia|].
        intros j Hj. rewrite nthb_replicate. unfold imageByte. cbv zeta.
        replace (4 <=? imageStride img) with false by lia. reflexivity.
      * exfalso. destruct Hq as (_ & E0 & Elt).
        destruct Eg as [Eg | Eg];
          [apply Z.eqb_neq in Eg | apply Z.ltb_ge in Eg]; lia.
  - (* the content bytes of the image *)
    destruct (revealLoop_wide img Hw Hh Hwide) as (st & Hst & Hrev).
    replace (imageStride img =? 0) with false by lia. cbn [andb].
    unfold Reveal. rewrite Hst. cbn [mbind result_bind].
    destruct Hrev as [(Hlt & _) | [(Hlt & _) | (_ & Hrev)]];
      [exfalso; lia | exfalso; lia |].
    cbv zeta in Hrev. destruct Hrev as (_ & _ & Hdata & _).
    rewrite Hdata. unfold slice; cbn [from_option id].
    rewrite Hl, Hd in *.
    set (k := width img * height img * 3 - imageHeaderSize img * 4) in *.
    assert (Hk : 0 <= k) by (unfold k; lia).
    assert (Hq0 : 0 <= k / imageStride img) by (apply Z.div_pos; lia).
    set (m := Z.min (imageLength img) _).
    assert (Hm : 0 <= m <= imageLength img)
      by (unfold m; destruct (4 <=? k mod imageStride img); lia).
    eexists. split; [reflexivity|].
    split; [rewrite filled_length by (rewrite Hd; exact Hm); exact Hd|].
    intros j Hj. rewrite nthb_filled by lia.
    unfold imageByte. cbv zeta.
    replace (4 <=? imageStride img) with true by lia. cbn [andb].
    assert (Hiff : (j <? m)
                   = (4 * imageHeaderSize img + j * imageStride img + 3
                      <? width img * height img * 3)).
    { transitivity (j * imageStride img + 3 <? k).
      - rewrite <- (complete_iff k (imageStride img) j) by lia.
        unfold m. destruct (4 <=? k mod imageStride img);
          destruct (j <? k / imageStride img + _) eqn:E;
          [apply Z.ltb_lt in E | apply Z.ltb_ge in E
          |apply Z.ltb_lt in E | apply Z.ltb_ge in E];
          try (apply Z.ltb_lt; lia); try (apply Z.ltb_ge; lia).
      - unfold k.
        destruct (j * imageStride img + 3 <? _) eqn:E;
          [apply Z.ltb_lt in E | apply Z.ltb_ge in E]; symmetry;
          [apply Z.ltb_lt | apply Z.ltb_ge]; lia. }
    rewrite Hiff.
    destruct (_ <? width img * height img * 3); [|reflexivity].
    apply imageData_nth. exact Hj.
Qed.

Lemma C4_reveal_outcomes_witness :
  imageHeaderSize (uniform 8 8 (grey 1)) = 2 /\
  imageLength (uniform 8 8 (grey 1)) = 85 /\
  imageStride (uniform 8 8 (grey 1)) = 2 /\
  exists d, Reveal New (uniform 8 8 (grey 1)) = Ok d /\
    len d = imageLength (uniform 8 8 (grey 1)) /\
    forall j, 0 <= j < imageLength (uniform 8 8 (grey 1)) ->
      nthb d j = imageByte (uniform 8 8 (grey 1)) j.
Proof.
  assert (Hwf : wf_image (uniform 8 8 (grey 1))).
  { constructor; simpl; try lia; try reflexivity.
    repeat constructor; simpl; lia. }
  assert (Hh : imageHeaderSize (uniform 8 8 (grey 1)) = 2)
    by (vm_compute; reflexivity).
  assert (Hl : imageLength (uniform 8 8 (grey 1)) = 85)
    by (vm_compute; reflexivity).
  assert (Hs : imageStride (uniform 8 8 (grey 1)) = 2)
    by (vm_compute; reflexivity).
  split; [exact Hh|]. split; [exact Hl|]. split; [exact Hs|].
  pose proof (C4_reveal_outcomes (uniform 8 8 (grey 1)) Hwf) as Hc.
  cbv zeta in Hc. destruct Hc as (_ & _ & _ & _ & Hc).
  assert (H1 : 4 * imageHeaderSize (uniform 8 8 (grey 1))
               <= width (uniform 8 8 (grey 1)) * height (uniform 8 8 (grey 1)) * 3)
    by (rewrite Hh; vm_compute; discriminate).
  assert (H2 : 1 <= imageLength (uniform 8 8 (grey 1)))
    by (rewrite Hl; lia).
  assert (H3 : CalculateCapacity (width (uniform 8 8 (grey 1)))
                 (height (uniform 8 8 (grey 1))) 3 2 < 2 ^ 51)
    by (vm_compute; reflexivity).
  specialize (Hc H1 H2 H3).
  assert (Eg : (imageStride (uniform 8 8 (grey 1)) =? 0)
               && (4 * imageHeaderSize (uniform 8 8 (grey 1))
                   <? width (uniform 8 8 (grey 1))
                      * height (uniform 8 8 (grey 1)) * 3) = false)
    by (rewrite Hs; reflexivity).
  rewrite Eg in Hc. exact Hc.
Defined.

(** ** Further properties of the codec *)

Lemma round_trip_witness :
  roundTrip New (fun _ => 0) [65; 66] (uniform 3 3 black) = Ok [65; 66].
Proof.
  apply (round_trip (fun _ => 0) [65; 66] (uniform 3 3 black)).
  - constructor; simpl; try lia; try reflexivity.
    repeat constructor; simpl; lia.
  - unfold opaque. simpl. repeat constructor; simpl; lia.
  - intros n Hn. lia.
  - repeat constructor; unfold isByte; lia.
  - unfold len; simpl; lia.
  - vm_compute. reflexivity.
  - vm_compute. discriminate.
Defined.

(** *** The outcome of [Conceal] *)

Lemma concealPixel_Ok (hdata data : list Z) (step : Z) (img : Image)
    (x y : Z) :
  0 < step -> 0 <= x + y * width img ->
  Forall isByte hdata -> Forall isByte data ->
  exists c, concealPixel hdata data step img x y = Ok c.
Proof.
  intros Hstep Hpxi Hhd Hdt. unfold concealPixel.
  destruct (concealCell_value hdata data step ((x + y * width img) * 3 + 0)
              (uint8 (cR (At img x y) / 256)) Hstep ltac:(lia) Hhd Hdt
              (uint8_range _)) as (r & -> & _).
  destruct (concealCell_value hdata data step ((x + y * width img) * 3 + 1)
              (uint8 (cG (At img x y) / 256)) Hstep ltac:(lia) Hhd Hdt
              (uint8_range _)) as (g & -> & _).
  destruct (concealCell_value hdata data step ((x + y * width img) * 3 + 2)
              (uint8 (cB (At img x y) / 256)) Hstep ltac:(lia) Hhd Hdt
              (uint8_range _)) as (b & -> & _).
  cbn [mbind result_bind]. eexists. reflexivity.
Qed.

Lemma headerBytes_New_bytes (rnd : Z -> Z) (dlen : Z) (hdata : list Z) :
  Intn_spec rnd -> 0 <= dlen < 2 ^ 32 ->
  headerBytes New rnd dlen = Ok hdata -> Forall isByte hdata.
Proof.
  intros Hrnd Hd Hh.
  destruct (headerBytes_New rnd dlen Hrnd Hd) as (ib & E & _ & Hin).
  rewrite E in Hh. injection Hh as <-.
  constructor; [|apply lengthBytes_bytes].
  apply class_New_elem in Hin. unfold isByte. lia.
Qed.

(** X2: the outcome of [Conceal] on a carrier whose capacity is below
    [2^51], for every index byte: [ErrCapacityMax] for a payload of more
    than [2^32] bytes, whatever the carrier; [ErrCapacityOverflow] for a
    payload of less than [2^32] bytes that does not fit the capacity less
    its header; and an image, with no run-time panic, for a payload of at
    least one byte that fits. *)
Theorem Conceal_outcome (rnd : Z -> Z) (data : list Z) (img : Image) :
  wf_image img -> Intn_spec rnd -> Forall isByte data ->
  let cap := CalculateCapacity (width img) (height img) 3 2 in
  cap < 2 ^ 51 ->
  (2 ^ 32 < len data -> Conceal New rnd data img = Err ErrCapacityMax) /\
  (len data < 2 ^ 32 -> cap - (bytecount (len data) + 1) < len data ->
   Conceal New rnd data img = Err ErrCapacityOverflow) /\
  (1 <= len data < 2 ^ 32 -> len data <= cap - (bytecount (len data) + 1) ->
   exists out, Conceal New rnd data img = Ok out).
Proof.
  intros Hwf Hrnd Hdt cap Hcap. destruct Hwf as [Hw Hh Hpix Hsize Hchan].
  assert (HL0 : 0 <= len data) by (unfold len; lia).
  split; [|split].
  - intros Hbig. unfold Conceal, headerBytes.
    replace (2 ^ 32 <? len data) with true by lia. reflexivity.
  - intros Hlt Hover.
    destruct (headerBytes_New rnd (len data) Hrnd ltac:(lia)) as (ib & Eh & _).
    pose proof (headerBytes_New_len rnd (len data) _ Hrnd ltac:(lia) Eh) as [Hlen _].
    rewrite (Conceal_header rnd data _ img Eh). unfold ConcealWith.
    fold cap. rewrite Hlen.
    replace (cap - (bytecount (len data) + 1) <? len data) with true by lia.
    reflexivity.
  - intros HL Hfit.
    destruct (headerBytes_New rnd (len data) Hrnd ltac:(lia)) as (ib & Eh & Hk & _).
    pose proof (headerBytes_New_len rnd (len data) _ Hrnd ltac:(lia) Eh) as [Hlen _].
    pose proof (headerBytes_New_bytes rnd (len data) _ Hrnd ltac:(lia) Eh) as Hhd.
    rewrite (Conceal_header rnd data _ img Eh). unfold ConcealWith.
    fold cap. rewrite Hlen.
    replace (cap - (bytecount (len data) + 1) <? len data) with false by lia.
    destruct (stride_at_least_4 (cap - (bytecount (len data) + 1)) (len data)
                ltac:(lia) ltac:(lia)) as [Hstep _].
    set (step := stride (cap - (bytecount (len data) + 1)) (len data)) in *.
    set (hdata := ib :: lengthBytes (Z.to_nat (bytecount (len data))) (len data)) in *.
    pose proof (concealLoop_inv hdata data step img Hw Hh) as Hinv.
    destruct (concealLoop hdata data step img) as [out|e].
    + exists out. reflexivity.
    + destruct Hinv as (x & y & Hx & Hy & Herr).
      destruct (concealPixel_Ok hdata data step img x y ltac:(lia)
                  ltac:(nia) Hhd Hdt) as (c & Hc).
      rewrite Hc in Herr. discriminate.
Qed.

Lemma Conceal_outcome_witness :
  (2 ^ 32 < len [7; 8; 9] ->
   Conceal New (fun _ => 0) [7; 8; 9] (uniform 3 3 black) = Err ErrCapacityMax) /\
  (len [7; 8; 9] < 2 ^ 32 ->
   CalculateCapacity 3 3 3 2 - (bytecount (len [7; 8; 9]) + 1) < len [7; 8; 9] ->
   Conceal New (fun _ => 0) [7; 8; 9] (uniform 3 3 black)
   = Err ErrCapacityOverflow) /\
  (1 <= len [7; 8; 9] < 2 ^ 32 ->
   len [7; 8; 9] <= CalculateCapacity 3 3 3 2 - (bytecount (len [7; 8; 9]) + 1) ->
   exists out, Conceal New (fun _ => 0) [7; 8; 9] (uniform 3 3 black) = Ok out).
Proof.
  apply (Conceal_outcome (fun _ => 0) [7; 8; 9] (uniform 3 3 black)).
  - constructor; simpl; try lia; try reflexivity.
    repeat constructor; simpl; lia.
  - intros n Hn. lia.
  - repeat constructor; unfold isByte; lia.
  - vm_compute. reflexivity.
Defined.

(** *** The header, for every length *)

(** X3: for every length below [2^32] and every index byte the random
    source may pick, [headerBytes] returns the index byte followed by [k]
    length bytes, where [k] is the least number of bytes that holds the
    length; the index byte is in [1..255] and of the class [k-1]; [Reveal]
    sizes the header from it to [1 + k] bytes and decodes the length bytes
    to the length. *)
Theorem header_round_trip (rnd : Z -> Z) (dlen : Z) :
  Intn_spec rnd -> 0 <= dlen < 2 ^ 32 ->
  exists ib cld,
    headerBytes New rnd dlen = Ok (ib :: cld) /\
    1 <= len cld <= 4 /\
    dlen < 256 ^ len cld /\ (1 < len cld -> 256 ^ (len cld - 1) <= dlen) /\
    1 <= ib <= 255 /\ Z.of_nat (spec_class ib) = len cld - 1 /\
    headerSize New ib = 1 + len cld /\
    contentLength 0 cld = dlen.
Proof.
  intros Hrnd Hd.
  destruct (headerBytes_New rnd dlen Hrnd Hd) as (ib & Eh & Hk & Hin).
  destruct (header_decodes rnd dlen Hrnd Hd)
    as (ib' & cld & Eh' & Hlen & _ & Hsz & Hval).
  rewrite Eh in Eh'. injection Eh' as <- Hcld.
  apply class_New_elem in Hin as [Hib Hcls].
  exists ib, cld. rewrite Hlen.
  split; [rewrite Eh, Hcld; reflexivity|].
  split; [exact Hk|].
  pose proof (bytecount_cases dlen Hd) as Hbc.
  split; [|split].
  - destruct (dlen <? 2 ^ 8) eqn:E8; [rewrite Hbc; lia|].
    destruct (dlen <? 2 ^ 16) eqn:E16; [rewrite Hbc; lia|].
    destruct (dlen <? 2 ^ 24) eqn:E24; rewrite Hbc; lia.
  - intros Hgt.
    destruct (dlen <? 2 ^ 8) eqn:E8; [lia|].
    destruct (dlen <? 2 ^ 16) eqn:E16; [rewrite Hbc; lia|].
    destruct (dlen <? 2 ^ 24) eqn:E24; rewrite Hbc; lia.
  - split; [exact Hib|]. split; [lia|]. split; [exact Hsz | exact Hval].
Qed.

Lemma header_round_trip_witness :
  exists ib cld,
    headerBytes New (fun n => n - 1) 70000 = Ok (ib :: cld) /\
    1 <= len cld <= 4 /\
    70000 < 256 ^ len cld /\ (1 < len cld -> 256 ^ (len cld - 1) <= 70000) /\
    1 <= ib <= 255 /\ Z.of_nat (spec_class ib) = len cld - 1 /\
    headerSize New ib = 1 + len cld /\
    contentLength 0 cld = 70000.
Proof.
  apply (header_round_trip (fun n => n - 1) 70000).
  - intros n Hn. lia.
  - lia.
Defined.

(** X4: the length bytes are little-endian: [n] bytes written by the loop
    of [headerBytes] decode, by the loops of [Reveal], to the length
    modulo [256^n]; a length that needs more than [n] bytes loses its high
    bytes. *)
Theorem length_bytes_decode (n : nat) (dlen : Z) :
  0 <= dlen ->
  contentLength 0 (lengthBytes n dlen) = dlen mod 256 ^ Z.of_nat n.
Proof.
  intros Hd. rewrite contentLength_value by apply lengthBytes_bytes.
  rewrite lengthBytes_value by exact Hd.
  rewrite Z.pow_mul_r by lia. reflexivity.
Qed.

Lemma length_bytes_decode_witness :
  contentLength 0 (lengthBytes 2 70000) = 70000 mod 256 ^ Z.of_nat 2.
Proof. apply (length_bytes_decode 2 70000). lia. Defined.

(** *** The capacity *)

(** X5: when the product does not overflow, [CalculateCapacity] is the
    product of its arguments divided by 8, rounded down; with 3 channels and
    2 bits it is three quarters of the number of pixels, so four cells for
    each byte of the capacity never exceed the [3 * width * height] cells of
    the image. *)
Theorem capacity_fits_cells (w h : Z) :
  0 <= w -> 0 <= h -> w * h * 8 < 2 ^ 63 ->
  CalculateCapacity w h 3 2 = w * h * 3 / 4 /\
  CalculateCapacity w h 3 2 * 4 <= w * h * 3 < CalculateCapacity w h 3 2 * 4 + 4.
Proof.
  intros Hw Hh Hs. rewrite (CalculateCapacity_32 w h Hw Hh Hs).
  split; [reflexivity|].
  pose proof (Z.div_mod (w * h * 3) 4 ltac:(lia)).
  pose proof (Z.mod_pos_bound (w * h * 3) 4 ltac:(lia)). lia.
Qed.

Lemma capacity_fits_cells_witness :
  CalculateCapacity 5 7 3 2 = 5 * 7 * 3 / 4 /\
  CalculateCapacity 5 7 3 2 * 4 <= 5 * 7 * 3 < CalculateCapacity 5 7 3 2 * 4 + 4.
Proof. apply (capacity_fits_cells 5 7); lia. Defined.

(** *** The stride *)

(** X6: for a capacity below [2^51] and a length from 1 and below [2^53],
    the [float64] computation of the stride is exact: it is the quotient of
    four times the capacity by the length, rounded down.  So the stride is 0
    exactly when the length is more than four times the capacity, and at
    least 4 exactly when the length is at most the capacity. *)
Theorem stride_exact_div (avail n : Z) :
  0 <= avail < 2 ^ 51 -> 1 <= n < 2 ^ 53 ->
  stride avail n = 4 * avail / n /\
  (stride avail n = 0 <-> 4 * avail < n) /\
  (4 <= stride avail n <-> n <= avail).
Proof.
  intros Ha Hn. rewrite stride_exact by assumption.
  pose proof (Z.div_mod (4 * avail) n ltac:(lia)) as Hdm.
  pose proof (Z.mod_pos_bound (4 * avail) n ltac:(lia)) as Hm.
  split; [reflexivity|]. split; split; intros H; nia.
Qed.

Lemma stride_exact_div_witness :
  stride 46 85 = 4 * 46 / 85 /\
  (stride 46 85 = 0 <-> 4 * 46 < 85) /\
  (4 <= stride 46 85 <-> 85 <= 46).
Proof. apply (stride_exact_div 46 85); lia. Defined.

(** *** What [Conceal] writes, and how much it changes *)



(** The steganogram of the payload [[65; 66]] in the black carrier of 3 by 3
    pixels, with the first index byte of its class. *)
Definition stegoExample : NRGBAImage :=
  Eval vm_compute in
    match Conceal New (fun _ => 0) [65; 66] (uniform 3 3 black) with
    | Ok out => out
    | Err _ => NewNRGBA 0 0
    end.


(** X8: [Conceal] changes no channel by more than 3: in the image it
    produces, each of R, G, B differs from the source channel divided by 256
    by at most 3, and the alpha is the source alpha divided by 256. *)
Theorem Conceal_change_le_3 (rnd : Z -> Z) (data : list Z) (img : Image)
    (out : NRGBAImage) (x y ci : Z) :
  wf_image img ->
  Conceal New rnd data img = Ok out ->
  0 <= x < width img -> 0 <= y < height img -> 0 <= ci < 3 ->
  exists c,
    npix out !! Z.to_nat (x + y * width img) = Some c /\
    Z.abs (channel8 c ci - channel16 (At img x y) ci / 256) <= 3 /\
    nA c = cA (At img x y) / 256.
Proof.
  intros Hwf Hc Hx Hy Hci. destruct Hwf as [Hw Hht Hpix Hsize Hchan].
  unfold Conceal in Hc.
  destruct (headerBytes New rnd (len data)) as [hdata|e]; [|discriminate].
  cbn [mbind result_bind] in Hc.
  destruct (CalculateCapacity (width img) (height img) 3 2 - len hdata
            <? len data); [discriminate|].
  match type of Hc with concealLoop _ _ ?s _ = _ => set (step := s) in * end.
  pose proof (concealLoop_inv hdata data step img Hw Hht) as Hinv.
  rewrite Hc in Hinv. destruct Hinv as (_ & _ & _ & Hall).
  assert (Hidx : 0 <= x + y * width img < width img * height img) by nia.
  destruct (Hall x y Hx Hy ltac:(lia)) as (c & Hpx & Hl).
  exists c. split; [exact Hl|].
  apply concealPixel_spec in Hpx as [Ha Hch].
  pose proof (At_lookup img x y ltac:(lia)) as Hat.
  rewrite Forall_forall in Hchan.
  pose proof (Hchan _ (list_elem_of_lookup_2 _ _ _ Hat)) as (HR & HG & HB & HA).
  assert (Hn : forall v, 0 <= v < 65536 -> uint8 (v / 256) = v / 256).
  { intros v Hv. apply uint8_small.
    split; [apply Z.div_pos; lia | apply Z.div_lt_upper_bound; lia]. }
  split; [|rewrite Ha; apply Hn; exact HA].
  destruct (Hch ci Hci) as [Hhigh _].
  assert (Hci16 : 0 <= channel16 (At img x y) ci < 65536).
  { unfold channel16. repeat case_match; assumption. }
  rewrite (Hn _ Hci16) in Hhigh.
  rewrite !Z.shiftr_div_pow2 in Hhigh by lia. change (2 ^ 2) with 4 in Hhigh.
  pose proof (Z.div_mod (channel8 c ci) 4 ltac:(lia)).
  pose proof (Z.mod_pos_bound (channel8 c ci) 4 ltac:(lia)).
  pose proof (Z.div_mod (channel16 (At img x y) ci / 256) 4 ltac:(lia)).
  pose proof (Z.mod_pos_bound (channel16 (At img x y) ci / 256) 4 ltac:(lia)).
  lia.
Qed.

Lemma Conceal_change_le_3_witness :
  exists c,
    npix stegoExample !! Z.to_nat (1 + 1 * 3) = Some c /\
    Z.abs (channel8 c 2 - channel16 (At (uniform 3 3 black) 1 1) 2 / 256) <= 3 /\
    nA c = cA (At (uniform 3 3 black) 1 1) / 256.
Proof.
  apply (Conceal_change_le_3 (fun _ => 0) [65; 66] (uniform 3 3 black)
           stegoExample 1 1 2).
  - constructor; simpl; try lia; try reflexivity.
    repeat constructor; simpl; lia.
  - vm_compute. reflexivity.
  - simpl. lia.
  - simpl. lia.
  - lia.
Defined.

(** *** What [Reveal] looks at *)

Lemma forM_ext {A S : Type} (f g : S -> A -> result S) (l : list A) (s : S) :
  (forall s a, a ∈ l -> f s a = g s a) -> forM f l s = forM g l s.
Proof.
  revert s. induction l as [|a l IH]; intros s Hfg; [reflexivity|].
  cbn [forM]. rewrite (Hfg s a) by (left).
  destruct (g s a) as [s'|e]; cbn [mbind result_bind]; [|reflexivity].
  apply IH. intros s0 a0 Hin. apply Hfg. right. exact Hin.
Qed.

Lemma revealCell_low_bits (s : SteganoPNG) (cap abi v v' : Z) (st : rstate) :
  Z.land v 3 = Z.land v' 3 ->
  revealCell s cap st abi v = revealCell s cap st abi v'.
Proof.
  intros Hv. unfold revealCell.
  destruct (indices _ _ _ abi) as [[dbi sbi]|e]; cbn [mbind result_bind];
    [|reflexivity].
  destruct (_ && _); [|reflexivity].
  assert (H1 : Z.land v 1 = Z.land v' 1).
  { change 1 with (Z.land 3 1). rewrite !Z.land_assoc, Hv. reflexivity. }
  assert (H2 : Z.land v 2 = Z.land v' 2).
  { change 2 with (Z.land 3 2). rewrite !Z.land_assoc, Hv. reflexivity. }
  cbn [forM]. unfold revealBit.
  change (uint8 (Z.shiftl 1 0)) with 1. change (uint8 (Z.shiftl 1 1)) with 2.
  rewrite H1. destruct (if sbi + 0 =? 7 then _ else _) as [st1|e1];
    cbn [mbind result_bind]; [|reflexivity].
  rewrite H2. reflexivity.
Qed.

(** X9: [Reveal] looks at the two low bits of the R, G and B channels
    (divided by 256) only: two decoded images of the same width and height
    whose channels agree on these bits at every pixel give the same result,
    whatever their upper bits and their alpha. *)
Theorem Reveal_low_bits (img1 img2 : Image) :
  width img1 = width img2 -> height img1 = height img2 ->
  (forall x y ci, 0 <= x < width img1 -> 0 <= y < height img1 -> 0 <= ci < 3 ->
     Z.land (uint8 (channel16 (At img1 x y) ci / 256)) 3
     = Z.land (uint8 (channel16 (At img2 x y) ci / 256)) 3) ->
  Reveal New img1 = Reveal New img2.
Proof.
  intros Hw Hh Hlow. unfold Reveal, revealLoop. rewrite <- Hw, <- Hh.
  f_equal. apply forM_ext. intros st y Hy. apply elem_of_seqZ in Hy.
  apply forM_ext. intros st' x Hx. apply elem_of_seqZ in Hx.
  unfold revealPixel. rewrite <- Hw.
  pose proof (Hlow x y 0 ltac:(lia) ltac:(lia) ltac:(lia)) as H0.
  pose proof (Hlow x y 1 ltac:(lia) ltac:(lia) ltac:(lia)) as H1.
  pose proof (Hlow x y 2 ltac:(lia) ltac:(lia) ltac:(lia)) as H2.
  unfold channel16 in H0, H1, H2. cbn [Z.eqb] in H0, H1, H2.
  rewrite (revealCell_low_bits New _ _ _ _ st' H0).
  destruct (revealCell New _ st' _ _) as [st1|e1]; cbn [mbind result_bind];
    [|reflexivity].
  rewrite (revealCell_low_bits New _ _ _ _ st1 H1).
  destruct (revealCell New _ st1 _ _) as [st2|e2]; cbn [mbind result_bind];
    [|reflexivity].
  apply (revealCell_low_bits New _ _ _ _ st2 H2).
Qed.

Lemma Reveal_low_bits_witness :
  Reveal New (uniform 2 2 black)
  = Reveal New (uniform 2 2 {| cR := 1028; cG := 2056; cB := 64512; cA := 0 |}).
Proof.
  apply (Reveal_low_bits (uniform 2 2 black)
           (uniform 2 2 {| cR := 1028; cG := 2056; cB := 64512; cA := 0 |})).
  - reflexivity.
  - reflexivity.
  - intros x y ci Hx Hy Hci. simpl in Hx, Hy.
    assert (x = 0 \/ x = 1) as [-> | ->] by lia;
      assert (y = 0 \/ y = 1) as [-> | ->] by lia;
      assert (ci = 0 \/ ci = 1 \/ ci = 2) as [-> | [-> | ->]] by lia;
      vm_compute; reflexivity.
Defined.

(** *** Carriers that hold no payload *)

(** The variables of [Reveal] before the available encoding byte [n] of an
    image whose low bits are all zero. *)
Definition revealedZero (cap n : Z) (st : rstate) : Prop :=
  dbyte st = 0 /\
  ((n < 4 /\ hdataR st = None /\ dataR st = None /\ clenR st = 0) \/
   (4 <= n < 8 /\ hdataR st = Some [0; 0] /\ dataR st = None /\ clenR st = 0) \/
   (8 <= n /\ hdataR st = Some [0; 0] /\ dataR st = Some [] /\
    stepR st = int_indefinite)).

Lemma readBits_zero (v sbi : Z) : Z.land v 3 = 0 -> readBits 0 v sbi = 0.
Proof.
  intros Hv. unfold readBits.
  change (uint8 (Z.shiftl 1 0)) with 1. change (uint8 (Z.shiftl 1 1)) with 2.
  assert (H1 : Z.land v 1 = 0).
  { change 1 with (Z.land 3 1). rewrite Z.land_assoc, Hv. reflexivity. }
  assert (H2 : Z.land v 2 = 0).
  { change 2 with (Z.land 3 2). rewrite Z.land_assoc, Hv. reflexivity. }
  rewrite H1, H2, !Z.shiftl_0_l. reflexivity.
Qed.

Lemma headerSize_New_0 : headerSize New 0 = 2.
Proof. vm_compute. reflexivity. Qed.

Lemma revealedZero_cell (cap n v : Z) (st : rstate) :
  0 <= n < 2 ^ 63 -> Z.land v 3 = 0 -> revealedZero cap n st ->
  exists st', revealCell New cap st n v = Ok st' /\
              revealedZero cap (n + 1) st'.
Proof.
  intros Hn Hv [Hdb Hrev].
  pose proof (Z.div_mod n 4 ltac:(lia)) as Hdm.
  pose proof (Z.mod_pos_bound n 4 ltac:(lia)) as Hmod.
  assert (Hread : forall sbi, readBits (dbyte st) v sbi = 0)
    by (intros sbi; rewrite Hdb; apply readBits_zero; exact Hv).
  destruct Hrev as [(Hlt & Hh & Hd & Hc) | [(Hlt & Hh & Hd & Hc) | (Hge & Hh & Hd & Hs)]].
  - (* the index byte *)
    unfold revealCell, indices, inHeaderR. rewrite Hh, Hd.
    cbn [mbind result_bind].
    rewrite Z.quot_div_nonneg, Z.rem_mod_nonneg by lia.
    replace (n / 4) with 0 by lia. replace (n mod 4) with n by lia.
    replace (n * 2 <? 8) with true by lia. cbn [andb].
    destruct (Z.eq_dec n 3) as [->|Hn3].
    + change (3 * 2) with 6. rewrite revealBits_complete, Hread.
      unfold completeByte, inHeaderR. cbn [hdataR dataR stepR clenR dbyte].
      rewrite Hh. cbn [Z.eqb]. rewrite headerSize_New_0.
      eexists. split; [reflexivity|].
      split; [reflexivity|]. right. left.
      cbn [hdataR dataR stepR clenR dbyte]. repeat split; try lia; assumption.
    + rewrite revealBits_partial by lia. rewrite Hread.
      eexists. split; [reflexivity|]. split; [reflexivity|]. left.
      cbn [hdataR dataR stepR clenR dbyte]. repeat split; try lia; assumption.
  - (* the length byte *)
    unfold revealCell, indices, inHeaderR. rewrite Hh, Hd.
    change (len [0; 0] * 4) with 8. replace (n <? 8) with true by lia.
    cbn [mbind result_bind].
    rewrite Z.quot_div_nonneg, Z.rem_mod_nonneg by lia.
    replace (n / 4) with 1 by lia.
    replace (n mod 4 * 2 <? 8) with true by lia. cbn [andb].
    destruct (Z.eq_dec n 7) as [->|Hn7].
    + change (7 mod 4 * 2) with 6. rewrite revealBits_complete, Hread.
      unfold completeByte, inHeaderR. cbn [hdataR dataR stepR clenR dbyte].
      rewrite Hh, Hc. change (7 <? len [0; 0] * 4) with true.
      cbn [Z.eqb Pos.eqb]. unfold slice; cbn [from_option id].
      change (store [0; 0] 1 0) with (Ok [0; 0] : result (list Z)).
      cbn [mbind result_bind].
      change (1 =? len [0; 0] - 1) with true. cbv iota.
      change (contentLength 0 (drop 1 [0; 0])) with 0.
      rewrite stride_zero_length.
      eexists. split; [reflexivity|].
      split; [reflexivity|]. right. right.
      cbn [hdataR dataR stepR clenR dbyte]. repeat split; try lia.
    + rewrite revealBits_partial by lia. rewrite Hread.
      eexists. split; [reflexivity|]. split; [reflexivity|]. right. left.
      cbn [hdataR dataR stepR clenR dbyte]. repeat split; try lia; assumption.
  - (* past the header: the buffer is empty *)
    unfold revealCell, indices, inHeaderR. rewrite Hh, Hd, Hs.
    change (len [0; 0] * 4) with 8. replace (n <? 8) with false by lia.
    change (int_indefinite =? 0) with false. cbn [mbind result_bind].
    unfold slice; cbn [from_option id]. change (len [0; 0] * 4) with 8.
    assert (Hq : Z.quot (n - 8) int_indefinite = 0).
    { unfold int_indefinite. rewrite Z.quot_opp_r by lia.
      rewrite Z.quot_small by lia. reflexivity. }
    rewrite Hq. change (0 <? len []) with false. rewrite andb_false_r.
    exists st. split; [reflexivity|].
    split; [exact Hdb|]. right. right. repeat split; try lia; assumption.
Qed.

Lemma revealLoop_zero_bits (img : Image) :
  0 <= width img -> 0 <= height img -> width img * height img * 8 < 2 ^ 63 ->
  (forall x y ci, 0 <= x < width img -> 0 <= y < height img -> 0 <= ci < 3 ->
     Z.land (uint8 (channel16 (At img x y) ci / 256)) 3 = 0) ->
  exists st, revealLoop New img = Ok st /\
    revealedZero (CalculateCapacity (width img) (height img) 3 2)
                 (width img * height img * 3) st.
Proof.
  intros Hw Hh Hsize Hlow.
  set (W := width img) in *. set (H := height img) in *.
  unfold revealLoop. fold W H. set (cap := CalculateCapacity W H 3 2).
  pose proof (forM_seqZ_inv
    (fun y st => revealedZero cap (y * W * 3) st) (fun _ => False)
    (fun st y => forM (fun st x => revealPixel New cap img x y st)
                      (seqZ 0 W) st)
    0 H rstate0 Hh) as Hrows.
  cbv beta in Hrows.
  replace ((0 + H) * W * 3) with (W * H * 3) in Hrows by lia.
  match type of Hrows with _ -> _ -> ?G =>
    assert (HG : G); [apply Hrows; clear Hrows|] end.
  - intros y st Hy Hst.
    pose proof (forM_seqZ_inv
      (fun x st => revealedZero cap ((y * W + x) * 3) st) (fun _ => False)
      (fun st x => revealPixel New cap img x y st) 0 W st Hw) as Hcols.
    cbv beta in Hcols.
    replace ((y * W + (0 + W)) * 3) with ((y + 1) * W * 3) in Hcols by lia.
    apply Hcols; clear Hcols.
    + intros x s Hx Hs.
      assert (Hidx : 0 <= x + y * W < W * H) by nia.
      assert (Hx' : 0 <= x < W) by lia.
      assert (Hc0 : 0 <= 0 < 3) by lia.
      assert (Hc1 : 0 <= 1 < 3) by lia.
      assert (Hc2 : 0 <= 2 < 3) by lia.
      pose proof (Hlow x y 0 Hx' Hy Hc0) as H0.
      pose proof (Hlow x y 1 Hx' Hy Hc1) as H1.
      pose proof (Hlow x y 2 Hx' Hy Hc2) as H2.
      change (channel16 (At img x y) 0) with (cR (At img x y)) in H0.
      change (channel16 (At img x y) 1) with (cG (At img x y)) in H1.
      change (channel16 (At img x y) 2) with (cB (At img x y)) in H2.
      unfold revealPixel. fold W.
      replace ((y * W + x) * 3) with ((x + y * W) * 3 + 0) in Hs by lia.
      assert (Hn0 : 0 <= (x + y * W) * 3 + 0 < 2 ^ 63) by lia.
      assert (Hn1 : 0 <= (x + y * W) * 3 + 1 < 2 ^ 63) by lia.
      assert (Hn2 : 0 <= (x + y * W) * 3 + 2 < 2 ^ 63) by lia.
      destruct (revealedZero_cell cap _ _ s Hn0 H0 Hs)
        as (s1 & -> & Hs1).
      cbn [mbind result_bind].
      replace ((x + y * W) * 3 + 0 + 1) with ((x + y * W) * 3 + 1) in Hs1 by lia.
      destruct (revealedZero_cell cap _ _ s1 Hn1 H1 Hs1)
        as (s2 & -> & Hs2).
      cbn [mbind result_bind].
      replace ((x + y * W) * 3 + 1 + 1) with ((x + y * W) * 3 + 2) in Hs2 by lia.
      destruct (revealedZero_cell cap _ _ s2 Hn2 H2 Hs2)
        as (s3 & -> & Hs3).
      replace ((y * W + (x + 1)) * 3) with ((x + y * W) * 3 + 2 + 1) by lia.
      exact Hs3.
    + replace ((y * W + 0) * 3) with (y * W * 3) by lia. exact Hst.
  - split; [reflexivity|]. left. cbn. repeat split; lia.
  - destruct (forM _ (seqZ 0 H) rstate0) as [st|e]; [|contradiction].
    exists st. split; [reflexivity | exact HG].
Qed.

Lemma revealedZero_slice (cap n : Z) (st : rstate) :
  revealedZero cap n st -> slice (dataR st) = [].
Proof.
  intros (_ & [(_ & _ & -> & _) | [(_ & _ & -> & _) | (_ & _ & -> & _)]]);
    reflexivity.
Qed.

(** X10: an image whose R, G and B channels (divided by 256) all have their
    two low bits at zero decodes to the index byte 0 and the length 0:
    [Reveal] returns the empty payload and no error, whatever the size of
    the image. *)
Theorem Reveal_zero_bits (img : Image) :
  0 <= width img -> 0 <= height img -> width img * height img * 8 < 2 ^ 63 ->
  (forall x y ci, 0 <= x < width img -> 0 <= y < height img -> 0 <= ci < 3 ->
     Z.land (uint8 (channel16 (At img x y) ci / 256)) 3 = 0) ->
  Reveal New img = Ok [].
Proof.
  intros Hw Hh Hsize Hlow.
  destruct (revealLoop_zero_bits img Hw Hh Hsize Hlow) as (st & Hst & Hrev).
  unfold Reveal. rewrite Hst. cbn [mbind result_bind].
  rewrite (revealedZero_slice _ _ _ Hrev). reflexivity.
Qed.

Lemma Reveal_zero_bits_witness :
  Reveal New (uniform 4 3 {| cR := 1028; cG := 2056; cB := 64512; cA := 0 |})
  = Ok [].
Proof.
  apply (Reveal_zero_bits
           (uniform 4 3 {| cR := 1028; cG := 2056; cB := 64512; cA := 0 |})).
  - simpl. lia.
  - simpl. lia.
  - simpl. lia.
  - intros x y ci Hx Hy Hci. simpl in Hx, Hy.
    assert (x = 0 \/ x = 1 \/ x = 2 \/ x = 3) as [-> | [-> | [-> | ->]]] by lia;
      assert (y = 0 \/ y = 1 \/ y = 2) as [-> | [-> | ->]] by lia;
      assert (ci = 0 \/ ci = 1 \/ ci = 2) as [-> | [-> | ->]] by lia;
      vm_compute; reflexivity.
Defined.

(** X11: a carrier whose alpha is below 256 everywhere (alpha 0 once divided
    by 256) loses the payload.  Whatever [Conceal] wrote, the steganogram has
    alpha 0, its pixels read back as zero, and [Reveal] returns the empty
    payload without an error. *)
Theorem transparent_carrier (rnd : Z -> Z) (data : list Z) (img : Image)
    (out : NRGBAImage) :
  0 <= width img -> 0 <= height img -> width img * height img * 8 < 2 ^ 63 ->
  (forall x y, 0 <= x < width img -> 0 <= y < height img ->
     0 <= cA (At img x y) < 256) ->
  Conceal New rnd data img = Ok out ->
  Reveal New (decodeSteganogram out) = Ok [].
Proof.
  intros Hw Hh Hsize Halpha Hc.
  unfold Conceal in Hc. apply bind_Ok in Hc as (hdata & _ & Hc).
  cbv zeta in Hc.
  destruct (_ <? len data) in Hc; [discriminate|].
  set (step := stride _ _) in Hc.
  pose proof (concealLoop_inv hdata data step img Hw Hh) as Hinv.
  rewrite Hc in Hinv. destruct Hinv as (Hwo & Hho & Hlen & Hpx).
  assert (Hzero : forall x y ci,
    0 <= x < width (decodeSteganogram out) ->
    0 <= y < height (decodeSteganogram out) -> 0 <= ci < 3 ->
    Z.land (uint8 (channel16 (At (decodeSteganogram out) x y) ci / 256)) 3 = 0).
  { intros x y ci Hx Hy Hci. cbn [decodeSteganogram width height] in Hx, Hy.
    rewrite Hwo in Hx. rewrite Hho in Hy.
    assert (Hidx : x + y * width img < width img * height img) by nia.
    destruct (Hpx x y Hx Hy Hidx) as (c & Hcp & Hl).
    apply concealPixel_spec in Hcp as [Ha _].
    pose proof (Halpha x y Hx Hy) as HA.
    rewrite (Z.div_small _ 256 HA) in Ha. change (uint8 0) with 0 in Ha.
    unfold At. cbn [decodeSteganogram width height pix].
    rewrite Hwo, list_lookup_fmap, Hl. cbn [fmap option_fmap option_map default].
    unfold NRGBA_RGBA. rewrite Ha, !Z.mul_0_r.
    unfold channel16. cbn [cR cG cB cA].
    repeat case_match; reflexivity. }
  destruct (revealLoop_zero_bits (decodeSteganogram out)) as (st & Hst & Hrev).
  - cbn [decodeSteganogram width]. lia.
  - cbn [decodeSteganogram height]. lia.
  - cbn [decodeSteganogram width height]. rewrite Hwo, Hho. exact Hsize.
  - exact Hzero.
  - unfold Reveal. rewrite Hst. cbn [mbind result_bind].
    rewrite (revealedZero_slice _ _ _ Hrev). reflexivity.
Qed.

Definition transparentExample : NRGBAImage :=
  Eval vm_compute in
    match Conceal New (fun _ => 0) [65; 66]
            (uniform 3 3 {| cR := 0; cG := 0; cB := 0; cA := 0 |}) with
    | Ok out => out
    | Err _ => NewNRGBA 0 0
    end.

Lemma transparent_carrier_witness :
  Reveal New (decodeSteganogram transparentExample) = Ok [].
Proof.
  apply (transparent_carrier (fun _ => 0) [65; 66]
           (uniform 3 3 {| cR := 0; cG := 0; cB := 0; cA := 0 |})).
  - simpl. lia.
  - simpl. lia.
  - simpl. lia.
  - intros x y Hx Hy. simpl in Hx, Hy.
    assert (x = 0 \/ x = 1 \/ x = 2) as [-> | [-> | ->]] by lia;
      assert (y = 0 \/ y = 1 \/ y = 2) as [-> | [-> | ->]] by lia;
      vm_compute; (split; [intros E; discriminate E | reflexivity]).
  - vm_compute. reflexivity.
Defined.

(** *** Carriers too small for a header *)

(** The variables of [Reveal] before the available encoding byte [n], while
    the header is still being read. *)
Definition readingHeader (n : Z) (st : rstate) : Prop :=
  dataR st = None /\
  ((n < 4 /\ hdataR st = None) \/
   (4 <= n /\ exists h, hdataR st = Some h /\ 2 <= len h)).

Lemma readingHeader_cell (cap n v : Z) (st : rstate) :
  0 <= n < 7 -> readingHeader n st ->
  exists st', revealCell New cap st n v = Ok st' /\ readingHeader (n + 1) st'.
Proof.
  intros Hn [Hd Hrev].
  pose proof (Z.div_mod n 4 ltac:(lia)) as Hdm.
  pose proof (Z.mod_pos_bound n 4 ltac:(lia)) as Hmod.
  destruct Hrev as [(Hlt & Hh) | (Hge & h & Hh & Hlen)].
  - unfold revealCell, indices, inHeaderR. rewrite Hh, Hd.
    cbn [mbind result_bind].
    rewrite Z.quot_div_nonneg, Z.rem_mod_nonneg by lia.
    replace (n / 4) with 0 by lia. replace (n mod 4) with n by lia.
    replace (n * 2 <? 8) with true by lia. cbn [andb].
    destruct (Z.eq_dec n 3) as [->|Hn3].
    + change (3 * 2) with 6. rewrite revealBits_complete.
      unfold completeByte, inHeaderR. cbn [hdataR dataR stepR clenR dbyte].
      rewrite Hh. change (0 =? 0) with true. cbv iota.
      unfold slice; cbn [from_option id].
      set (b := readBits (dbyte st) v 6).
      pose proof (headerSize_range b) as Hhs.
      rewrite store_Ok by (rewrite len_replicate; lia).
      cbn [mbind result_bind]. rewrite len_insert, len_replicate by lia.
      replace (0 =? headerSize New b - 1) with false by lia.
      eexists. split; [reflexivity|].
      split; [exact Hd|]. right. split; [lia|].
      eexists. split; [reflexivity|]. rewrite len_insert, len_replicate; lia.
    + rewrite revealBits_partial by lia.
      eexists. split; [reflexivity|].
      split; [exact Hd|]. left. split; [lia | exact Hh].
  - unfold revealCell, indices, inHeaderR. rewrite Hh, Hd.
    replace (n <? len h * 4) with true by lia.
    cbn [mbind result_bind].
    rewrite Z.quot_div_nonneg, Z.rem_mod_nonneg by lia.
    replace (n mod 4 * 2 <? 8) with true by lia. cbn [andb].
    rewrite revealBits_partial by lia.
    eexists. split; [reflexivity|].
    split; [exact Hd|]. right. split; [lia|]. exists h. split; assumption.
Qed.

(** X12: an image of at most two pixels has fewer than the eight available
    encoding bytes of the shortest header; [Reveal] returns the empty payload
    without an error, whatever the pixels are. *)
Theorem Reveal_too_small (img : Image) :
  0 <= width img -> 0 <= height img -> width img * height img <= 2 ->
  Reveal New img = Ok [].
Proof.
  intros Hw Hh Hsmall.
  set (W := width img) in *. set (H := height img) in *.
  assert (Hloop : exists st, revealLoop New img = Ok st /\
                             readingHeader (W * H * 3) st).
  { unfold revealLoop. fold W H. set (cap := CalculateCapacity W H 3 2).
    pose proof (forM_seqZ_inv
      (fun y st => readingHeader (y * W * 3) st) (fun _ => False)
      (fun st y => forM (fun st x => revealPixel New cap img x y st)
                        (seqZ 0 W) st)
      0 H rstate0 Hh) as Hrows.
    cbv beta in Hrows.
    replace ((0 + H) * W * 3) with (W * H * 3) in Hrows by lia.
    match type of Hrows with _ -> _ -> ?G =>
      assert (HG : G); [apply Hrows; clear Hrows|] end.
    - intros y st Hy Hst.
      pose proof (forM_seqZ_inv
        (fun x st => readingHeader ((y * W + x) * 3) st) (fun _ => False)
        (fun st x => revealPixel New cap img x y st) 0 W st Hw) as Hcols.
      cbv beta in Hcols.
      replace ((y * W + (0 + W)) * 3) with ((y + 1) * W * 3) in Hcols by lia.
      apply Hcols; clear Hcols.
      + intros x s Hx Hs.
        assert (Hidx : 0 <= x + y * W < W * H) by nia.
        unfold revealPixel. fold W.
        replace ((y * W + x) * 3) with ((x + y * W) * 3 + 0) in Hs by lia.
        assert (Hn0 : 0 <= (x + y * W) * 3 + 0 < 7) by lia.
        assert (Hn1 : 0 <= (x + y * W) * 3 + 1 < 7) by lia.
        assert (Hn2 : 0 <= (x + y * W) * 3 + 2 < 7) by lia.
        destruct (readingHeader_cell cap _ (uint8 (cR (At img x y) / 256)) s Hn0 Hs)
          as (s1 & -> & Hs1).
        cbn [mbind result_bind].
        replace ((x + y * W) * 3 + 0 + 1) with ((x + y * W) * 3 + 1) in Hs1 by lia.
        destruct (readingHeader_cell cap _ (uint8 (cG (At img x y) / 256)) s1 Hn1 Hs1)
          as (s2 & -> & Hs2).
        cbn [mbind result_bind].
        replace ((x + y * W) * 3 + 1 + 1) with ((x + y * W) * 3 + 2) in Hs2 by lia.
        destruct (readingHeader_cell cap _ (uint8 (cB (At img x y) / 256)) s2 Hn2 Hs2)
          as (s3 & -> & Hs3).
        replace ((y * W + (x + 1)) * 3) with ((x + y * W) * 3 + 2 + 1) by lia.
        exact Hs3.
      + replace ((y * W + 0) * 3) with (y * W * 3) by lia. exact Hst.
    - split; [reflexivity|]. left. split; [lia | reflexivity].
    - destruct (forM _ (seqZ 0 H) rstate0) as [st|e]; [|contradiction].
      exists st. split; [reflexivity | exact HG]. }
  destruct Hloop as (st & Hst & Hd & _).
  unfold Reveal. rewrite Hst. cbn [mbind result_bind]. rewrite Hd. reflexivity.
Qed.

Lemma Reveal_too_small_witness :
  Reveal New (uniform 2 1 white) = Ok [].
Proof. apply (Reveal_too_small (uniform 2 1 white)); simpl; lia. Defined.
